(** * MGDEIS: knowledge-graph ingestion, query catalogue and semantic index

    A shallow embedding of the ingestion and query layer of the
    repository:

    - [neo4j_knowledge_graph.py] ([GovernmentKnowledgeGraph]): the Cypher
      statements of [import_entities], [import_people], [import_partners]
      and [get_entity_hierarchy], read as functions on a labelled
      property graph (module [KG]);
    - [data_pipeline.py] ([DataPipeline]): [_clean_people],
      [_clean_partners] and [_validate_relationships] on typed rows
      (module [Pipeline]);
    - [neo4j_connector.py] ([Neo4jConnector.get_graph_statistics]): the
      most-connected-nodes statement (module [Connector]);
    - [vector_search_system.py]: [index_entities], [index_people] and
      [AdvancedSearch.hybrid_search] (module [VectorSearch]).

    Further functions of the same files follow the same conventions:
    [get_graph_statistics], [get_mydigital_ecosystem],
    [get_key_people_for_entity] and [get_partners_for_entity] (module
    [KGQuery]), [_clean_entities] (module [PipelineEntities]),
    [index_partners], [get_statistics] and [find_similar_entities]
    (module [VectorIndex]) and the counts of the connector's
    [get_graph_statistics] (module [ConnectorStats]).

    The graph engine, pandas and the vector store are libraries outside
    the repository.  The fragments of their behaviour the source relies
    on (MERGE / MATCH / SET, variable-length expansion, ORDER BY / LIMIT;
    [drop_duplicates], [clip], [to_numeric]; [Collection.add]) are written
    out once in the modules [Cypher], [Pandas] and [Chroma]; every
    function of the repository is then an instance that follows its
    source text.

    Conventions.  A DataFrame is the list of its rows.  A missing text
    cell is [None].  Floating-point numbers are rationals, with NaN as a
    separate value: the source only compares, subtracts, divides and
    truncates them.  The rows the import statements MERGE on carry a
    string in their identity column (the cleaning phase removes the rows
    without one).  Log records are kept, in order, next to the graph.
    [datetime()] and [datetime.now()] are read from a clock that is an
    argument of the operation. *)

From Stdlib Require Import QArith Ascii String Lqa.
From stdpp Require Import gmap strings list fin_maps pretty sorting.

Local Open Scope string_scope.

(** ** Values held by properties and query parameters *)

(** A Python / pandas [float64]: a number or NaN.  Numbers are kept as
    rationals; only comparison, subtraction and truncation are used. *)
Inductive pyfloat :=
  | FNaN
  | FNum (q : Q).

Inductive value :=
  | VNull
  | VStr (s : string)
  | VInt (z : Z)
  | VFloat (f : pyfloat)
  | VTime (t : Z).

#[global] Instance Q_eq_dec : EqDecision Q.
Proof. solve_decision. Defined.
#[global] Instance pyfloat_eq_dec : EqDecision pyfloat.
Proof. solve_decision. Defined.
#[global] Instance value_eq_dec : EqDecision value.
Proof. solve_decision. Defined.

(** A text cell of a DataFrame as a query parameter: [None] is a
    missing cell (pandas' NaN, for which [notna] is false). *)
Definition text_value (c : option string) : value :=
  match c with
  | Some s => VStr s
  | None => VFloat FNaN
  end.

(** Cypher [toFloat] on the parameters the statements pass to it (the
    numeric columns and null; no statement passes text). *)
Definition toFloat (v : value) : value :=
  match v with
  | VFloat f => VFloat f
  | VInt z => VFloat (FNum (inject_Z z))
  | _ => VNull
  end.

(** Truncation of a rational towards zero. *)
Definition Qtrunc (q : Q) : Z := Z.quot (Qnum q) (Zpos (Qden q)).

(** Cypher [toInteger] on the parameters the statements pass to it (the
    numeric columns and null; no statement passes text): a float is
    truncated towards zero (NaN becomes 0), an integer is kept.  The
    64-bit range of the engine's integers is not modelled. *)
Definition toInteger (v : value) : value :=
  match v with
  | VInt z => VInt z
  | VFloat (FNum q) => VInt (Qtrunc q)
  | VFloat FNaN => VInt 0
  | _ => VNull
  end.

(** ** The labelled property graph *)

Record node := Node {
  nlabel : string;
  nprops : gmap string value
}.

Record rel := Rel {
  rsrc : nat;
  rtype : string;
  rdst : nat;
  rprops : gmap string value
}.

(** Nodes and relationships are identified by their position: the
    statements in scope never delete, so a position is a stable id. *)
Record graph := Graph {
  nodes : list node;
  rels : list rel
}.

Definition empty_graph : graph := Graph [] [].

Module Cypher.

(** [SET x.k = v]: assigning null removes the property. *)
Definition set_prop (m : gmap string value) (kv : string * value)
  : gmap string value :=
  match kv.2 with
  | VNull => delete kv.1 m
  | v => <[kv.1 := v]> m
  end.

Definition set_props (kvs : list (string * value)) (m : gmap string value)
  : gmap string value :=
  foldl set_prop m kvs.

Definition set_node (kvs : list (string * value)) (n : node) : node :=
  Node (nlabel n) (set_props kvs (nprops n)).

Definition set_rel (kvs : list (string * value)) (r : rel) : rel :=
  Rel (rsrc r) (rtype r) (rdst r) (set_props kvs (rprops r)).

(** The pattern [(:l {k: v})]. *)
Definition node_has (l k v : string) (n : node) : bool :=
  bool_decide (nlabel n = l) && bool_decide (nprops n !! k = Some (VStr v)).

(** The pattern [(i)-[:ty]->(j)] between two bound nodes. *)
Definition rel_is (i : nat) (ty : string) (j : nat) (r : rel) : bool :=
  bool_decide (rsrc r = i) && bool_decide (rtype r = ty)
  && bool_decide (rdst r = j).

(** Positions of the elements of [l] that satisfy [P], from offset [i]. *)
Fixpoint find_all {A} (P : A → bool) (l : list A) (i : nat) : list nat :=
  match l with
  | [] => []
  | x :: l' => (if P x then [i] else []) ++ find_all P l' (S i)
  end.

(** [MATCH (x:l {k: v})]: the ids of all matching nodes. *)
Definition match_node (l k v : string) (g : graph) : list nat :=
  find_all (node_has l k v) (nodes g) 0.

(** [MERGE pattern SET ...] on one kind of element: when some element
    matches, the variable is bound to every match and SET runs on each
    of them; otherwise one element is created from the pattern and SET
    runs on it. *)
Definition merge_set {A} (P : A → bool) (new : A) (f : A → A)
    (l : list A) : list A :=
  if existsb P l
  then map (λ x, if P x then f x else x) l
  else l ++ [f new].

(** Number of rows MERGE produces (what [count(x)] sees). *)
Definition merge_count {A} (P : A → bool) (l : list A) : nat :=
  if existsb P l then length (filter (λ x, P x = true) l) else 1.

(** [UNWIND $rows AS row MERGE (x:l {k: row.key}) SET x.p = ..., ...]
    for one row. *)
Definition merge_node_row (l k : string) (ns : list node)
    (row : string * list (string * value)) : list node :=
  merge_set (node_has l k row.1) (Node l {[ k := VStr row.1 ]})
            (set_node row.2) ns.

(** The whole statement: the rows are processed in order, each MERGE
    sees the nodes created for the rows before it. *)
Definition merge_nodes (l k : string)
    (rows : list (string * list (string * value))) (g : graph) : graph :=
  Graph (foldl (merge_node_row l k) (nodes g) rows) (rels g).

(** Its [RETURN count(x)]: the number of bindings over all rows. *)
Fixpoint merge_nodes_count (l k : string)
    (rows : list (string * list (string * value))) (ns : list node) : nat :=
  match rows with
  | [] => 0
  | row :: rows' =>
      merge_count (node_has l k row.1) ns
      + merge_nodes_count l k rows' (merge_node_row l k ns row)
  end.

(** [MERGE (i)-[r:ty]->(j) SET r.p = ...] for one bound pair. *)
Definition merge_rel_pair (ty : string) (kvs : list (string * value))
    (rs : list rel) (ij : nat * nat) : list rel :=
  merge_set (rel_is ij.1 ty ij.2) (Rel ij.1 ty ij.2 ∅) (set_rel kvs) rs.

(** One row of
    [UNWIND $rows AS row MATCH (a:l1 {k1: row.a}) MATCH (b:l2 {k2: row.b})
     MERGE (a)-[r:ty]->(b) SET r.p = ...]:
    every pair of a matching [a] and a matching [b], in match order. *)
Definition bound_pairs (l1 k1 l2 k2 : string) (ns : list node)
    (row : string * string * list (string * value)) : list (nat * nat) :=
  list_prod (find_all (node_has l1 k1 row.1.1) ns 0)
            (find_all (node_has l2 k2 row.1.2) ns 0).

Definition merge_rel_row (l1 k1 l2 k2 ty : string) (ns : list node)
    (rs : list rel) (row : string * string * list (string * value))
  : list rel :=
  foldl (merge_rel_pair ty row.2) rs (bound_pairs l1 k1 l2 k2 ns row).

Definition merge_rels (l1 k1 l2 k2 ty : string)
    (rows : list (string * string * list (string * value))) (g : graph)
  : graph :=
  Graph (nodes g) (foldl (merge_rel_row l1 k1 l2 k2 ty (nodes g)) (rels g) rows).

(** Its [RETURN count(r)]. *)
Fixpoint merge_pairs_count (ty : string) (kvs : list (string * value))
    (ps : list (nat * nat)) (rs : list rel) : nat :=
  match ps with
  | [] => 0
  | ij :: ps' =>
      merge_count (rel_is ij.1 ty ij.2) rs
      + merge_pairs_count ty kvs ps' (merge_rel_pair ty kvs rs ij)
  end.

Fixpoint merge_rels_count (l1 k1 l2 k2 ty : string)
    (rows : list (string * string * list (string * value)))
    (ns : list node) (rs : list rel) : nat :=
  match rows with
  | [] => 0
  | row :: rows' =>
      merge_pairs_count ty row.2 (bound_pairs l1 k1 l2 k2 ns row) rs
      + merge_rels_count l1 k1 l2 k2 ty rows' ns
          (merge_rel_row l1 k1 l2 k2 ty ns rs row)
  end.

(** The relationships of type [ty] that leave [n], with their ids. *)
Definition out_rels (rs : list rel) (ty : string) (n : nat)
  : list (nat * rel) :=
  filter (λ ir : nat * rel, rsrc ir.2 = n ∧ rtype ir.2 = ty) (imap pair rs).

(** The relationships of type [ty] that enter [n], with their ids. *)
Definition in_rels (rs : list rel) (ty : string) (n : nat)
  : list (nat * rel) :=
  filter (λ ir : nat * rel, rdst ir.2 = n ∧ rtype ir.2 = ty) (imap pair rs).

(** [(n)-[:ty*0..]->(m)]: the end nodes [m] of the paths that start at
    [n], follow relationships of type [ty] forwards and use no
    relationship twice; the empty path comes first, then depth first in
    storage order.  [used] holds the relationships of the path so far.
    A path has at most as many steps as there are relationships, which
    is the fuel the queries pass. *)
Fixpoint expand_out (fuel : nat) (rs : list rel) (ty : string)
    (used : list nat) (n : nat) : list nat :=
  n :: match fuel with
       | O => []
       | S fuel' =>
           flat_map (λ ir : nat * rel,
                       expand_out fuel' rs ty (ir.1 :: used) (rdst ir.2))
             (filter (λ ir : nat * rel, ir.1 ∉ used) (out_rels rs ty n))
       end.

(** [(m)-[:ty*0..]->(n)]: the same, against the direction. *)
Fixpoint expand_in (fuel : nat) (rs : list rel) (ty : string)
    (used : list nat) (n : nat) : list nat :=
  n :: match fuel with
       | O => []
       | S fuel' =>
           flat_map (λ ir : nat * rel,
                       expand_in fuel' rs ty (ir.1 :: used) (rsrc ir.2))
             (filter (λ ir : nat * rel, ir.1 ∉ used) (in_rels rs ty n))
       end.

(** [x.k] in an expression: null when the property is absent. *)
Definition prop (m : gmap string value) (k : string) : value :=
  default VNull (m !! k).

(** [ORDER BY] on one key: the rows come out as some arrangement of the
    input in which the keys never increase; the statement says nothing
    about rows with equal keys. *)
Definition ordered_desc {A} (key : A → nat) (input output : list A) : Prop :=
  output ≡ₚ input ∧ StronglySorted (λ a b, (key b ≤ key a)%nat) output.

End Cypher.

(** ** Python strings *)

Module Py.

(** [str.isspace] on an ASCII character. *)
Definition is_space (a : ascii) : bool :=
  let n := nat_of_ascii a in
  ((9 <=? n) && (n <=? 13) || (28 <=? n) && (n <=? 32))%nat.

Fixpoint lstrip (s : list ascii) : list ascii :=
  match s with
  | a :: s' => if is_space a then lstrip s' else s
  | [] => []
  end.

(** [str.strip()]. *)
Definition strip (s : string) : string :=
  string_of_list_ascii
    (rev (lstrip (rev (lstrip (list_ascii_of_string s))))).

(** [str.split(sep)] for a one-character separator. *)
Fixpoint split (sep : ascii) (s : string) : list string :=
  match s with
  | EmptyString => [""]
  | String a s' =>
      match split sep s' with
      | w :: ws =>
          if bool_decide (a = sep) then "" :: w :: ws else String a w :: ws
      | [] => [String a ""]
      end
  end.

Definition lower_ascii (a : ascii) : ascii :=
  let n := nat_of_ascii a in
  if ((65 <=? n) && (n <=? 90))%nat then ascii_of_nat (n + 32) else a.

(** [str.lower()] on ASCII text. *)
Fixpoint lower (s : string) : string :=
  match s with
  | EmptyString => EmptyString
  | String a s' => String (lower_ascii a) (lower s')
  end.



(** [str.replace(old, new)] for one-character [old]. *)
Fixpoint replace (old : ascii) (new : string) (s : string) : string :=
  match s with
  | EmptyString => EmptyString
  | String a s' =>
      if bool_decide (a = old) then new ++ replace old new s'
      else String a (replace old new s')
  end.

(** [list.sort(key=..., reverse=...)]: a stable sort, elements that
    compare equal stay in input order.  [before x y] says that [x] may
    stand before [y]. *)
Fixpoint insert_by {A} (before : A → A → bool) (x : A) (l : list A)
  : list A :=
  match l with
  | [] => [x]
  | y :: l' => if before x y then x :: l else y :: insert_by before x l'
  end.

Definition stable_sort {A} (before : A → A → bool) (l : list A) : list A :=
  foldr (insert_by before) [] l.

End Py.

(** ** Tabular rows

    One record per DataFrame row.  An identity column holds a string
    after cleaning; before cleaning it may be missing, so the row types of
    people and partners are parametric in the type [K] of identity cells
    ([option string] for raw rows, [string] for the rows the import
    statements MERGE on). *)

Module EntityRow.
Record t := Make {
  entity_id : string;
  name : option string;
  entity_type : option string;
  parent_org : option string;
  mandate : option string;
  policy_alignment : option string;
  state : option string;
  latitude : option pyfloat;
  longitude : option pyfloat
}.
End EntityRow.

Module PersonRow.
Record t (K : Type) := Make {
  person_id : K;
  name : option string;
  title : option string;
  entity_id : K;
  role_type : option string;
  focus_area : option string;
  confidence_score : pyfloat;
  source : option string;
  email : option string
}.
Arguments Make {K}.
Arguments person_id {K}.
Arguments name {K}.
Arguments title {K}.
Arguments entity_id {K}.
Arguments role_type {K}.
Arguments focus_area {K}.
Arguments confidence_score {K}.
Arguments source {K}.
Arguments email {K}.
End PersonRow.

(** A numeric cell as read from a file, as [pd.to_numeric] classifies it:
    a number (also when written as numeric text), text that is not a
    number, or a missing cell. *)
Inductive raw_num :=
  | Numeric (q : Q)
  | NonNumeric (s : string)
  | MissingNum.

Module PartnerRow.
Record t (K N : Type) := Make {
  partner_id : K;
  company_name : option string;
  entity_id : K;
  relationship_type : option string;
  contract_value_rm : N;
  contract_year : N;
  focus_area : option string;
  procurement_stage : option string
}.
Arguments Make {K N}.
Arguments partner_id {K N}.
Arguments company_name {K N}.
Arguments entity_id {K N}.
Arguments relationship_type {K N}.
Arguments contract_value_rm {K N}.
Arguments contract_year {K N}.
Arguments focus_area {K N}.
Arguments procurement_stage {K N}.
End PartnerRow.

(** ** Logging and the state the import operations act on *)

Inductive level := INFO | WARNING | ERROR.

#[global] Instance level_eq_dec : EqDecision level.
Proof. solve_decision. Defined.

Record world := World {
  w_graph : graph;
  w_log : list (level * string)
}.

Definition log (lv : level) (msg : string) (w : world) : world :=
  World (w_graph w) (w_log w ++ [(lv, msg)]).

(** [session.run(statement)]: the statement's effect on the graph. *)
Definition run (q : graph → graph) (w : world) : world :=
  World (q (w_graph w)) (w_log w).

Definition float_value (c : option pyfloat) : value :=
  match c with
  | Some f => VFloat f
  | None => VNull
  end.

(** ** neo4j_knowledge_graph.py: GovernmentKnowledgeGraph

    [datetime()] is read once per statement; [clk n] is the instant at
    which the [n]-th statement of the call runs. *)

Module KG.
Import Cypher.

(** The SET clause of [query_simple]. *)
Definition entity_props (t : Z) (e : EntityRow.t) : list (string * value) :=
  [ ("name", text_value (EntityRow.name e));
    ("entity_type", text_value (EntityRow.entity_type e));
    ("mandate", text_value (EntityRow.mandate e));
    ("state", text_value (EntityRow.state e));
    ("latitude", toFloat (float_value (EntityRow.latitude e)));
    ("longitude", toFloat (float_value (EntityRow.longitude e)));
    ("created_at", VTime t) ].

Definition entity_rows (t : Z) (entities_df : list EntityRow.t)
  : list (string * list (string * value)) :=
  map (λ e, (EntityRow.entity_id e, entity_props t e)) entities_df.

(** [hierarchical = entities_df[entities_df['parent_org'].notna()]] and
    the [relationships] list built from it. *)
Definition hierarchy_relationships (t : Z) (entities_df : list EntityRow.t)
  : list (string * string * list (string * value)) :=
  omap (λ e, match EntityRow.parent_org e with
             | Some p => Some (EntityRow.entity_id e, p, [("created_at", VTime t)])
             | None => None
             end) entities_df.

Definition _create_entity_hierarchy (t : Z) (entities_df : list EntityRow.t)
    (w : world) : world :=
  let w := log INFO "Creating organizational hierarchy..." w in
  let relationships := hierarchy_relationships t entities_df in
  match relationships with
  | [] => w
  | _ =>
      let count := merge_rels_count "Entity" "entity_id" "Entity" "entity_id"
                     "REPORTS_TO" relationships
                     (nodes (w_graph w)) (rels (w_graph w)) in
      let w := run (merge_rels "Entity" "entity_id" "Entity" "entity_id"
                      "REPORTS_TO" relationships) w in
      log INFO ("Created " ++ pretty count ++ " hierarchical relationships") w
  end.

(** [[p.strip() for p in policies.split('|')]]. *)
Definition policy_tokens (s : string) : list string :=
  map Py.strip (Py.split "|" s).

(** The set [all_policies]. *)
Definition all_policies (entities_df : list EntityRow.t) : gset string :=
  foldl (λ (acc : gset string) e,
           match EntityRow.policy_alignment e with
           | Some s => acc ∪ list_to_set (policy_tokens s)
           | None => acc
           end) ∅ entities_df.

(** The [alignments] list. *)
Definition alignments (t : Z) (entities_df : list EntityRow.t)
  : list (string * string * list (string * value)) :=
  flat_map (λ e, match EntityRow.policy_alignment e with
                 | Some s =>
                     map (λ policy, (EntityRow.entity_id e, policy,
                                     [("created_at", VTime t)]))
                         (policy_tokens s)
                 | None => []
                 end) entities_df.

Definition policy_rows (t : Z) (entities_df : list EntityRow.t)
  : list (string * list (string * value)) :=
  map (λ p, (p, [("created_at", VTime t)])) (elements (all_policies entities_df)).

Definition _create_policy_alignments (t1 t2 : Z)
    (entities_df : list EntityRow.t) (w : world) : world :=
  let w := log INFO "Creating policy alignments..." w in
  let created := merge_nodes_count "Policy" "name"
                   (policy_rows t1 entities_df) (nodes (w_graph w)) in
  let w := run (merge_nodes "Policy" "name" (policy_rows t1 entities_df)) w in
  let w := log INFO ("Created " ++ pretty created ++ " policy nodes") w in
  let count := merge_rels_count "Entity" "entity_id" "Policy" "name"
                 "ALIGNED_TO" (alignments t2 entities_df)
                 (nodes (w_graph w)) (rels (w_graph w)) in
  let w := run (merge_rels "Entity" "entity_id" "Policy" "name"
                  "ALIGNED_TO" (alignments t2 entities_df)) w in
  log INFO ("Created " ++ pretty count ++ " policy alignment relationships") w.

Definition import_entities (clk : nat → Z) (entities_df : list EntityRow.t)
    (w : world) : world :=
  let w := log INFO ("Importing " ++ pretty (length entities_df)
                     ++ " entities...") w in
  let count := merge_nodes_count "Entity" "entity_id"
                 (entity_rows (clk 0%nat) entities_df) (nodes (w_graph w)) in
  let w := run (merge_nodes "Entity" "entity_id"
                  (entity_rows (clk 0%nat) entities_df)) w in
  let w := log INFO ("Created/updated " ++ pretty count ++ " entity nodes") w in
  let w := _create_entity_hierarchy (clk 1%nat) entities_df w in
  _create_policy_alignments (clk 2%nat) (clk 3%nat) entities_df w.

(** The SET clause of the Person statement. *)
Definition person_props (t : Z) (p : PersonRow.t string)
  : list (string * value) :=
  [ ("name", text_value (PersonRow.name p));
    ("title", text_value (PersonRow.title p));
    ("role_type", text_value (PersonRow.role_type p));
    ("focus_area", text_value (PersonRow.focus_area p));
    ("confidence_score", toFloat (VFloat (PersonRow.confidence_score p)));
    ("email", text_value (PersonRow.email p));
    ("source", text_value (PersonRow.source p));
    ("created_at", VTime t) ].

Definition person_rows (t : Z) (people_df : list (PersonRow.t string))
  : list (string * list (string * value)) :=
  map (λ p, (PersonRow.person_id p, person_props t p)) people_df.

Definition works_for_relationships (t : Z)
    (people_df : list (PersonRow.t string))
  : list (string * string * list (string * value)) :=
  map (λ p, (PersonRow.person_id p, PersonRow.entity_id p,
             [("created_at", VTime t)])) people_df.

Definition import_people (clk : nat → Z)
    (people_df : list (PersonRow.t string)) (w : world) : world :=
  let w := log INFO ("Importing " ++ pretty (length people_df)
                     ++ " people...") w in
  let count := merge_nodes_count "Person" "person_id"
                 (person_rows (clk 0%nat) people_df) (nodes (w_graph w)) in
  let w := run (merge_nodes "Person" "person_id"
                  (person_rows (clk 0%nat) people_df)) w in
  let w := log INFO ("Created/updated " ++ pretty count ++ " person nodes") w in
  let relationships := works_for_relationships (clk 1%nat) people_df in
  let count := merge_rels_count "Person" "person_id" "Entity" "entity_id"
                 "WORKS_FOR" relationships
                 (nodes (w_graph w)) (rels (w_graph w)) in
  let w := run (merge_rels "Person" "person_id" "Entity" "entity_id"
                  "WORKS_FOR" relationships) w in
  log INFO ("Created " ++ pretty count ++ " WORKS_FOR relationships") w.

(** The SET clause of the Company statement. *)
Definition company_props (t : Z) (p : PartnerRow.t string pyfloat)
  : list (string * value) :=
  [ ("name", text_value (PartnerRow.company_name p));
    ("focus_area", text_value (PartnerRow.focus_area p));
    ("created_at", VTime t) ].

Definition company_rows (t : Z) (partners_df : list (PartnerRow.t string pyfloat))
  : list (string * list (string * value)) :=
  map (λ p, (PartnerRow.partner_id p, company_props t p)) partners_df.

(** The SET clause of [partnership_query]. *)
Definition partnership_props (t : Z) (p : PartnerRow.t string pyfloat)
  : list (string * value) :=
  [ ("relationship_type", text_value (PartnerRow.relationship_type p));
    ("contract_value_rm", toInteger (VFloat (PartnerRow.contract_value_rm p)));
    ("contract_year", toInteger (VFloat (PartnerRow.contract_year p)));
    ("procurement_stage", text_value (PartnerRow.procurement_stage p));
    ("created_at", VTime t) ].

Definition partnership_relationships (t : Z)
    (partners_df : list (PartnerRow.t string pyfloat))
  : list (string * string * list (string * value)) :=
  map (λ p, (PartnerRow.partner_id p, PartnerRow.entity_id p,
             partnership_props t p)) partners_df.

Definition import_partners (clk : nat → Z)
    (partners_df : list (PartnerRow.t string pyfloat)) (w : world) : world :=
  let w := log INFO ("Importing " ++ pretty (length partners_df)
                     ++ " partners...") w in
  let count := merge_nodes_count "Company" "partner_id"
                 (company_rows (clk 0%nat) partners_df) (nodes (w_graph w)) in
  let w := run (merge_nodes "Company" "partner_id"
                  (company_rows (clk 0%nat) partners_df)) w in
  let w := log INFO ("Created/updated " ++ pretty count ++ " company nodes") w in
  let relationships := partnership_relationships (clk 1%nat) partners_df in
  let count := merge_rels_count "Company" "partner_id" "Entity" "entity_id"
                 "PARTNERS_WITH" relationships
                 (nodes (w_graph w)) (rels (w_graph w)) in
  let w := run (merge_rels "Company" "partner_id" "Entity" "entity_id"
                  "PARTNERS_WITH" relationships) w in
  log INFO ("Created " ++ pretty count ++ " PARTNERS_WITH relationships") w.

(** The map [{name: x.name, id: x.entity_id, type: x.entity_type}]. *)
Record summary := Summary {
  s_name : value;
  s_id : value;
  s_type : value
}.

#[global] Instance summary_eq_dec : EqDecision summary.
Proof. solve_decision. Defined.

Definition summarize (g : graph) (i : nat) : summary :=
  let m := default ∅ (nprops <$> nodes g !! i) in
  Summary (prop m "name") (prop m "entity_id") (prop m "entity_type").

Record hierarchy := Hierarchy {
  entity_name : value;
  parents : list summary;
  children : list summary
}.

(** The rows of the hierarchy statement before the final aggregation:
    one per matched entity [e], with [collect(parent)] and the children
    matched for it. *)
Definition hierarchy_rows (entity_id : string) (g : graph)
  : list hierarchy :=
  map (λ e,
         Hierarchy
           (prop (default ∅ (nprops <$> nodes g !! e)) "name")
           (map (summarize g)
                (expand_out (length (rels g)) (rels g) "REPORTS_TO" [] e))
           (map (summarize g)
                (expand_in (length (rels g)) (rels g) "REPORTS_TO" [] e)))
      (match_node "Entity" "entity_id" entity_id g).

(** [RETURN e.name, parents, collect(child)] groups on the first two
    columns; [result.single()] takes the first record, and [dict(None)]
    raises when there is none ([None] here). *)
Definition get_entity_hierarchy (entity_id : string) (g : graph)
  : option hierarchy :=
  match hierarchy_rows entity_id g with
  | [] => None
  | r :: rest =>
      Some (Hierarchy (entity_name r) (parents r)
              (children r
               ++ flat_map children
                    (filter (λ r', entity_name r' = entity_name r
                                   ∧ parents r' = parents r) rest)))
  end.

End KG.

(** ** pandas operations used by the cleaning phase *)

Module Pandas.

(** [df.drop_duplicates(subset=[key], keep='first')]; [seen] holds the
    keys met so far. *)
Fixpoint drop_duplicates_from {A K} `{EqDecision K} (key : A → K)
    (seen : list K) (df : list A) : list A :=
  match df with
  | [] => []
  | x :: df' =>
      if decide (key x ∈ seen) then drop_duplicates_from key seen df'
      else x :: drop_duplicates_from key (key x :: seen) df'
  end.

Definition drop_duplicates {A K} `{EqDecision K} (key : A → K)
    (df : list A) : list A :=
  drop_duplicates_from key [] df.

Definition Qltb (a b : Q) : bool := negb (Qle_bool b a).

(** [Series.clip(lo, hi)] on a float column; NaN stays NaN. *)
Definition clip (lo hi : Q) (f : pyfloat) : pyfloat :=
  match f with
  | FNaN => FNaN
  | FNum q => if Qltb q lo then FNum lo
              else if Qltb hi q then FNum hi else FNum q
  end.

(** [pd.to_numeric(col, errors='coerce')]. *)
Definition to_numeric (c : raw_num) : pyfloat :=
  match c with
  | Numeric q => FNum q
  | NonNumeric _ => FNaN
  | MissingNum => FNaN
  end.

(** [Series.fillna(d)]. *)
Definition fillna (d : Q) (f : pyfloat) : pyfloat :=
  match f with
  | FNaN => FNum d
  | FNum q => FNum q
  end.

End Pandas.

(** ** data_pipeline.py: DataPipeline *)

Module Pipeline.

Definition _clean_people (df : list (PersonRow.t (option string)))
  : list (PersonRow.t string) :=
  (* Remove duplicates *)
  let df := Pandas.drop_duplicates PersonRow.person_id df in
  (* Standardize text fields, validate confidence scores, email format *)
  let df := map (λ p,
      PersonRow.Make (PersonRow.person_id p)
        (Py.strip <$> PersonRow.name p)
        (Py.strip <$> PersonRow.title p)
        (PersonRow.entity_id p)
        (PersonRow.role_type p)
        (PersonRow.focus_area p)
        (Pandas.clip 0 1 (PersonRow.confidence_score p))
        (PersonRow.source p)
        ((λ s, Py.strip (Py.lower s)) <$> PersonRow.email p)) df in
  (* Remove records with missing critical fields *)
  omap (λ p,
      match PersonRow.name p, PersonRow.person_id p, PersonRow.entity_id p with
      | Some _, Some pid, Some eid =>
          Some (PersonRow.Make pid (PersonRow.name p) (PersonRow.title p) eid
                  (PersonRow.role_type p) (PersonRow.focus_area p)
                  (PersonRow.confidence_score p) (PersonRow.source p)
                  (PersonRow.email p))
      | _, _, _ => None
      end) df.

(** [current_year] is [datetime.now().year]. *)
Definition _clean_partners (current_year : Z)
    (df : list (PartnerRow.t (option string) raw_num))
  : list (PartnerRow.t string pyfloat) :=
  (* Remove duplicates *)
  let df := Pandas.drop_duplicates PartnerRow.partner_id df in
  (* Standardize text, make contract values numeric, validate years *)
  let df := map (λ p,
      PartnerRow.Make (PartnerRow.partner_id p)
        (Py.strip <$> PartnerRow.company_name p)
        (PartnerRow.entity_id p)
        (PartnerRow.relationship_type p)
        (Pandas.fillna 0 (Pandas.to_numeric (PartnerRow.contract_value_rm p)))
        (Pandas.clip 2000 (inject_Z (current_year + 5))
           (Pandas.to_numeric (PartnerRow.contract_year p)))
        (PartnerRow.focus_area p)
        (PartnerRow.procurement_stage p)) df in
  (* Remove records with missing critical fields *)
  omap (λ p,
      match PartnerRow.company_name p, PartnerRow.partner_id p,
            PartnerRow.entity_id p with
      | Some _, Some pid, Some eid =>
          Some (PartnerRow.Make pid (PartnerRow.company_name p) eid
                  (PartnerRow.relationship_type p)
                  (PartnerRow.contract_value_rm p)
                  (PartnerRow.contract_year p)
                  (PartnerRow.focus_area p)
                  (PartnerRow.procurement_stage p))
      | _, _, _ => None
      end) df.

(** [parent_org.notna() & ~parent_org.isin(entity_ids)] on one row. *)
Definition parent_org_invalid (entity_ids : gset string) (e : EntityRow.t)
  : bool :=
  match EntityRow.parent_org e with
  | Some p => bool_decide (p ∉ entity_ids)
  | None => false
  end.

(** The log records [_validate_relationships] emits. *)
Definition _validate_relationships (entities_df : list EntityRow.t)
    (people_df : list (PersonRow.t string))
    (partners_df : list (PartnerRow.t string pyfloat))
  : list (level * string) :=
  let entity_ids : gset string :=
    list_to_set (map EntityRow.entity_id entities_df) in
  let invalid_people :=
    filter (λ p, PersonRow.entity_id p ∉ entity_ids) people_df in
  let invalid_partners :=
    filter (λ p, PartnerRow.entity_id p ∉ entity_ids) partners_df in
  let invalid_parents :=
    filter (λ e, parent_org_invalid entity_ids e = true) entities_df in
  (if bool_decide (0 < length invalid_people)%nat
   then [(WARNING, "Found " ++ pretty (length invalid_people)
                   ++ " people with invalid entity_id")]
   else [])
  ++ (if bool_decide (0 < length invalid_partners)%nat
      then [(WARNING, "Found " ++ pretty (length invalid_partners)
                      ++ " partners with invalid entity_id")]
      else [])
  ++ (if bool_decide (0 < length invalid_parents)%nat
      then [(WARNING, "Found " ++ pretty (length invalid_parents)
                      ++ " entities with invalid parent_org")]
      else []).

End Pipeline.

(** ** neo4j_connector.py: Neo4jConnector.get_graph_statistics *)

Module Connector.
Import Cypher.

(** A record of the most-connected statement:
    [n.name as name, labels(n)[0] as type, connections]. *)
Record connected := Connected {
  c_name : value;
  c_type : string;
  connections : nat
}.

(** [label_filter]: empty (or no) [filter_labels] means no WHERE. *)
Definition label_filter (filter_labels : list string) (n : node) : bool :=
  match filter_labels with
  | [] => true
  | _ => bool_decide (nlabel n ∈ filter_labels)
  end.

(** [OPTIONAL MATCH (n)-[r]-() WITH n, count(r)]: the relationships that
    start or end at [n]. *)
Definition degree (g : graph) (i : nat) : nat :=
  length (filter (λ r, rsrc r = i ∨ rdst r = i) (rels g)).

(** The rows that reach ORDER BY: the filtered nodes with
    [connections > 0]. *)
Definition connected_nodes (filter_labels : list string) (g : graph)
  : list connected :=
  omap (λ ix : nat * node,
          if label_filter filter_labels ix.2 && (0 <? degree g ix.1)%nat
          then Some (Connected (prop (nprops ix.2) "name") (nlabel ix.2)
                               (degree g ix.1))
          else None)
       (imap pair (nodes g)).

(** [ORDER BY connections DESC LIMIT 10]: what the statement allows as
    the value of [stats['most_connected']]. *)
Definition most_connected_rows (filter_labels : list string) (g : graph)
    (out : list connected) : Prop :=
  ∃ l, ordered_desc connections (connected_nodes filter_labels g) l
       ∧ out = take 10 l.

(** The rows an engine returns that leaves equal keys in scan order. *)
Definition most_connected (filter_labels : list string) (g : graph)
  : list connected :=
  take 10 (Py.stable_sort (λ a b, (connections b <=? connections a)%nat)
                          (connected_nodes filter_labels g)).

End Connector.

(** ** Exceptions and the vector store *)

Inductive error :=
  | ValueError
  | DuplicateIDError
  | ZeroDivisionError.

Inductive result (A : Type) :=
  | Ok (a : A)
  | Raise (e : error).
Arguments Ok {A}.
Arguments Raise {A}.

Module Chroma.

Record document := Document {
  doc_text : string;
  doc_meta : gmap string value
}.

(** A collection maps a document id to its text and metadata (the
    embedding is computed by the store from the text). *)
Abbreviation collection := (gmap string document).

Definition add_one (c : collection) (r : string * (string * gmap string value))
  : collection :=
  match c !! r.1 with
  | Some _ => c
  | None => <[r.1 := Document r.2.1 r.2.2]> c
  end.

(** [Collection.add(documents, metadatas, ids)] of the vector store, as
    its documentation describes it: the ids must form a non-empty list
    without repetition ([ValueError], [DuplicateIDError] otherwise); a
    record whose id is already in the collection is left as it is, the
    others are inserted ([upsert] is the call that overwrites).  The
    three lists are built from the same rows and have the same length. *)
Definition add (documents : list string)
    (metadatas : list (gmap string value)) (ids : list string)
    (c : collection) : result collection :=
  match ids with
  | [] => Raise ValueError
  | _ =>
      if bool_decide (NoDup ids)
      then Ok (foldl add_one c (zip ids (zip documents metadatas)))
      else Raise DuplicateIDError
  end.

(** [Collection.count()]. *)
Definition count (c : collection) : nat := size c.

End Chroma.

(** ** vector_search_system.py *)

Module VectorSearch.

(** [str(x)] and [f"{x}"] of a text cell; a missing cell prints as
    [nan]. *)
Definition py_str (c : option string) : string := default "nan" c.

Definition _create_entity_document (row : EntityRow.t) : string :=
  let parts :=
    [ "Entity: " ++ py_str (EntityRow.name row);
      "Type: " ++ py_str (EntityRow.entity_type row);
      "Mandate: " ++ py_str (EntityRow.mandate row) ] in
  let parts :=
    match EntityRow.policy_alignment row with
    | Some s => app parts ["Policy Alignment: " ++ Py.replace "|" ", " s]
    | None => parts
    end in
  let parts :=
    match EntityRow.parent_org row with
    | Some p => app parts ["Reports to: " ++ p]
    | None => parts
    end in
  String.concat ". " parts.

Definition entity_metadata (indexed_at : string) (row : EntityRow.t)
  : gmap string value :=
  list_to_map
    [ ("entity_id", VStr (EntityRow.entity_id row));
      ("name", VStr (py_str (EntityRow.name row)));
      ("entity_type", VStr (py_str (EntityRow.entity_type row)));
      ("parent_org", VStr (py_str (EntityRow.parent_org row)));
      ("policy_alignment", VStr (py_str (EntityRow.policy_alignment row)));
      ("state", VStr (py_str (EntityRow.state row)));
      ("indexed_at", VStr indexed_at) ].

(** [now i] is [datetime.now().isoformat()] when row [i] is visited. *)
Definition index_entities (now : nat → string)
    (entities_df : list EntityRow.t) (entities_collection : Chroma.collection)
  : result Chroma.collection :=
  let documents := map _create_entity_document entities_df in
  let metadatas := imap (λ i row, entity_metadata (now i) row) entities_df in
  let ids := map (λ row, "entity_" ++ EntityRow.entity_id row) entities_df in
  Chroma.add documents metadatas ids entities_collection.

Definition _create_person_document (row : PersonRow.t string) : string :=
  String.concat ". "
    [ "Person: " ++ py_str (PersonRow.name row);
      "Title: " ++ py_str (PersonRow.title row);
      "Role: " ++ py_str (PersonRow.role_type row);
      "Focus Area: " ++ py_str (PersonRow.focus_area row);
      "Works at entity: " ++ PersonRow.entity_id row ].

Definition person_metadata (indexed_at : string) (row : PersonRow.t string)
  : gmap string value :=
  list_to_map
    [ ("person_id", VStr (PersonRow.person_id row));
      ("name", VStr (py_str (PersonRow.name row)));
      ("title", VStr (py_str (PersonRow.title row)));
      ("entity_id", VStr (PersonRow.entity_id row));
      ("role_type", VStr (py_str (PersonRow.role_type row)));
      ("focus_area", VStr (py_str (PersonRow.focus_area row)));
      ("confidence_score", VFloat (PersonRow.confidence_score row));
      ("email", VStr (py_str (PersonRow.email row)));
      ("indexed_at", VStr indexed_at) ].

Definition index_people (now : nat → string)
    (people_df : list (PersonRow.t string)) (people_collection : Chroma.collection)
  : result Chroma.collection :=
  let documents := map _create_person_document people_df in
  let metadatas := imap (λ i row, person_metadata (now i) row) people_df in
  let ids := map (λ row, "person_" ++ PersonRow.person_id row) people_df in
  Chroma.add documents metadatas ids people_collection.

(** One formatted search result ([_format_results]). *)
Record hit := Hit {
  hit_id : string;
  hit_metadata : gmap string value;
  hit_document : string;
  distance : Q;
  relevance_score : Q
}.






End VectorSearch.

(** ** Node and edge identity

    Auxiliary definitions for the statements about the import
    operations: what identifies a node and an edge, and the effect of the
    MERGE statements on identities alone. *)

Module Identity.

(** The identity property of each node kind (the uniqueness
    constraints of [create_constraints]). *)
Definition key_of (l : string) : string :=
  if bool_decide (l = "Entity") then "entity_id"
  else if bool_decide (l = "Person") then "person_id"
  else if bool_decide (l = "Company") then "partner_id"
  else "name".

Definition node_identity (n : node) : string * option value :=
  (nlabel n, nprops n !! key_of (nlabel n)).

Definition rel_identity (r : rel) : nat * string * nat :=
  (rsrc r, rtype r, rdst r).


(** Append [x] unless it is there. *)
Definition add_absent {A} `{EqDecision A} (l : list A) (x : A) : list A :=
  if decide (x ∈ l) then l else l ++ [x].

Definition adds {A} `{EqDecision A} (l xs : list A) : list A :=
  foldl add_absent l xs.

(** The identity of the [l]-node with key [v]. *)
Definition ident (l v : string) : string * option value :=
  (l, Some (VStr v)).

(** The edges a relationship statement merges, computed on node
    identities. *)
Definition triples (ty l1 l2 : string) (ids : list (string * option value))
    (pairs : list (string * string)) : list (nat * string * nat) :=
  flat_map (λ ab : string * string,
              map (λ ij : nat * nat, (ij.1, ty, ij.2))
                  (list_prod
                     (Cypher.find_all (λ x, bool_decide (x = ident l1 ab.1)) ids 0)
                     (Cypher.find_all (λ x, bool_decide (x = ident l2 ab.2)) ids 0)))
           pairs.

(** There is an [l]-node with key [v]. *)
Definition node_exists (l v : string) (g : graph) : Prop :=
  ∃ i n, nodes g !! i = Some n ∧ nlabel n = l
         ∧ nprops n !! key_of l = Some (VStr v).

(** There is a [ty]-edge from an [l1]-node with key [a] to an
    [l2]-node with key [b]. *)
Definition edge_exists (l1 a ty l2 b : string) (g : graph) : Prop :=
  ∃ i j r, i ∈ Cypher.match_node l1 (key_of l1) a g
           ∧ j ∈ Cypher.match_node l2 (key_of l2) b g
           ∧ r ∈ rels g ∧ rsrc r = i ∧ rtype r = ty ∧ rdst r = j.

(** The effect of the two kinds of MERGE statement on identities.
    A state is the list of node identities and the list of edge
    identities. *)
Definition node_phase (l : string) (keys : list string)
    (s : list (string * option value) * list (nat * string * nat))
  : list (string * option value) * list (nat * string * nat) :=
  (adds s.1 (map (ident l) keys), s.2).

Definition rel_phase (ty l1 l2 : string) (pairs : list (string * string))
    (s : list (string * option value) * list (nat * string * nat))
  : list (string * option value) * list (nat * string * nat) :=
  (s.1, adds s.2 (triples ty l1 l2 s.1 pairs)).

Definition skeleton (g : graph)
  : list (string * option value) * list (nat * string * nat) :=
  (map node_identity (nodes g), map rel_identity (rels g)).

(** The properties of [r] are the result of the SET clause [kvs]. *)
Definition written (kvs : list (string * value)) (r : rel) : Prop :=
  ∃ m0, rprops r = Cypher.set_props kvs m0.

End Identity.

(** ** Sample data

    The rows of [_generate_sample_data] and small variations of them,
    used where a statement is run on a concrete batch. *)

Definition sample_row : EntityRow.t :=
  EntityRow.Make "MIN001" (Some "Ministry of Digital") (Some "Ministry") None
    (Some "Lead digital transformation") (Some "MyDIGITAL|AI Roadmap")
    (Some "Federal") None None.

Definition chain_row (id : string) (parent : option string) : EntityRow.t :=
  EntityRow.Make id (Some id) (Some "Agency") parent None None None None None.

Definition chain_graph : graph :=
  w_graph (KG.import_entities (λ k, Z.of_nat k)
             [chain_row "A" None; chain_row "B" (Some "A");
              chain_row "C" (Some "B")]
             (World empty_graph [])).

Definition raw_person (pid : string) (conf : Q) : PersonRow.t (option string) :=
  PersonRow.Make (Some pid) (Some "Gobind Singh Deo") (Some "Minister")
    (Some "MIN001") (Some "Political") (Some "Digital Policy") (FNum conf)
    (Some "Official Website") (Some "minister@digital.gov.my").

Definition raw_people : list (PersonRow.t (option string)) :=
  [raw_person "P001" (14 # 10); raw_person "P002" (- 2 # 10)].


Definition raw_partner_row : PartnerRow.t (option string) raw_num :=
  PartnerRow.Make (Some "COMP001") (Some "TechMalaysia Solutions")
    (Some "MIN001") (Some "Service Provider") (NonNumeric "not a number")
    (Numeric 2024) (Some "Digital Infrastructure") (Some "Active").

Definition sample_world : world :=
  KG.import_entities (λ k, Z.of_nat k) [sample_row] (World empty_graph []).

Definition raw_partner_graph : graph :=
  w_graph (KG.import_partners (λ k, Z.of_nat k)
             (Pipeline._clean_partners 2026 [raw_partner_row]) sample_world).

Definition orphan_person : PersonRow.t string :=
  PersonRow.Make "P001" (Some "Gobind Singh Deo") (Some "Minister") "NOPE"
    (Some "Political") (Some "Digital Policy") (FNum (95 # 100))
    (Some "Official Website") (Some "minister@digital.gov.my").

Definition hit_mdec : VectorSearch.hit :=
  VectorSearch.Hit "entity_AGN001" ∅ "Entity: MDEC. Type: Agency" (1 # 2) (1 # 2).

Definition hit_ministry : VectorSearch.hit :=
  VectorSearch.Hit "entity_MIN001" ∅ "Entity: Ministry of Digital. Type: Ministry"
    (1 # 4) (3 # 4).


Definition renamed_row : EntityRow.t :=
  EntityRow.Make "MIN001" (Some "Ministry of Digital Economy") (Some "Ministry")
    None (Some "Lead digital transformation") (Some "MyDIGITAL|AI Roadmap")
    (Some "Federal") None None.

Definition first_index : gmap string Chroma.document :=
  match VectorSearch.index_entities (λ _, "2025-01-01T00:00:00") [sample_row] ∅ with
  | Ok c => c
  | Raise _ => ∅
  end.



(** ** Growth of the graph

    What an import may do to a graph that already holds data. *)

Module Growth.
Import Identity.

(** [g'] holds every node and edge of [g] at the position it had, with
    the label, identity key, end points and type it had; what [g'] has
    in addition are nodes labelled from [labels] and edges typed from
    [types]. *)
Definition extends_with (labels types : list string) (g g' : graph) : Prop :=
  ∃ ns es,
    (skeleton g').1 = app (skeleton g).1 ns
    ∧ (skeleton g').2 = app (skeleton g).2 es
    ∧ (∀ x, x ∈ ns → x.1 ∈ labels)
    ∧ (∀ t, t ∈ es → t.1.2 ∈ types).

(** No two nodes share label and identity key, no two edges share
    source, type and target. *)
Definition unique_identities (g : graph) : Prop :=
  NoDup (skeleton g).1 ∧ NoDup (skeleton g).2.

End Growth.

(** ** neo4j_knowledge_graph.py: the statistics query *)

Module KGQuery.
Import Cypher.

(** The record [entities, people, companies, policies, relationships]. *)
Record statistics := Statistics {
  entities : nat;
  people : nat;
  companies : nat;
  policies : nat;
  relationships : nat
}.

(** [MATCH (x:l)]: the ids of the nodes labelled [l]. *)
Definition match_label (l : string) (g : graph) : list nat :=
  find_all (λ n, bool_decide (nlabel n = l)) (nodes g) 0.

(** [MATCH pattern WITH carried, count(x) AS c] after earlier clauses:
    the pattern is matched once for every incoming row, the matched
    rows are grouped on the carried columns and counted.  A group only
    exists for matched rows: an incoming row without a match is gone. *)
Definition with_count {K A} `{EqDecision K} (rows : list K) (found : list A)
  : list (K * nat) :=
  let matched := list_prod rows found in
  map (λ k, (k, length (filter (λ ka : K * A, ka.1 = k) matched)))
      (remove_dups matched.*1).

(** [get_graph_statistics].  The first clause aggregates without a
    grouping column and yields one row whatever the graph holds; the
    four clauses after it carry the counts so far.  [result.single()]
    is the first record, or [None] when there is none, on which [dict]
    raises ([None] here). *)
Definition get_graph_statistics (g : graph) : option statistics :=
  let r1 := [length (match_label "Entity" g)] in
  let r2 := with_count r1 (match_label "Person" g) in
  let r3 := with_count r2 (match_label "Company" g) in
  let r4 := with_count r3 (match_label "Policy" g) in
  let r5 := with_count r4 (rels g) in
  match r5 with
  | [] => None
  | (e, p, c, pol, r) :: _ => Some (Statistics e p c pol r)
  end.

(** A record of [get_mydigital_ecosystem]. *)
Record ecosystem := Ecosystem {
  eco_entity : value;
  eco_type : value;
  key_people : nat;
  partners : nat;
  total_partnerships : nat
}.

Definition has_label (g : graph) (l : string) (i : nat) : bool :=
  bool_decide (nlabel <$> nodes g !! i = Some l).

(** [(x:l)-[:ty]->(b)] for a bound node [b]: the nodes [x], one for
    every relationship that matches. *)
Definition sources (g : graph) (l ty : string) (b : nat) : list nat :=
  omap (λ r, if has_label g l (rsrc r) && bool_decide (rtype r = ty)
                && bool_decide (rdst r = b)
             then Some (rsrc r) else None)
       (rels g).

(** [MATCH (e:Entity)-[:ALIGNED_TO]->(p:Policy {name: policy})]: the
    entities [e], one for every relationship that matches. *)
Definition aligned_to (g : graph) (policy : string) : list nat :=
  omap (λ r, if has_label g "Entity" (rsrc r)
                && bool_decide (rtype r = "ALIGNED_TO")
                && bool_decide (rdst r ∈ match_node "Policy" "name" policy g)
             then Some (rsrc r) else None)
       (rels g).

(** [OPTIONAL MATCH]: the matches, or one row that binds null. *)
Definition optional {A} (l : list A) : list (option A) :=
  match l with
  | [] => [None]
  | _ => map Some l
  end.

(** The rows [(e, person, company)] after the three MATCH clauses:
    each clause extends every row of the one before it. *)
Definition ecosystem_matches (g : graph)
  : list (nat * option nat * option nat) :=
  flat_map (λ e,
    flat_map (λ person,
      map (λ company, (e, person, company))
          (optional (sources g "Company" "PARTNERS_WITH" e)))
      (optional (sources g "Person" "WORKS_FOR" e)))
    (aligned_to g "MyDIGITAL").

(** The grouping columns of RETURN: [e.name] and [e.entity_type]. *)
Definition eco_key (g : graph) (e : nat) : value * value :=
  let m := default ∅ (nprops <$> nodes g !! e) in
  (prop m "name", prop m "entity_type").

(** RETURN with its three aggregates, before ORDER BY:
    [count(DISTINCT x)] counts the different non-null values,
    [sum(CASE WHEN company IS NOT NULL THEN 1 ELSE 0 END)] the rows
    whose company is bound. *)
Definition ecosystem_groups (g : graph) : list ecosystem :=
  let rows := ecosystem_matches g in
  map (λ k,
         let grp := filter (λ row : nat * option nat * option nat,
                              eco_key g row.1.1 = k) rows in
         Ecosystem k.1 k.2
           (length (remove_dups
                      (omap (λ row : nat * option nat * option nat, row.1.2) grp)))
           (length (remove_dups
                      (omap (λ row : nat * option nat * option nat, row.2) grp)))
           (length (filter (λ row : nat * option nat * option nat,
                              is_Some row.2) grp)))
      (remove_dups (map (λ row : nat * option nat * option nat,
                           eco_key g row.1.1) rows)).

(** [ORDER BY key_people DESC, partners DESC]. *)
Definition eco_before (a b : ecosystem) : bool :=
  (key_people b <? key_people a)%nat
  || ((key_people b =? key_people a)%nat && (partners b <=? partners a)%nat).

(** What the statement allows as the result of
    [get_mydigital_ecosystem]. *)
Definition mydigital_ecosystem_rows (g : graph) (out : list ecosystem)
  : Prop :=
  out ≡ₚ ecosystem_groups g
  ∧ StronglySorted (λ a b, eco_before a b = true) out.

(** The rows an engine returns that leaves equal keys in the order of
    the groups. *)
Definition get_mydigital_ecosystem (g : graph) : list ecosystem :=
  Py.stable_sort eco_before (ecosystem_groups g).

(** A record of [get_key_people_for_entity]. *)
Record key_person := KeyPerson {
  kp_name : value;
  kp_title : value;
  kp_role : value;
  kp_focus : value;
  kp_email : value;
  kp_confidence : value
}.

(** [MATCH (p:Person)-[:WORKS_FOR]->(e:Entity {entity_id: $entity_id})
     RETURN p.name, ...]: one record for every relationship that
    matches. *)
Definition key_people_matches (entity_id : string) (g : graph)
  : list key_person :=
  omap (λ r,
          match nodes g !! rsrc r with
          | Some p =>
              if bool_decide (nlabel p = "Person")
                 && bool_decide (rtype r = "WORKS_FOR")
                 && bool_decide
                      (rdst r ∈ match_node "Entity" "entity_id" entity_id g)
              then Some (KeyPerson (prop (nprops p) "name")
                           (prop (nprops p) "title")
                           (prop (nprops p) "role_type")
                           (prop (nprops p) "focus_area")
                           (prop (nprops p) "email")
                           (prop (nprops p) "confidence_score"))
              else None
          | None => None
          end)
       (rels g).

(** [ORDER BY p.confidence_score DESC]: what the statement allows as
    the result of [get_key_people_for_entity].  The records come out in
    some order in which numbers never increase; where the engine puts
    the records whose score is NaN or null is not fixed here. *)
Definition get_key_people_for_entity (entity_id : string) (g : graph)
    (out : list key_person) : Prop :=
  out ≡ₚ key_people_matches entity_id g
  ∧ ∀ (i j : nat) a b qa qb,
      (i < j)%nat → out !! i = Some a → out !! j = Some b →
      kp_confidence a = VFloat (FNum qa) →
      kp_confidence b = VFloat (FNum qb) → (qb <= qa)%Q.

(** A record of [get_partners_for_entity]. *)
Record partnership := Partnership {
  pt_company : value;
  pt_relationship : value;
  pt_value : value;
  pt_year : value;
  pt_stage : value
}.

(** [MATCH (c:Company)-[r:PARTNERS_WITH]->(e:Entity {entity_id:
     $entity_id}) RETURN c.name, r.relationship_type, ...]. *)
Definition partnership_matches (entity_id : string) (g : graph)
  : list partnership :=
  omap (λ r,
          match nodes g !! rsrc r with
          | Some c =>
              if bool_decide (nlabel c = "Company")
                 && bool_decide (rtype r = "PARTNERS_WITH")
                 && bool_decide
                      (rdst r ∈ match_node "Entity" "entity_id" entity_id g)
              then Some (Partnership (prop (nprops c) "name")
                           (prop (rprops r) "relationship_type")
                           (prop (rprops r) "contract_value_rm")
                           (prop (rprops r) "contract_year")
                           (prop (rprops r) "procurement_stage"))
              else None
          | None => None
          end)
       (rels g).

(** [ORDER BY r.contract_value_rm DESC]: what the statement allows as
    the result of [get_partners_for_entity]; integers never increase,
    the place of records without an integer value is not fixed here. *)
Definition get_partners_for_entity (entity_id : string) (g : graph)
    (out : list partnership) : Prop :=
  out ≡ₚ partnership_matches entity_id g
  ∧ ∀ (i j : nat) a b za zb,
      (i < j)%nat → out !! i = Some a → out !! j = Some b →
      pt_value a = VInt za → pt_value b = VInt zb → (zb ≤ za)%Z.

End KGQuery.

(** ** data_pipeline.py: [_clean_entities]

    A raw entity row: as [EntityRow.t], with an identity cell that may
    be missing. *)

Module RawEntityRow.
Record t := Make {
  entity_id : option string;
  name : option string;
  entity_type : option string;
  parent_org : option string;
  mandate : option string;
  policy_alignment : option string;
  state : option string;
  latitude : option pyfloat;
  longitude : option pyfloat
}.
End RawEntityRow.

Module PyStr.

(** [str.replace(old, new)] for a non-empty [old] of any length: the
    occurrences are found from the left and do not overlap.  [skip] is
    the number of characters of the occurrence just replaced that are
    still to be passed over. *)
Fixpoint replace_from (old new : string) (skip : nat) (s : string) : string :=
  match s with
  | EmptyString => EmptyString
  | String a s' =>
      match skip with
      | S k => replace_from old new k s'
      | O =>
          if String.prefix old s
          then new ++ replace_from old new (String.length old - 1) s'
          else String a (replace_from old new 0 s')
      end
  end.

Definition replace (old new s : string) : string := replace_from old new 0 s.

End PyStr.

Module PipelineEntities.

Definition _clean_entities (df : list RawEntityRow.t) : list EntityRow.t :=
  (* Remove duplicates *)
  let df := Pandas.drop_duplicates RawEntityRow.entity_id df in
  (* Standardize text fields, handle missing mandates, standardize the
     policy alignment format *)
  let df := map (λ e,
      RawEntityRow.Make (RawEntityRow.entity_id e)
        (Py.strip <$> RawEntityRow.name e)
        (Py.strip <$> RawEntityRow.entity_type e)
        (RawEntityRow.parent_org e)
        (Some (default "No mandate specified" (RawEntityRow.mandate e)))
        ((λ s, PyStr.replace "  " " " (PyStr.replace "," "|" s))
           <$> RawEntityRow.policy_alignment e)
        (RawEntityRow.state e)
        (RawEntityRow.latitude e)
        (RawEntityRow.longitude e)) df in
  (* Remove records with missing critical fields *)
  omap (λ e,
      match RawEntityRow.name e, RawEntityRow.entity_id e with
      | Some _, Some eid =>
          Some (EntityRow.Make eid (RawEntityRow.name e)
                  (RawEntityRow.entity_type e) (RawEntityRow.parent_org e)
                  (RawEntityRow.mandate e) (RawEntityRow.policy_alignment e)
                  (RawEntityRow.state e) (RawEntityRow.latitude e)
                  (RawEntityRow.longitude e))
      | _, _ => None
      end) df.

End PipelineEntities.

(** ** vector_search_system.py: partners, statistics and similar
       entities *)

Module VectorIndex.
Import VectorSearch.






(** The dictionary of [get_statistics]. *)
Record index_statistics := IndexStatistics {
  st_entities : nat;
  st_people : nat;
  st_partners : nat;
  st_total : nat
}.

Definition get_statistics
    (entities_collection people_collection partners_collection
       : Chroma.collection) : index_statistics :=
  IndexStatistics (Chroma.count entities_collection)
    (Chroma.count people_collection)
    (Chroma.count partners_collection)
    (Chroma.count entities_collection + Chroma.count people_collection
     + Chroma.count partners_collection).

(** [AdvancedSearch.find_similar_entities]; [query text n] is
    [self._format_results(self.entities_collection.query(
       query_texts=[text], n_results=n))]. *)
Definition find_similar_entities (query : string → nat → list hit)
    (entities_collection : Chroma.collection) (entity_id : string)
    (n_results : nat) : list hit :=
  match entities_collection !! ("entity_" ++ entity_id) with
  | None => []
  | Some entity =>
      let formatted := query (Chroma.doc_text entity) (n_results + 1)%nat in
      filter (λ r, hit_id r ≠ "entity_" ++ entity_id) formatted
  end.

End VectorIndex.

(** ** neo4j_connector.py: the counts of [get_graph_statistics] *)

Module ConnectorStats.
Import Cypher Connector.

(** The dictionary [stats]. *)
Record statistics := Statistics {
  total_nodes : nat;
  total_relationships : nat;
  node_types : gmap string nat;
  relationship_types : gmap string nat;
  most_connected : list connected
}.

(** [limit_clause]: [None] and [0] are falsy and give no clause;
    [LIMIT k] keeps the first [k] rows. *)
Definition limit_clause {A} (limit : option nat) (rows : list A) : list A :=
  match limit with
  | Some (S k) => take (S k) rows
  | _ => rows
  end.

(** [MATCH (n) label_filter]: the nodes that pass the filter. *)
Definition matched_nodes (filter_labels : list string) (g : graph)
  : list node :=
  filter (λ n, label_filter filter_labels n = true) (nodes g).

(** [MATCH (n)-[r]->() label_filter]: the relationships whose start
    node passes the filter. *)
Definition matched_rels (filter_labels : list string) (g : graph)
  : list rel :=
  filter (λ r, (label_filter filter_labels <$> nodes g !! rsrc r) = Some true)
         (rels g).

(** [RETURN key AS type, count(x) AS count]: one row for every value
    of the grouping column. *)
Definition count_by {A} (key : A → string) (l : list A)
  : list (string * nat) :=
  map (λ k, (k, length (filter (λ x, key x = k) l)))
      (remove_dups (map key l)).

(** [get_graph_statistics].  [.single()['count']] needs a record
    ([None] here when there is none). *)
Definition get_graph_statistics (filter_labels : list string)
    (limit : option nat) (g : graph) : option statistics :=
  match head (limit_clause limit [length (matched_nodes filter_labels g)]),
        head (limit_clause limit [length (matched_rels filter_labels g)]) with
  | Some total_nodes, Some total_relationships =>
      Some (Statistics total_nodes total_relationships
              (list_to_map
                 (filter (λ record : string * nat, record.1 ≠ "")
                         (count_by nlabel (matched_nodes filter_labels g))))
              (list_to_map (count_by rtype (matched_rels filter_labels g)))
              (Connector.most_connected filter_labels g))
  | _, _ => None
  end.

(** The sum of the values of a dictionary. *)
Definition total (m : gmap string nat) : nat :=
  map_fold (λ _ v acc, (v + acc)%nat) 0%nat m.

End ConnectorStats.

(** ** A cleaned frame as input

    Auxiliary definitions for the statements about running the
    cleaning phase on its own output: a cleaned row read as a raw row
    again.  Its identity cells are present and its numeric cells are
    numbers or missing. *)

Module Reread.

Definition num (f : pyfloat) : raw_num :=
  match f with
  | FNum q => Numeric q
  | FNaN => MissingNum
  end.

Definition person (r : PersonRow.t string) : PersonRow.t (option string) :=
  PersonRow.Make (Some (PersonRow.person_id r)) (PersonRow.name r)
    (PersonRow.title r) (Some (PersonRow.entity_id r)) (PersonRow.role_type r)
    (PersonRow.focus_area r) (PersonRow.confidence_score r)
    (PersonRow.source r) (PersonRow.email r).

Definition partner (r : PartnerRow.t string pyfloat)
  : PartnerRow.t (option string) raw_num :=
  PartnerRow.Make (Some (PartnerRow.partner_id r)) (PartnerRow.company_name r)
    (Some (PartnerRow.entity_id r)) (PartnerRow.relationship_type r)
    (num (PartnerRow.contract_value_rm r)) (num (PartnerRow.contract_year r))
    (PartnerRow.focus_area r) (PartnerRow.procurement_stage r).

Definition entity (r : EntityRow.t) : RawEntityRow.t :=
  RawEntityRow.Make (Some (EntityRow.entity_id r)) (EntityRow.name r)
    (EntityRow.entity_type r) (EntityRow.parent_org r) (EntityRow.mandate r)
    (EntityRow.policy_alignment r) (EntityRow.state r) (EntityRow.latitude r)
    (EntityRow.longitude r).

End Reread.

(** ** Sample data for the queries *)

(** The sample ministry with two people and one partner. *)
Definition ecosystem_graph : graph :=
  w_graph (KG.import_partners (λ k, Z.of_nat k)
             (Pipeline._clean_partners 2026 [raw_partner_row])
             (KG.import_people (λ k, Z.of_nat k)
                (Pipeline._clean_people raw_people) sample_world)).


(** An entity whose policy alignment has a run of four spaces. *)
Definition spaced_entity_row : RawEntityRow.t :=
  RawEntityRow.Make (Some "AGN001") (Some "MDEC") (Some "Agency")
    (Some "MIN001") None (Some "MyDIGITAL|Digital    Economy Blueprint")
    (Some "Federal") None None.

(** An entity whose policy alignment is separated by a comma. *)
Definition comma_entity_row : RawEntityRow.t :=
  RawEntityRow.Make (Some "MIN001") (Some "Ministry of Digital")
    (Some "Ministry") None None (Some "MyDIGITAL, AI Roadmap")
    (Some "Federal") None None.

(** The sample ministry with the two cleaned people. *)
Definition people_graph : graph :=
  w_graph (KG.import_people (λ k, Z.of_nat k)
             (Pipeline._clean_people raw_people) sample_world).

(** * Properties *)

Local Open Scope list_scope.
Local Open Scope nat_scope.

(** * Lists: positions, merge and add-if-absent *)

Section FindAll.
Context {A : Type}.
Implicit Types (P Q : A → bool) (l : list A).
Import Cypher.

Lemma find_all_app P l1 l2 i :
  find_all P (l1 ++ l2) i
  = find_all P l1 i ++ find_all P l2 (i + length l1).
Proof.
  revert i. induction l1 as [|x l1 IH]; intros i; simpl.
  - by rewrite Nat.add_0_r.
  - rewrite IH, <- app_assoc. do 3 f_equal. lia.
Qed.

Lemma find_all_none P l i :
  (∀ x, x ∈ l → P x = false) → find_all P l i = [].
Proof.
  revert i. induction l as [|x l IH]; intros i H; simpl; [done|].
  rewrite (H x) by set_solver. simpl. apply IH. intros; apply H; set_solver.
Qed.

Lemma find_all_ext P Q l i :
  (∀ x, x ∈ l → P x = Q x) → find_all P l i = find_all Q l i.
Proof.
  revert i. induction l as [|x l IH]; intros i H; simpl; [done|].
  rewrite (H x) by set_solver. f_equal. apply IH. intros; apply H; set_solver.
Qed.

Lemma elem_of_find_all P l i j :
  j ∈ find_all P l i ↔ ∃ x, i ≤ j ∧ l !! (j - i) = Some x ∧ P x = true.
Proof.
  revert i. induction l as [|x l IH]; intros i; simpl.
  - split; [by intros ?%elem_of_nil | by intros (?&?&?&?)].
  - rewrite elem_of_app, IH. split.
    + intros [H|(y&?&Hy&?)].
      * destruct (P x) eqn:E; [|by apply elem_of_nil in H].
        apply list_elem_of_singleton in H as ->. exists x.
        by rewrite Nat.sub_diag.
      * exists y. split; [lia|]. split; [|done].
        replace (j - i) with (S (j - S i)) by lia. done.
    + intros (y&Hle&Hy&HP).
      destruct (decide (j = i)) as [->|Hne].
      * rewrite Nat.sub_diag in Hy. simpl in Hy. injection Hy as ->.
        left. rewrite HP. set_solver.
      * right. exists y. split; [lia|]. split; [|done].
        replace (j - i) with (S (j - S i)) in Hy by lia. done.
Qed.

Lemma elem_of_find_all_0 P l j :
  j ∈ find_all P l 0 ↔ ∃ x, l !! j = Some x ∧ P x = true.
Proof.
  rewrite elem_of_find_all. setoid_rewrite Nat.sub_0_r.
  split; [intros (x&?&?&?) | intros (x&?&?)]; exists x; auto with lia.
Qed.

Lemma find_all_nil_iff P l i :
  find_all P l i = [] ↔ ∀ x, x ∈ l → P x = false.
Proof.
  split; [|apply find_all_none].
  revert i. induction l as [|x l IH]; intros i H y Hy.
  { by apply elem_of_nil in Hy. }
  simpl in H. apply app_eq_nil in H as [H1 H2].
  apply elem_of_cons in Hy as [Heq|Hy]; [|by eapply IH].
  rewrite Heq. by destruct (P x).
Qed.

End FindAll.

Lemma find_all_map {A B} (f : A → B) (Q : B → bool) (l : list A) i :
  Cypher.find_all Q (map f l) i = Cypher.find_all (λ x, Q (f x)) l i.
Proof. revert i. induction l as [|x l IH]; intros i; simpl; [done|]. by rewrite IH. Qed.

Section MergeSet.
Context {A V : Type} `{EqDecision V}.
Import Cypher Identity.

Lemma existsb_elem_of (P : A → bool) (l : list A) :
  existsb P l = true ↔ ∃ x, x ∈ l ∧ P x = true.
Proof.
  rewrite existsb_exists. by setoid_rewrite list_elem_of_In.
Qed.

(** On identities, MERGE-and-SET is add-if-absent. *)
Lemma merge_set_view (view : A → V) (P : A → bool) new f l v0 :
  (∀ x, P x = bool_decide (view x = v0)) →
  (∀ x, P x = true → view (f x) = view x) →
  view (f new) = v0 →
  map view (merge_set P new f l) = add_absent (map view l) v0.
Proof.
  intros HP Hf Hnew. unfold merge_set, add_absent.
  destruct (existsb P l) eqn:E.
  - apply existsb_elem_of in E as (x&Hx&HPx).
    rewrite decide_True.
    2:{ apply list_elem_of_fmap. exists x. split; [|done].
        rewrite HP in HPx. by apply bool_decide_eq_true in HPx. }
    rewrite map_map. apply map_ext. intros y.
    destruct (P y) eqn:Ey; [by apply Hf | done].
  - rewrite decide_False.
    2:{ intros (x&Hx&Hin)%list_elem_of_fmap.
        assert (existsb P l = true) as E'; [|congruence].
        apply existsb_elem_of. exists x. split; [done|].
        rewrite HP. by apply bool_decide_eq_true. }
    by rewrite map_app; simpl; rewrite Hnew.
Qed.

(** After the merge the pattern is matched. *)
Lemma merge_set_matched (P : A → bool) new f l :
  (∀ x, P x = true → P (f x) = true) → P (f new) = true →
  ∃ x, x ∈ merge_set P new f l ∧ P x = true.
Proof.
  intros Hf Hnew. unfold merge_set. destruct (existsb P l) eqn:E.
  - apply existsb_elem_of in E as (x&Hx&HPx). exists (f x). split; [|auto].
    apply list_elem_of_fmap. exists x. by rewrite HPx.
  - exists (f new). split; [|done]. set_solver.
Qed.

(** Where every element of the result comes from. *)
Lemma elem_of_merge_set (P : A → bool) new f l y :
  y ∈ merge_set P new f l →
  (y ∈ l ∧ P y = false) ∨ (∃ x, x ∈ l ∧ P x = true ∧ y = f x)
  ∨ (y = f new ∧ ∀ x, x ∈ l → P x = false).
Proof.
  unfold merge_set. destruct (existsb P l) eqn:E.
  - intros (x&->&Hx)%list_elem_of_fmap. destruct (P x) eqn:Ex; eauto 6.
  - intros [Hy|Hy%list_elem_of_singleton]%elem_of_app.
    + left. split; [done|]. destruct (P y) eqn:Ey; [|done].
      assert (existsb P l = true) as E'; [|congruence].
      apply existsb_elem_of. eauto.
    + right; right. split; [done|]. intros x Hx.
      destruct (P x) eqn:Ex; [|done].
      assert (existsb P l = true) as E'; [|congruence].
      apply existsb_elem_of. eauto.
Qed.

End MergeSet.

Section Adds.
Context {A : Type} `{EqDecision A}.
Implicit Types (l xs : list A).
Import Identity.

Lemma add_absent_elem l x y : y ∈ add_absent l x ↔ y ∈ l ∨ y = x.
Proof.
  unfold add_absent. case_decide; set_solver.
Qed.

Lemma elem_of_adds l xs y : y ∈ adds l xs ↔ y ∈ l ∨ y ∈ xs.
Proof.
  unfold adds. revert l. induction xs as [|x xs IH]; intros l; simpl.
  - set_solver.
  - rewrite IH, add_absent_elem. set_solver.
Qed.

Lemma adds_id l xs : (∀ x, x ∈ xs → x ∈ l) → adds l xs = l.
Proof.
  unfold adds. induction xs as [|x xs IH]; intros H; simpl; [done|].
  unfold add_absent at 2. rewrite decide_True by (apply H; set_solver).
  apply IH. intros; apply H; set_solver.
Qed.

Lemma adds_app l xs ys : adds l (xs ++ ys) = adds (adds l xs) ys.
Proof. apply foldl_app. Qed.

(** [adds] only appends, and only elements of [xs]. *)
Lemma adds_extends l xs :
  ∃ e, adds l xs = l ++ e ∧ ∀ x, x ∈ e → x ∈ xs.
Proof.
  unfold adds. revert l. induction xs as [|x xs IH]; intros l; simpl.
  - exists []. by rewrite app_nil_r.
  - destruct (IH (add_absent l x)) as (e&He&Hin). rewrite He.
    unfold add_absent. case_decide.
    + exists e. split; [done|]. intros; set_solver.
    + exists (x :: e). rewrite <- app_assoc. split; [done|].
      intros y [->|?]%elem_of_cons; set_solver.
Qed.

Lemma adds_twice l xs : adds (adds l xs) xs = adds l xs.
Proof. apply adds_id. intros x Hx. apply elem_of_adds. auto. Qed.

End Adds.

Section IdentityOfStatements.
Import Cypher Identity.

Lemma set_props_lookup_ne kvs (m : gmap string value) k :
  k ∉ kvs.*1 → set_props kvs m !! k = m !! k.
Proof.
  unfold set_props. revert m. induction kvs as [|[k' v] kvs IH]; intros m Hk; [done|].
  simpl in *. apply not_elem_of_cons in Hk as [Hne Hk].
  rewrite IH by done. unfold set_prop. simpl.
  destruct v; by rewrite ?lookup_delete_ne, ?lookup_insert_ne.
Qed.

Lemma node_has_identity l v n :
  node_has l (key_of l) v n = bool_decide (node_identity n = ident l v).
Proof.
  unfold node_has, node_identity, ident.
  destruct (decide (nlabel n = l)) as [<-|Hne].
  - rewrite bool_decide_eq_true_2 by done. simpl.
    apply bool_decide_ext. split; [by intros ->|congruence].
  - rewrite (bool_decide_eq_false_2 (nlabel n = l)) by done. simpl.
    symmetry. apply bool_decide_eq_false_2. congruence.
Qed.

Lemma node_has_label l k v n : node_has l k v n = true → nlabel n = l.
Proof.
  unfold node_has. intros [H _]%andb_true_iff. by apply bool_decide_eq_true in H.
Qed.

Lemma node_has_prop l k v n :
  node_has l k v n = true → nprops n !! k = Some (VStr v).
Proof.
  unfold node_has. intros [_ H]%andb_true_iff. by apply bool_decide_eq_true in H.
Qed.

Lemma node_has_intro l k v n :
  nlabel n = l → nprops n !! k = Some (VStr v) → node_has l k v n = true.
Proof.
  intros. unfold node_has. by rewrite !bool_decide_eq_true_2.
Qed.

Lemma rel_is_identity i ty j r :
  rel_is i ty j r = bool_decide (rel_identity r = (i, ty, j)).
Proof.
  unfold rel_is, rel_identity.
  destruct (decide (rsrc r = i)), (decide (rtype r = ty)), (decide (rdst r = j));
    repeat (first [rewrite bool_decide_eq_true_2 by congruence
                  |rewrite bool_decide_eq_false_2 by congruence]); done.
Qed.

Lemma merge_node_row_identity l ns row :
  key_of l ∉ row.2.*1 →
  map node_identity (merge_node_row l (key_of l) ns row)
  = add_absent (map node_identity ns) (ident l row.1).
Proof.
  intros Hk. unfold merge_node_row. apply merge_set_view.
  - intros x. apply node_has_identity.
  - intros x Hx. apply node_has_label in Hx. unfold node_identity. simpl.
    rewrite Hx. by rewrite set_props_lookup_ne.
  - unfold node_identity, ident. simpl.
    by rewrite set_props_lookup_ne, lookup_singleton_eq.
Qed.

Lemma merge_nodes_identity l rows g :
  (∀ row, row ∈ rows → key_of l ∉ row.2.*1) →
  map node_identity (nodes (merge_nodes l (key_of l) rows g))
  = adds (map node_identity (nodes g)) (map (λ row, ident l row.1) rows).
Proof.
  unfold merge_nodes, adds. simpl. generalize (nodes g).
  induction rows as [|row rows IH]; intros ns H; simpl; [done|].
  rewrite IH by (intros; apply H; set_solver).
  by rewrite merge_node_row_identity by (apply H; set_solver).
Qed.

Lemma merge_rel_pair_identity ty kvs rs ij :
  map rel_identity (merge_rel_pair ty kvs rs ij)
  = add_absent (map rel_identity rs) (ij.1, ty, ij.2).
Proof.
  unfold merge_rel_pair. apply merge_set_view.
  - intros x. apply rel_is_identity.
  - done.
  - done.
Qed.

Lemma bound_pairs_identity l1 l2 ns row :
  bound_pairs l1 (key_of l1) l2 (key_of l2) ns row
  = list_prod
      (find_all (λ x, bool_decide (x = ident l1 row.1.1)) (map node_identity ns) 0)
      (find_all (λ x, bool_decide (x = ident l2 row.1.2)) (map node_identity ns) 0).
Proof.
  unfold bound_pairs. rewrite !find_all_map.
  f_equal; apply find_all_ext; intros; apply node_has_identity.
Qed.

Lemma merge_rel_row_identity l1 l2 ty ns rs row :
  map rel_identity (merge_rel_row l1 (key_of l1) l2 (key_of l2) ty ns rs row)
  = adds (map rel_identity rs)
      (triples ty l1 l2 (map node_identity ns) [row.1]).
Proof.
  unfold merge_rel_row, triples. simpl. rewrite app_nil_r.
  rewrite <- bound_pairs_identity.
  generalize (bound_pairs l1 (key_of l1) l2 (key_of l2) ns row).
  intros ps. revert rs. unfold adds.
  induction ps as [|ij ps IH]; intros rs; simpl; [done|].
  by rewrite IH, merge_rel_pair_identity.
Qed.

Lemma triples_cons ty l1 l2 ids ab pairs :
  triples ty l1 l2 ids (ab :: pairs)
  = triples ty l1 l2 ids [ab] ++ triples ty l1 l2 ids pairs.
Proof. unfold triples. simpl. by rewrite app_nil_r. Qed.

Lemma merge_rels_identity l1 l2 ty rows g :
  map rel_identity (rels (merge_rels l1 (key_of l1) l2 (key_of l2) ty rows g))
  = adds (map rel_identity (rels g))
      (triples ty l1 l2 (map node_identity (nodes g)) rows.*1).
Proof.
  unfold merge_rels. simpl. generalize (rels g).
  induction rows as [|row rows IH]; intros rs; [done|].
  cbn [foldl]. rewrite IH, merge_rel_row_identity.
  rewrite fmap_cons, (triples_cons ty l1 l2 _ row.1 rows.*1), adds_app. done.
Qed.

Lemma merge_nodes_skeleton l rows g :
  (∀ row, row ∈ rows → key_of l ∉ row.2.*1) →
  skeleton (merge_nodes l (key_of l) rows g)
  = node_phase l rows.*1 (skeleton g).
Proof.
  intros H. unfold skeleton, node_phase.
  rewrite (merge_nodes_identity l rows g H). simpl.
  do 2 f_equal. by rewrite map_map.
Qed.

Lemma merge_rels_skeleton l1 l2 ty rows g :
  skeleton (merge_rels l1 (key_of l1) l2 (key_of l2) ty rows g)
  = rel_phase ty l1 l2 rows.*1 (skeleton g).
Proof.
  unfold skeleton, rel_phase. simpl. f_equal. apply merge_rels_identity.
Qed.

End IdentityOfStatements.

Section Phases.
Import Cypher Identity.
Implicit Types (s : list (string * option value) * list (nat * string * nat)).

Lemma find_all_ident_app (ids e : list (string * option value)) x :
  x ∉ e →
  find_all (λ y, bool_decide (y = x)) (ids ++ e) 0
  = find_all (λ y, bool_decide (y = x)) ids 0.
Proof.
  intros Hx. rewrite find_all_app, (find_all_none _ e), app_nil_r; [done|].
  intros y Hy. apply bool_decide_eq_false_2. by intros ->.
Qed.




Lemma node_phase_keys l keys s k :
  k ∈ keys → ident l k ∈ (node_phase l keys s).1.
Proof.
  intros Hk. unfold node_phase. simpl. apply elem_of_adds. right.
  apply list_elem_of_fmap. eauto.
Qed.

Lemma node_phase_mono l keys s x : x ∈ s.1 → x ∈ (node_phase l keys s).1.
Proof. intros. unfold node_phase. simpl. apply elem_of_adds. auto. Qed.

Lemma node_phase_extends l keys s :
  ∃ e, (node_phase l keys s).1 = s.1 ++ e ∧ ∀ x, x ∈ e → x.1 = l.
Proof.
  unfold node_phase. simpl.
  destruct (adds_extends s.1 (map (ident l) keys)) as (e&He&Hin).
  exists e. split; [done|]. intros x Hx.
  by apply Hin, list_elem_of_fmap in Hx as (k&->&_).
Qed.


Lemma rel_phase_triples ty l1 l2 pairs s t :
  t ∈ triples ty l1 l2 s.1 pairs → t ∈ (rel_phase ty l1 l2 pairs s).2.
Proof. intros. unfold rel_phase. simpl. apply elem_of_adds. auto. Qed.



End Phases.

Section ImportSkeleton.
Import Cypher Identity KG.

Lemma not_in_keys (k : string) (ks : list string) :
  bool_decide (k ∈ ks) = false → k ∉ ks.
Proof. by intros H%bool_decide_eq_false. Qed.

Lemma fmap_fst_map {A B C} (f : A → B) (h : A → C) (l : list A) :
  (map (λ x, (f x, h x)) l).*1 = map f l.
Proof. induction l as [|x l IH]; [done|]. simpl. f_equal. exact IH. Qed.

Lemma hierarchy_pairs_time t t' rows :
  (hierarchy_relationships t rows).*1 = (hierarchy_relationships t' rows).*1.
Proof.
  unfold hierarchy_relationships.
  induction rows as [|e rows IH]; [done|]. simpl.
  destruct (EntityRow.parent_org e); simpl; [|done]. f_equal. exact IH.
Qed.

Lemma alignments_pairs_time t t' rows :
  (alignments t rows).*1 = (alignments t' rows).*1.
Proof.
  unfold alignments.
  induction rows as [|e rows IH]; [done|]. cbn [flat_map].
  rewrite !fmap_app, IH. f_equal.
  destruct (EntityRow.policy_alignment e); [|done].
  change (map ?f ?l) with (f <$> l). by rewrite <- !list_fmap_compose.
Qed.

Lemma create_entity_hierarchy_skeleton t rows w :
  skeleton (w_graph (_create_entity_hierarchy t rows w))
  = rel_phase "REPORTS_TO" "Entity" "Entity"
      (hierarchy_relationships 0 rows).*1 (skeleton (w_graph w)).
Proof.
  unfold _create_entity_hierarchy.
  rewrite (hierarchy_pairs_time 0 t).
  destruct (hierarchy_relationships t rows) as [|r rs] eqn:E.
  - simpl. by destruct (skeleton (w_graph w)).
  - cbn [w_graph log run].
    apply (merge_rels_skeleton "Entity" "Entity").
Qed.

Lemma create_policy_alignments_skeleton t1 t2 rows w :
  skeleton (w_graph (_create_policy_alignments t1 t2 rows w))
  = rel_phase "ALIGNED_TO" "Entity" "Policy" (alignments 0 rows).*1
      (node_phase "Policy" (elements (all_policies rows))
         (skeleton (w_graph w))).
Proof.
  unfold _create_policy_alignments. cbn [w_graph log run].
  rewrite (merge_rels_skeleton "Entity" "Policy").
  rewrite (alignments_pairs_time t2 0). f_equal.
  rewrite (merge_nodes_skeleton "Policy").
  - f_equal. unfold policy_rows. rewrite fmap_fst_map. apply map_id.
  - intros row (p&->&_)%list_elem_of_fmap. by apply not_in_keys.
Qed.

Lemma import_entities_skeleton clk rows w :
  skeleton (w_graph (import_entities clk rows w))
  = rel_phase "ALIGNED_TO" "Entity" "Policy" (alignments 0 rows).*1
      (node_phase "Policy" (elements (all_policies rows))
         (rel_phase "REPORTS_TO" "Entity" "Entity"
            (hierarchy_relationships 0 rows).*1
            (node_phase "Entity" (map EntityRow.entity_id rows)
               (skeleton (w_graph w))))).
Proof.
  unfold import_entities.
  rewrite create_policy_alignments_skeleton, create_entity_hierarchy_skeleton.
  cbn [w_graph log run].
  rewrite (merge_nodes_skeleton "Entity").
  - unfold entity_rows. by rewrite fmap_fst_map.
  - intros row (p&->&_)%list_elem_of_fmap. by apply not_in_keys.
Qed.

Lemma import_people_skeleton clk rows w :
  skeleton (w_graph (import_people clk rows w))
  = rel_phase "WORKS_FOR" "Person" "Entity"
      (map (λ p, (PersonRow.person_id p, PersonRow.entity_id p)) rows)
      (node_phase "Person" (map PersonRow.person_id rows)
         (skeleton (w_graph w))).
Proof.
  unfold import_people. cbn [w_graph log run].
  rewrite (merge_rels_skeleton "Person" "Entity").
  rewrite (merge_nodes_skeleton "Person").
  - unfold works_for_relationships, person_rows.
    by rewrite (fmap_fst_map (λ p, (PersonRow.person_id p, PersonRow.entity_id p))),
               fmap_fst_map.
  - intros row (p&->&_)%list_elem_of_fmap. by apply not_in_keys.
Qed.

Lemma import_partners_skeleton clk rows w :
  skeleton (w_graph (import_partners clk rows w))
  = rel_phase "PARTNERS_WITH" "Company" "Entity"
      (map (λ p, (PartnerRow.partner_id p, PartnerRow.entity_id p)) rows)
      (node_phase "Company" (map PartnerRow.partner_id rows)
         (skeleton (w_graph w))).
Proof.
  unfold import_partners. cbn [w_graph log run].
  rewrite (merge_rels_skeleton "Company" "Entity").
  rewrite (merge_nodes_skeleton "Company").
  - unfold partnership_relationships, company_rows.
    by rewrite (fmap_fst_map (λ p, (PartnerRow.partner_id p, PartnerRow.entity_id p))),
               fmap_fst_map.
  - intros row (p&->&_)%list_elem_of_fmap. by apply not_in_keys.
Qed.


End ImportSkeleton.


Section Existence.
Import Cypher Identity.
Implicit Types (s : list (string * option value) * list (nat * string * nat)).

Lemma match_node_skeleton l v g i :
  i ∈ match_node l (key_of l) v g ↔ (skeleton g).1 !! i = Some (ident l v).
Proof.
  unfold match_node, skeleton. simpl. rewrite elem_of_find_all_0.
  change (map node_identity (nodes g)) with (node_identity <$> nodes g).
  rewrite list_lookup_fmap. split.
  - intros (n&->&Hn). simpl.
    rewrite node_has_identity in Hn. apply bool_decide_eq_true_1 in Hn.
    by rewrite Hn.
  - destruct (nodes g !! i) as [n|]; [|done]. simpl. intros Hn%(inj Some).
    exists n. split; [done|]. rewrite node_has_identity.
    by apply bool_decide_eq_true.
Qed.

Lemma node_exists_skeleton l v g :
  node_exists l v g ↔ ident l v ∈ (skeleton g).1.
Proof.
  rewrite list_elem_of_lookup. setoid_rewrite <- match_node_skeleton.
  unfold node_exists, match_node. setoid_rewrite elem_of_find_all_0.
  split.
  - intros (i&n&?&?&?). exists i, n. split; [done|]. by apply node_has_intro.
  - intros (i&n&?&Hn). exists i, n. split; [done|].
    split; [by eapply node_has_label | by eapply node_has_prop].
Qed.

Lemma edge_exists_skeleton l1 a ty l2 b g :
  edge_exists l1 a ty l2 b g ↔
  ∃ i j, (skeleton g).1 !! i = Some (ident l1 a)
         ∧ (skeleton g).1 !! j = Some (ident l2 b)
         ∧ (i, ty, j) ∈ (skeleton g).2.
Proof.
  unfold edge_exists. setoid_rewrite match_node_skeleton.
  split.
  - intros (i&j&r&Hi&Hj&Hr&<-&<-&<-). exists (rsrc r), (rdst r).
    split; [done|]. split; [done|].
    apply (list_elem_of_fmap_2 rel_identity) in Hr. exact Hr.
  - intros (i&j&?&?&(r&[= -> -> ->]&?)%list_elem_of_fmap).
    by exists (rsrc r), (rdst r), r.
Qed.

Lemma elem_of_triples ty l1 l2 ids pairs t :
  t ∈ triples ty l1 l2 ids pairs ↔
  ∃ a b i j, (a, b) ∈ pairs ∧ ids !! i = Some (ident l1 a)
             ∧ ids !! j = Some (ident l2 b) ∧ t = (i, ty, j).
Proof.
  unfold triples. rewrite list_elem_of_In, in_flat_map.
  setoid_rewrite <- list_elem_of_In. split.
  - intros ([a b]&Hab&([i j]&->&Hij)%list_elem_of_fmap). simpl in *.
    apply list_elem_of_In, in_prod_iff in Hij as [Hi Hj].
    apply list_elem_of_In, elem_of_find_all_0 in Hi as (x&Hx&->%bool_decide_eq_true).
    apply list_elem_of_In, elem_of_find_all_0 in Hj as (y&Hy&->%bool_decide_eq_true).
    by exists a, b, i, j.
  - intros (a&b&i&j&Hab&Hi&Hj&->). exists (a, b). split; [done|].
    apply list_elem_of_fmap. exists (i, j). split; [done|]. simpl.
    apply list_elem_of_In, in_prod_iff.
    split; apply list_elem_of_In, elem_of_find_all_0; eexists;
      (split; [eassumption|by apply bool_decide_eq_true]).
Qed.

(** Uniqueness of identities is kept by both kinds of statement. *)
Lemma adds_NoDup {A} `{EqDecision A} (l xs : list A) :
  NoDup l → NoDup (adds l xs).
Proof.
  unfold adds. revert l. induction xs as [|x xs IH]; intros l Hl; [done|].
  simpl. apply IH. unfold add_absent. case_decide; [done|].
  apply NoDup_app. split; [done|]. split; [|apply NoDup_singleton].
  intros y Hy ->%list_elem_of_singleton. done.
Qed.

Lemma node_phase_NoDup l keys s :
  NoDup s.1 → NoDup (node_phase l keys s).1.
Proof. apply adds_NoDup. Qed.

Lemma rel_phase_NoDup ty l1 l2 pairs s :
  NoDup s.2 → NoDup (rel_phase ty l1 l2 pairs s).2.
Proof. apply adds_NoDup. Qed.

Lemma node_phase_lookup l keys s i x :
  s.1 !! i = Some x → (node_phase l keys s).1 !! i = Some x.
Proof.
  intros H. destruct (node_phase_extends l keys s) as (e&->&_).
  by apply lookup_app_l_Some.
Qed.

Lemma node_phase_elem l keys s x :
  x ∈ (node_phase l keys s).1 ↔ x ∈ s.1 ∨ ∃ k, k ∈ keys ∧ x = ident l k.
Proof.
  unfold node_phase. simpl. rewrite elem_of_adds, list_elem_of_fmap.
  naive_solver.
Qed.

Lemma rel_phase_elem ty l1 l2 pairs s t :
  t ∈ (rel_phase ty l1 l2 pairs s).2 ↔
  t ∈ s.2 ∨ t ∈ triples ty l1 l2 s.1 pairs.
Proof. unfold rel_phase. simpl. apply elem_of_adds. Qed.

End Existence.

Section EntityBatch.
Import Cypher Identity KG.

Lemma elem_of_hierarchy_pairs t rows a b :
  (a, b) ∈ (hierarchy_relationships t rows).*1 ↔
  ∃ r, r ∈ rows ∧ a = EntityRow.entity_id r ∧ EntityRow.parent_org r = Some b.
Proof.
  unfold hierarchy_relationships. rewrite list_elem_of_fmap. split.
  - intros ([[a' b'] kvs]&[= -> ->]&(r&Hr&Hf)%list_elem_of_omap).
    exists r. destruct (EntityRow.parent_org r); [|done].
    injection Hf as -> ->. done.
  - intros (r&Hr&->&Hp). exists (EntityRow.entity_id r, b, [("created_at", VTime t)]).
    split; [done|]. apply list_elem_of_omap. exists r. by rewrite Hp.
Qed.

Lemma elem_of_alignment_pairs t rows a b :
  (a, b) ∈ (alignments t rows).*1 ↔
  ∃ r s, r ∈ rows ∧ a = EntityRow.entity_id r
         ∧ EntityRow.policy_alignment r = Some s ∧ b ∈ policy_tokens s.
Proof.
  unfold alignments. rewrite list_elem_of_fmap. split.
  - intros ([[a' b'] kvs]&[= -> ->]&Hin).
    apply list_elem_of_In, in_flat_map in Hin as (r&Hr%list_elem_of_In&Hin).
    destruct (EntityRow.policy_alignment r) as [s|] eqn:E; [|done].
    apply list_elem_of_In, list_elem_of_fmap in Hin as (tok&[= -> -> _]&Htok).
    by exists r, s.
  - intros (r&s&Hr&->&Hs&Hb).
    exists (EntityRow.entity_id r, b, [("created_at", VTime t)]).
    split; [done|]. apply list_elem_of_In, in_flat_map. exists r.
    split; [by apply list_elem_of_In|]. rewrite Hs.
    apply list_elem_of_In, list_elem_of_fmap. by exists b.
Qed.

Lemma elem_of_all_policies rows tok :
  tok ∈ all_policies rows ↔
  ∃ r s, r ∈ rows ∧ EntityRow.policy_alignment r = Some s
         ∧ tok ∈ policy_tokens s.
Proof.
  unfold all_policies.
  assert (∀ acc : gset string,
    tok ∈ foldl (λ (acc : gset string) e,
                   match EntityRow.policy_alignment e with
                   | Some s => acc ∪ list_to_set (policy_tokens s)
                   | None => acc
                   end) acc rows
    ↔ tok ∈ acc ∨ ∃ r s, r ∈ rows ∧ EntityRow.policy_alignment r = Some s
                         ∧ tok ∈ policy_tokens s) as H.
  { induction rows as [|e rows IH]; intros acc; simpl.
    - split; [auto|]. intros [?|(r&s&Hr&_)]; [done|]. by apply elem_of_nil in Hr.
    - rewrite IH. split.
      + intros [Hacc|(r&s&Hr&Hs&Ht)].
        * destruct (EntityRow.policy_alignment e) as [s|] eqn:E; [|by left].
          apply elem_of_union in Hacc as [?|Ht%elem_of_list_to_set]; [by left|].
          right. exists e, s. split; [left|done].
        * right. exists r, s. split; [by right|done].
      + intros [Hacc|(r&s&[->|Hr]%elem_of_cons&Hs&Ht)].
        * left. destruct (EntityRow.policy_alignment e); [|done].
          apply elem_of_union. by left.
        * left. rewrite Hs. apply elem_of_union. right.
          by apply elem_of_list_to_set.
        * right. by exists r, s. }
  rewrite H. split; [intros [?%not_elem_of_empty|?]; [done..]|auto].
Qed.

End EntityBatch.

Section Hierarchy.
Import Cypher Identity KG.


Lemma import_entities_node clk rows w r :
  r ∈ rows →
  node_exists "Entity" (EntityRow.entity_id r)
    (w_graph (import_entities clk rows w)).
Proof.
  intros Hr. rewrite node_exists_skeleton, import_entities_skeleton.
  cbn [rel_phase fst]. apply node_phase_mono. cbn [rel_phase fst].
  apply node_phase_keys, list_elem_of_fmap. by exists r.
Qed.

(** The Entity nodes after the import are those after its first
    statement. *)
Lemma import_entities_entity_nodes clk rows w v :
  node_exists "Entity" v (w_graph (import_entities clk rows w))
  ↔ ident "Entity" v
      ∈ (node_phase "Entity" (map EntityRow.entity_id rows)
           (skeleton (w_graph w))).1.
Proof.
  rewrite node_exists_skeleton, import_entities_skeleton.
  cbn [rel_phase fst]. rewrite (node_phase_elem "Policy"). cbn [rel_phase fst].
  split; [|auto]. intros [?|(k&_&?)]; [done|discriminate].
Qed.

Lemma import_entities_edge clk rows w r p :
  r ∈ rows → EntityRow.parent_org r = Some p →
  edge_exists "Entity" (EntityRow.entity_id r) "REPORTS_TO" "Entity" p
    (w_graph (import_entities clk rows w))
  ↔ node_exists "Entity" p (w_graph (import_entities clk rows w)).
Proof.
  intros Hr Hp. split.
  - rewrite edge_exists_skeleton, node_exists_skeleton.
    intros (i&j&_&Hj&_). apply list_elem_of_lookup; eauto.
  - intros Hpx.
    pose proof (import_entities_node clk rows w r Hr) as Hcx.
    apply import_entities_entity_nodes, list_elem_of_lookup in Hpx as (j&Hj).
    apply import_entities_entity_nodes, list_elem_of_lookup in Hcx as (i&Hi).
    apply edge_exists_skeleton. rewrite import_entities_skeleton.
    exists i, j. cbn [rel_phase fst snd].
    split; [by apply node_phase_lookup|]. split; [by apply node_phase_lookup|].
    apply elem_of_adds; left. cbn [node_phase snd].
    apply rel_phase_triples, elem_of_triples.
    exists (EntityRow.entity_id r), p, i, j. split; [|done].
    apply elem_of_hierarchy_pairs. by exists r.
Qed.


End Hierarchy.



Section PolicyAlignment.
Import Cypher Identity KG.

Lemma import_entities_policy clk rows w r s tok :
  r ∈ rows → EntityRow.policy_alignment r = Some s → tok ∈ policy_tokens s →
  node_exists "Policy" tok (w_graph (import_entities clk rows w))
  ∧ edge_exists "Entity" (EntityRow.entity_id r) "ALIGNED_TO" "Policy" tok
      (w_graph (import_entities clk rows w)).
Proof.
  intros Hr Hs Htok.
  assert (tok ∈ elements (all_policies rows)) as Hel.
  { apply elem_of_elements, elem_of_all_policies. by exists r, s. }
  pose proof (import_entities_node clk rows w r Hr) as Hc.
  rewrite edge_exists_skeleton, node_exists_skeleton in *.
  rewrite import_entities_skeleton in *. cbn [rel_phase fst snd] in *.
  set (s3 := node_phase "Policy" _ _) in *.
  assert (ident "Policy" tok ∈ s3.1) as Hpol by by apply node_phase_keys.
  split; [done|].
  apply list_elem_of_lookup in Hc as (i&Hi).
  apply list_elem_of_lookup in Hpol as (j&Hj).
  exists i, j. split; [done|]. split; [done|].
  apply elem_of_adds. right. apply elem_of_triples.
  exists (EntityRow.entity_id r), tok, i, j. split; [|done].
  apply elem_of_alignment_pairs. by exists r, s.
Qed.

Lemma import_entities_NoDup clk rows w :
  NoDup (skeleton (w_graph w)).1 → NoDup (skeleton (w_graph w)).2 →
  NoDup (skeleton (w_graph (import_entities clk rows w))).1
  ∧ NoDup (skeleton (w_graph (import_entities clk rows w))).2.
Proof.
  intros H1 H2. rewrite import_entities_skeleton. split.
  - cbn [rel_phase fst]. apply node_phase_NoDup. cbn [rel_phase fst].
    by apply node_phase_NoDup.
  - apply rel_phase_NoDup. cbn [node_phase snd]. by apply rel_phase_NoDup.
Qed.

Lemma import_entities_aligned_only clk rows w i j :
  (i, "ALIGNED_TO", j) ∈ (skeleton (w_graph (import_entities clk rows w))).2 →
  (i, "ALIGNED_TO", j) ∈ (skeleton (w_graph w)).2
  ∨ ∃ r s tok, r ∈ rows ∧ EntityRow.policy_alignment r = Some s
      ∧ tok ∈ policy_tokens s
      ∧ (skeleton (w_graph (import_entities clk rows w))).1 !! i
        = Some (ident "Entity" (EntityRow.entity_id r))
      ∧ (skeleton (w_graph (import_entities clk rows w))).1 !! j
        = Some (ident "Policy" tok).
Proof.
  rewrite import_entities_skeleton.
  intros [Hold|Hnew]%rel_phase_elem.
  - cbn [node_phase snd] in Hold. apply rel_phase_elem in Hold as [?|Ht].
    + by left.
    + apply elem_of_triples in Ht as (?&?&?&?&_&_&_&[=]).
  - right. apply elem_of_triples in Hnew as (a&b&i'&j'&Hab&Hi&Hj&[= -> ->]).
    apply elem_of_alignment_pairs in Hab as (r&s&Hr&->&Hs&Hb).
    by exists r, s, b.
Qed.

Lemma import_entities_policy_nodes clk rows w x :
  x ∈ (skeleton (w_graph (import_entities clk rows w))).1 → x.1 = "Policy" →
  x ∈ (skeleton (w_graph w)).1
  ∨ ∃ r s tok, r ∈ rows ∧ EntityRow.policy_alignment r = Some s
      ∧ tok ∈ policy_tokens s ∧ x = ident "Policy" tok.
Proof.
  rewrite import_entities_skeleton. cbn [rel_phase fst].
  intros [Hx|(tok&Htok&->)]%node_phase_elem Hl.
  - cbn [rel_phase fst] in Hx.
    apply node_phase_elem in Hx as [?|(k&_&->)]; [by left|discriminate].
  - right. apply elem_of_elements, elem_of_all_policies in Htok as (r&s&?&?&?).
    by exists r, s, tok.
Qed.

End PolicyAlignment.

(** C7 — tokenizing [policy_alignment] on ['|'] gives, for every token of
    every row, a Policy node of that name and an ALIGNED_TO edge from the
    row's entity to it; on a graph whose identities are unique they stay
    unique (one node per distinct name, one edge per ordered pair), every
    ALIGNED_TO edge and every Policy node that was not there before comes
    from a token of the batch, and the row with
    ["MyDIGITAL|AI Roadmap"] has the tokens ["MyDIGITAL"] and
    ["AI Roadmap"] and, ingested into the empty graph, yields exactly
    its entity, the two Policy nodes and the two ALIGNED_TO edges. *)
Theorem policy_tokens_give_aligned_edges :
  ∀ (clk : nat → Z) (entities_df : list EntityRow.t) (w : world),
    NoDup (Identity.skeleton (w_graph w)).1 →
    NoDup (Identity.skeleton (w_graph w)).2 →
    let s' := Identity.skeleton (w_graph (KG.import_entities clk entities_df w)) in
    (∀ r s tok,
       r ∈ entities_df → EntityRow.policy_alignment r = Some s →
       tok ∈ KG.policy_tokens s →
       Identity.node_exists "Policy" tok
         (w_graph (KG.import_entities clk entities_df w))
       ∧ Identity.edge_exists "Entity" (EntityRow.entity_id r) "ALIGNED_TO"
           "Policy" tok (w_graph (KG.import_entities clk entities_df w)))
    ∧ NoDup s'.1 ∧ NoDup s'.2
    ∧ (∀ i j, (i, "ALIGNED_TO", j) ∈ s'.2 →
         (i, "ALIGNED_TO", j) ∈ (Identity.skeleton (w_graph w)).2
         ∨ ∃ r s tok, r ∈ entities_df ∧ EntityRow.policy_alignment r = Some s
             ∧ tok ∈ KG.policy_tokens s
             ∧ s'.1 !! i = Some (Identity.ident "Entity" (EntityRow.entity_id r))
             ∧ s'.1 !! j = Some (Identity.ident "Policy" tok))
    ∧ (∀ x, x ∈ s'.1 → x.1 = "Policy" →
         x ∈ (Identity.skeleton (w_graph w)).1
         ∨ ∃ r s tok, r ∈ entities_df ∧ EntityRow.policy_alignment r = Some s
             ∧ tok ∈ KG.policy_tokens s ∧ x = Identity.ident "Policy" tok)
    ∧ KG.policy_tokens "MyDIGITAL|AI Roadmap" = ["MyDIGITAL"; "AI Roadmap"]
    ∧ Identity.skeleton
        (w_graph (KG.import_entities clk [sample_row] (World empty_graph [])))
      = ([Identity.ident "Entity" "MIN001"; Identity.ident "Policy" "MyDIGITAL";
          Identity.ident "Policy" "AI Roadmap"],
         [(0, "ALIGNED_TO", 1); (0, "ALIGNED_TO", 2)]).
Proof.
  intros clk rows w Hn He s'. subst s'.
  split; [intros; by eapply import_entities_policy|].
  destruct (import_entities_NoDup clk rows w Hn He) as [Hn' He'].
  split; [done|]. split; [done|].
  split; [apply import_entities_aligned_only|].
  split; [apply import_entities_policy_nodes|].
  split; [by vm_compute|].
  rewrite import_entities_skeleton. by vm_compute.
Qed.

Lemma policy_tokens_give_aligned_edges_witness :
  Identity.node_exists "Policy" "AI Roadmap"
    (w_graph (KG.import_entities (λ n, Z.of_nat n) [sample_row]
                (World empty_graph [])))
  ∧ Identity.edge_exists "Entity" "MIN001" "ALIGNED_TO" "Policy" "AI Roadmap"
      (w_graph (KG.import_entities (λ n, Z.of_nat n) [sample_row]
                  (World empty_graph []))).
Proof.
  refine (proj1 (policy_tokens_give_aligned_edges (λ n, Z.of_nat n)
                   [sample_row] (World empty_graph []) _ _)
            sample_row "MyDIGITAL|AI Roadmap" "AI Roadmap" _ _ _).
  - simpl. constructor.
  - simpl. constructor.
  - apply list_elem_of_singleton. reflexivity.
  - reflexivity.
  - vm_compute. right. left.
Defined.

(** * Attributes written by the node statements *)

Section NodeAttributes.
Import Cypher Identity.
Variables (l k : string).

Lemma node_has_set_node v kvs n :
  k ∉ kvs.*1 → node_has l k v (set_node kvs n) = node_has l k v n.
Proof.
  intros Hk. unfold node_has, set_node. simpl. by rewrite set_props_lookup_ne.
Qed.

Lemma node_has_inj v v' n :
  node_has l k v n = true → node_has l k v' n = true → v = v'.
Proof.
  intros H1%node_has_prop H2%node_has_prop. congruence.
Qed.

(** The row's own MERGE leaves its SET on every node it is bound to. *)
Lemma merge_node_row_target ns v kvs n :
  n ∈ merge_node_row l k ns (v, kvs) → node_has l k v n = true →
  ∃ m0, nprops n = set_props kvs m0.
Proof.
  unfold merge_node_row. simpl.
  intros [[_ Hf]|[(x&_&_&->)|[-> _]]]%elem_of_merge_set Hn.
  - congruence.
  - by exists (nprops x).
  - by eexists.
Qed.

(** A row with another key does not touch the nodes with key [v]. *)
Lemma merge_node_row_other ns v v' kvs' n :
  v' ≠ v → k ∉ kvs'.*1 →
  n ∈ merge_node_row l k ns (v', kvs') → node_has l k v n = true → n ∈ ns.
Proof.
  unfold merge_node_row. simpl.
  intros Hne Hk [[? _]|[(x&_&Hx&->)|[-> _]]]%elem_of_merge_set Hn.
  - done.
  - rewrite node_has_set_node in Hn by done.
    destruct Hne. by eapply node_has_inj.
  - rewrite node_has_set_node in Hn by done.
    apply node_has_prop in Hn. simpl in Hn.
    rewrite lookup_singleton_eq in Hn. congruence.
Qed.

Lemma merge_nodes_others rows ns v (Q : node → Prop) :
  (∀ row, row ∈ rows → row.1 ≠ v ∧ k ∉ row.2.*1) →
  (∀ n, n ∈ ns → node_has l k v n = true → Q n) →
  ∀ n, n ∈ foldl (merge_node_row l k) ns rows →
       node_has l k v n = true → Q n.
Proof.
  revert ns. induction rows as [|[v' kvs'] rows IH]; intros ns Hrows Hns; [done|].
  simpl. apply IH; [intros; apply Hrows; set_solver|].
  intros n Hn Hv. apply Hns; [|done].
  destruct (Hrows (v', kvs')) as [? ?]; [set_solver|].
  by eapply merge_node_row_other.
Qed.

Lemma merge_nodes_target rows ns v kvs :
  NoDup rows.*1 → (v, kvs) ∈ rows →
  (∀ row, row ∈ rows → k ∉ row.2.*1) →
  ∀ n, n ∈ foldl (merge_node_row l k) ns rows →
       node_has l k v n = true → ∃ m0, nprops n = set_props kvs m0.
Proof.
  revert ns. induction rows as [|row rows IH]; intros ns Hnd Hin Hk.
  { by apply elem_of_nil in Hin. }
  rewrite fmap_cons in Hnd. apply NoDup_cons in Hnd as [Hnotin Hnd].
  simpl. apply elem_of_cons in Hin as [<-|Hin].
  - apply merge_nodes_others.
    + intros row Hrow. split; [|apply Hk; set_solver].
      intros Heq. apply Hnotin. simpl. rewrite <- Heq.
      by apply list_elem_of_fmap_2.
    + intros n. apply merge_node_row_target.
  - apply IH; [done..|]. intros; apply Hk; set_solver.
Qed.

(** After the statement there is a node for every row. *)
Lemma merge_nodes_exists rows ns v kvs :
  (v, kvs) ∈ rows → (∀ row, row ∈ rows → k ∉ row.2.*1) →
  ∃ n, n ∈ foldl (merge_node_row l k) ns rows ∧ node_has l k v n = true.
Proof.
  revert ns. induction rows as [|row rows IH]; intros ns Hin Hk.
  { by apply elem_of_nil in Hin. }
  simpl. apply elem_of_cons in Hin as [<-|Hin].
  - assert (∃ n, n ∈ merge_node_row l k ns (v, kvs) ∧ node_has l k v n = true)
      as (n&Hn&Hv).
    { unfold merge_node_row. apply merge_set_matched.
      - intros x Hx. rewrite node_has_set_node; [done|]. apply (Hk (v, kvs)). set_solver.
      - rewrite node_has_set_node by (apply (Hk (v, kvs)); set_solver).
        apply node_has_intro; [done|]. simpl. apply lookup_singleton_eq. }
    clear IH. revert n Hn Hv. generalize (merge_node_row l k ns (v, kvs)).
    induction rows as [|row' rows IH]; intros ns' n Hn Hv; [by exists n|].
    simpl.
    assert (∃ n', n' ∈ merge_node_row l k ns' row' ∧ node_has l k v n' = true)
      as (n'&Hn'&Hv').
    { unfold merge_node_row, merge_set.
      destruct (existsb _ ns') eqn:E.
      - destruct (node_has l k row'.1 n) eqn:En.
        + exists (set_node row'.2 n). split.
          * apply list_elem_of_fmap. exists n. by rewrite En.
          * rewrite node_has_set_node; [done|]. apply (Hk row'). set_solver.
        + exists n. split; [|done].
          apply list_elem_of_fmap. exists n. by rewrite En.
      - exists n. split; [|done]. apply elem_of_app. by left. }
    apply (IH (λ row Hrow, Hk row ltac:(set_solver)) _ n' Hn' Hv').
  - apply IH; [done|]. intros; apply Hk; set_solver.
Qed.

End NodeAttributes.

(** * The cleaning phase *)

Section DropDuplicates.
Context {A K : Type} `{EqDecision K} (key : A → K).
Import Pandas.

Lemma drop_duplicates_from_elem seen df x :
  x ∈ drop_duplicates_from key seen df → x ∈ df ∧ key x ∉ seen.
Proof.
  revert seen. induction df as [|y df IH]; intros seen; simpl.
  { by intros ?%elem_of_nil. }
  case_decide.
  - intros [? ?]%IH. split; [by right|done].
  - intros [->|[? Hs]%IH]%elem_of_cons; [split; [by left|done]|].
    split; [by right|]. intros ?. apply Hs. by right.
Qed.

Lemma drop_duplicates_from_NoDup seen df :
  NoDup (map key (drop_duplicates_from key seen df)).
Proof.
  revert seen. induction df as [|y df IH]; intros seen; simpl.
  { constructor. }
  case_decide; [apply IH|]. simpl. apply NoDup_cons. split; [|apply IH].
  intros (x&Hk&Hx)%list_elem_of_fmap.
  apply drop_duplicates_from_elem in Hx as [_ Hx]. apply Hx. rewrite Hk. by left.
Qed.

(** The first row with a given key is kept. *)
Lemma drop_duplicates_from_first seen df i x :
  df !! i = Some x → key x ∉ seen →
  (∀ j y, j < i → df !! j = Some y → key y ≠ key x) →
  x ∈ drop_duplicates_from key seen df.
Proof.
  revert seen i. induction df as [|y df IH]; intros seen i Hi Hs Hfirst.
  { done. }
  simpl. destruct i as [|i].
  - injection Hi as ->. rewrite decide_False by done. by left.
  - simpl in Hi.
    assert (key y ≠ key x) as Hne by (apply (Hfirst 0); [lia|done]).
    assert (∀ j z, j < i → df !! j = Some z → key z ≠ key x) as Hfirst'.
    { intros j z Hj Hz. apply (Hfirst (S j)); [lia|done]. }
    case_decide.
    + by apply IH with i.
    + right. apply IH with i; [done| |done].
      intros [?|?]%elem_of_cons; [congruence|done].
Qed.

Lemma drop_duplicates_NoDup df : NoDup (map key (drop_duplicates key df)).
Proof. apply drop_duplicates_from_NoDup. Qed.

Lemma drop_duplicates_first df i x :
  df !! i = Some x →
  (∀ j y, j < i → df !! j = Some y → key y ≠ key x) →
  x ∈ drop_duplicates key df.
Proof.
  intros. eapply drop_duplicates_from_first; [done| |done].
  by intros ?%elem_of_nil.
Qed.

End DropDuplicates.

(** Filtering rows on a present key keeps the keys distinct. *)
Lemma omap_NoDup_keys {A B K} (key : A → option K) (key' : B → K)
    (h : A → option B) (df : list A) :
  (∀ x y, h x = Some y → key x = Some (key' y)) →
  NoDup (map key df) → NoDup (map key' (omap h df)).
Proof.
  intros Hh. induction df as [|x df IH]; intros Hnd; simpl.
  { constructor. }
  simpl in Hnd. apply NoDup_cons in Hnd as [Hx Hnd].
  destruct (h x) as [y|] eqn:E; [|by apply IH].
  simpl. apply NoDup_cons. split; [|by apply IH].
  intros (y'&Hk&(x'&Hx'&Hy')%list_elem_of_omap)%list_elem_of_fmap.
  apply Hx, list_elem_of_fmap. exists x'. split; [|done].
  rewrite (Hh _ _ E), (Hh _ _ Hy'). by rewrite Hk.
Qed.

Section CleanPeople.
Import Pipeline.

Lemma clean_people_NoDup raw :
  NoDup (map PersonRow.person_id (_clean_people raw)).
Proof.
  unfold _clean_people.
  apply (omap_NoDup_keys PersonRow.person_id).
  - intros x y Hxy.
    destruct (PersonRow.name x), (PersonRow.person_id x),
             (PersonRow.entity_id x); try done.
    by injection Hxy as <-.
  - rewrite map_map. simpl. apply drop_duplicates_NoDup.
Qed.


End CleanPeople.

Section Stored.
Import Cypher.

Lemma set_props_app kvs1 kvs2 (m : gmap string value) :
  set_props (kvs1 ++ kvs2) m = set_props kvs2 (set_props kvs1 m).
Proof. apply foldl_app. Qed.

(** The last assignment to a property is the stored value. *)
Lemma set_props_lookup_last pre k v post (m : gmap string value) :
  k ∉ post.*1 → v ≠ VNull →
  set_props (pre ++ (k, v) :: post) m !! k = Some v.
Proof.
  intros Hk Hv. rewrite set_props_app.
  change ((k, v) :: post) with ([(k, v)] ++ post).
  rewrite set_props_app, set_props_lookup_ne by done.
  unfold set_props, set_prop. simpl.
  destruct v; try done; apply lookup_insert_eq.
Qed.

Lemma clip_range lo hi q :
  (lo <= hi)%Q →
  ∃ q', Pandas.clip lo hi (FNum q) = FNum q'
        ∧ (lo <= q' <= hi)%Q
        ∧ ((lo <= q <= hi)%Q → q' = q)
        ∧ ((hi < q)%Q → q' = hi)
        ∧ ((q < lo)%Q → q' = lo).
Proof.
  intros Hlohi. unfold Pandas.clip, Pandas.Qltb.
  destruct (Qle_bool lo q) eqn:E1; simpl.
  - apply Qle_bool_iff in E1.
    destruct (Qle_bool q hi) eqn:E2; simpl.
    + apply Qle_bool_iff in E2. exists q.
      split; [done|]. split; [done|]. split; [done|].
      split; intros H; exfalso; eapply Qlt_not_le; eauto.
    + assert (hi < q)%Q as Hlt.
      { apply Qnot_le_lt. intros H%Qle_bool_iff. congruence. }
      exists hi. split; [done|]. split; [split; [done|apply Qle_refl]|].
      split; [intros [_ H]; exfalso; eapply Qlt_not_le; eauto|].
      split; [done|]. intros H; exfalso; eapply Qlt_not_le; eauto.
  - assert (q < lo)%Q as Hlt.
    { apply Qnot_le_lt. intros H%Qle_bool_iff. congruence. }
    exists lo. split; [done|]. split; [split; [apply Qle_refl|done]|].
    split; [intros [H _]; exfalso; eapply Qlt_not_le; eauto|].
    split; [|done]. intros H. exfalso.
    eapply Qlt_not_le; [exact H|]. apply Qlt_le_weak.
    eapply Qlt_le_trans; eauto.
Qed.

End Stored.

Section PeopleStored.
Import Cypher Identity KG.

Lemma import_people_nodes clk rows w :
  nodes (w_graph (import_people clk rows w))
  = foldl (merge_node_row "Person" "person_id") (nodes (w_graph w))
      (person_rows (clk 0) rows).
Proof. reflexivity. Qed.

Lemma person_rows_keys t rows :
  (person_rows t rows).*1 = map PersonRow.person_id rows.
Proof. unfold person_rows. apply fmap_fst_map. Qed.

Lemma person_rows_no_key t rows row :
  row ∈ person_rows t rows → "person_id" ∉ row.2.*1.
Proof. intros (p&->&_)%list_elem_of_fmap. by apply not_in_keys. Qed.


Lemma import_people_person clk rows w r :
  r ∈ rows →
  node_exists "Person" (PersonRow.person_id r)
    (w_graph (import_people clk rows w)).
Proof.
  intros Hr. rewrite node_exists_skeleton, import_people_skeleton.
  cbn [rel_phase fst]. apply node_phase_keys, list_elem_of_fmap. by exists r.
Qed.

End PeopleStored.



(** * Attributes written by the relationship statements *)

Section RelAttributes.
Import Cypher Identity.
Variables (l1 k1 l2 k2 ty : string).

Lemma rel_is_inj i j i' j' r :
  rel_is i ty j r = true → rel_is i' ty j' r = true → (i, j) = (i', j').
Proof.
  rewrite !rel_is_identity. intros H1%bool_decide_eq_true H2%bool_decide_eq_true.
  congruence.
Qed.

Lemma merge_rel_pair_target kvs rs i j r :
  r ∈ merge_rel_pair ty kvs rs (i, j) → rel_is i ty j r = true →
  written kvs r.
Proof.
  unfold merge_rel_pair. simpl.
  intros [[_ Hf]|[(x&_&_&->)|[-> _]]]%elem_of_merge_set Hr.
  - congruence.
  - by exists (rprops x).
  - by eexists.
Qed.

(** Merging any pair with the same SET keeps what was written. *)
Lemma merge_rel_pair_keeps kvs rs i j ij r :
  (∀ r, r ∈ rs → rel_is i ty j r = true → written kvs r) →
  r ∈ merge_rel_pair ty kvs rs ij → rel_is i ty j r = true → written kvs r.
Proof.
  unfold merge_rel_pair.
  intros Hrs [[? _]|[(x&_&_&->)|[-> _]]]%elem_of_merge_set Hr.
  - by apply Hrs.
  - by exists (rprops x).
  - by eexists.
Qed.

(** Merging another pair does not touch the edges of [(i, j)]. *)
Lemma merge_rel_pair_other kvs' rs i j ij r :
  ij ≠ (i, j) →
  r ∈ merge_rel_pair ty kvs' rs ij → rel_is i ty j r = true → r ∈ rs.
Proof.
  unfold merge_rel_pair. destruct ij as [i' j']. simpl.
  intros Hne [[? _]|[(x&_&Hx&->)|[-> _]]]%elem_of_merge_set Hr.
  - done.
  - destruct Hne. symmetry. by eapply rel_is_inj.
  - rewrite rel_is_identity in Hr. apply bool_decide_eq_true in Hr.
    destruct Hne. unfold rel_identity in Hr. simpl in Hr. congruence.
Qed.

Lemma fold_pairs_keeps kvs ps rs i j :
  (∀ r, r ∈ rs → rel_is i ty j r = true → written kvs r) →
  ∀ r, r ∈ foldl (merge_rel_pair ty kvs) rs ps →
       rel_is i ty j r = true → written kvs r.
Proof.
  revert rs. induction ps as [|p ps IH]; intros rs Hrs; [done|].
  simpl. apply IH. intros r. by apply merge_rel_pair_keeps.
Qed.

Lemma fold_pairs_target kvs ps rs i j :
  (i, j) ∈ ps →
  ∀ r, r ∈ foldl (merge_rel_pair ty kvs) rs ps →
       rel_is i ty j r = true → written kvs r.
Proof.
  revert rs. induction ps as [|p ps IH]; intros rs Hin.
  { by apply elem_of_nil in Hin. }
  simpl. apply elem_of_cons in Hin as [<-|Hin]; [|by apply IH].
  apply fold_pairs_keeps. intros r. apply merge_rel_pair_target.
Qed.

Lemma fold_pairs_other kvs' ps rs i j :
  (i, j) ∉ ps →
  ∀ r, r ∈ foldl (merge_rel_pair ty kvs') rs ps →
       rel_is i ty j r = true → r ∈ rs.
Proof.
  revert rs. induction ps as [|p ps IH]; intros rs Hnot; [done|].
  simpl. apply not_elem_of_cons in Hnot as [Hne Hnot].
  intros r Hr Hm. eapply merge_rel_pair_other; [done| |done].
  by apply IH.
Qed.

Lemma elem_of_bound_pairs ns row i j :
  (i, j) ∈ bound_pairs l1 k1 l2 k2 ns row ↔
  i ∈ find_all (node_has l1 k1 row.1.1) ns 0
  ∧ j ∈ find_all (node_has l2 k2 row.1.2) ns 0.
Proof.
  unfold bound_pairs. rewrite list_elem_of_In, in_prod_iff.
  by rewrite <- !list_elem_of_In.
Qed.

Lemma merge_rels_others rows ns rs a i j (Q : rel → Prop) :
  i ∈ find_all (node_has l1 k1 a) ns 0 →
  (∀ row, row ∈ rows → row.1.1 ≠ a) →
  (∀ r, r ∈ rs → rel_is i ty j r = true → Q r) →
  ∀ r, r ∈ foldl (merge_rel_row l1 k1 l2 k2 ty ns) rs rows →
       rel_is i ty j r = true → Q r.
Proof.
  intros Hi. revert rs. induction rows as [|row rows IH]; intros rs Hrows Hrs; [done|].
  simpl. apply IH; [intros; apply Hrows; set_solver|].
  intros r Hr Hm. apply Hrs; [|done]. unfold merge_rel_row in Hr.
  eapply fold_pairs_other; [|exact Hr|done].
  intros [Hi' _]%elem_of_bound_pairs.
  apply (Hrows row); [set_solver|].
  apply elem_of_find_all_0 in Hi as (n&Hn&Ha).
  apply elem_of_find_all_0 in Hi' as (n'&Hn'&Ha').
  assert (n' = n) as -> by congruence.
  by eapply node_has_inj.
Qed.

(** Distinct source keys: the edges between the nodes of a row carry
    that row's SET when the statement ends. *)
Lemma merge_rels_target rows ns rs a b kvs i j :
  NoDup (map (λ row : string * string * list (string * value), row.1.1) rows) →
  (a, b, kvs) ∈ rows →
  i ∈ find_all (node_has l1 k1 a) ns 0 →
  j ∈ find_all (node_has l2 k2 b) ns 0 →
  ∀ r, r ∈ foldl (merge_rel_row l1 k1 l2 k2 ty ns) rs rows →
       rel_is i ty j r = true → written kvs r.
Proof.
  intros Hnd Hin Hi Hj. revert rs Hnd Hin.
  induction rows as [|row rows IH]; intros rs Hnd Hin.
  { by apply elem_of_nil in Hin. }
  simpl in Hnd. apply NoDup_cons in Hnd as [Hnotin Hnd].
  simpl. apply elem_of_cons in Hin as [<-|Hin]; [|by apply IH].
  apply (merge_rels_others rows ns _ a); [done| |].
  - intros row Hrow Heq. apply Hnotin, list_elem_of_fmap. by exists row.
  - intros r. unfold merge_rel_row. apply fold_pairs_target.
    by apply elem_of_bound_pairs.
Qed.

End RelAttributes.

Section CleanPartners.
Import Pipeline.

Lemma clean_partners_NoDup cy raw :
  NoDup (map PartnerRow.partner_id (_clean_partners cy raw)).
Proof.
  unfold _clean_partners.
  apply (omap_NoDup_keys PartnerRow.partner_id).
  - intros x y Hxy.
    destruct (PartnerRow.company_name x), (PartnerRow.partner_id x),
             (PartnerRow.entity_id x); try done.
    by injection Hxy as <-.
  - rewrite map_map. simpl. apply drop_duplicates_NoDup.
Qed.

Lemma clean_partners_keeps cy raw i r0 pid eid nm :
  raw !! i = Some r0 →
  PartnerRow.partner_id r0 = Some pid → PartnerRow.entity_id r0 = Some eid →
  PartnerRow.company_name r0 = Some nm →
  (∀ j r', j < i → raw !! j = Some r' → PartnerRow.partner_id r' ≠ Some pid) →
  ∃ r, r ∈ _clean_partners cy raw ∧ PartnerRow.partner_id r = pid
       ∧ PartnerRow.entity_id r = eid
       ∧ PartnerRow.contract_value_rm r
         = Pandas.fillna 0 (Pandas.to_numeric (PartnerRow.contract_value_rm r0)).
Proof.
  intros Hi Hpid Heid Hnm Hfirst. unfold _clean_partners.
  eexists. split.
  - apply list_elem_of_omap. eexists. split.
    + apply list_elem_of_fmap_2.
      apply (drop_duplicates_first PartnerRow.partner_id raw i r0 Hi).
      intros j y Hj Hy. rewrite Hpid. by eapply Hfirst.
    + simpl. rewrite Hnm, Hpid, Heid. simpl. reflexivity.
  - done.
Qed.

End CleanPartners.

Section PartnersStored.
Import Cypher Identity KG.

Lemma import_partners_graph clk rows w :
  w_graph (import_partners clk rows w)
  = merge_rels "Company" "partner_id" "Entity" "entity_id" "PARTNERS_WITH"
      (partnership_relationships (clk 1) rows)
      (merge_nodes "Company" "partner_id" (company_rows (clk 0) rows)
         (w_graph w)).
Proof. reflexivity. Qed.

Lemma import_partners_stored clk rows w p r :
  NoDup (map PartnerRow.partner_id rows) → p ∈ rows →
  let g' := w_graph (import_partners clk rows w) in
  r ∈ rels g' → rtype r = "PARTNERS_WITH" →
  rsrc r ∈ match_node "Company" "partner_id" (PartnerRow.partner_id p) g' →
  rdst r ∈ match_node "Entity" "entity_id" (PartnerRow.entity_id p) g' →
  written (partnership_props (clk 1) p) r.
Proof.
  intros Hnd Hp g' Hr Hty Hsrc Hdst. subst g'.
  rewrite import_partners_graph in *. unfold merge_rels in *.
  cbn [nodes rels] in *. unfold match_node in *. cbn [nodes] in *.
  eapply (merge_rels_target "Company" "partner_id" "Entity" "entity_id");
    [| |exact Hsrc|exact Hdst|exact Hr|].
  - unfold partnership_relationships. rewrite map_map. exact Hnd.
  - apply list_elem_of_fmap. by exists p.
  - unfold rel_is. by rewrite !bool_decide_eq_true_2.
Qed.

Lemma import_partners_company clk rows w p :
  p ∈ rows →
  node_exists "Company" (PartnerRow.partner_id p)
    (w_graph (import_partners clk rows w)).
Proof.
  intros Hr. rewrite node_exists_skeleton, import_partners_skeleton.
  cbn [rel_phase fst]. apply node_phase_keys, list_elem_of_fmap. by exists p.
Qed.

Lemma import_partners_edge clk rows w p :
  p ∈ rows → node_exists "Entity" (PartnerRow.entity_id p) (w_graph w) →
  edge_exists "Company" (PartnerRow.partner_id p) "PARTNERS_WITH"
    "Entity" (PartnerRow.entity_id p) (w_graph (import_partners clk rows w)).
Proof.
  intros Hp He.
  pose proof (import_partners_company clk rows w p Hp) as Hc.
  rewrite edge_exists_skeleton, node_exists_skeleton in *.
  rewrite import_partners_skeleton in *. cbn [rel_phase fst snd] in *.
  set (s1 := node_phase "Company" _ _) in *.
  assert (ident "Entity" (PartnerRow.entity_id p) ∈ s1.1) as He1
    by by apply node_phase_mono.
  apply list_elem_of_lookup in Hc as (i&Hi).
  apply list_elem_of_lookup in He1 as (j&Hj).
  exists i, j. split; [done|]. split; [done|].
  apply elem_of_adds. right. apply elem_of_triples.
  exists (PartnerRow.partner_id p), (PartnerRow.entity_id p), i, j.
  split; [|done]. apply list_elem_of_fmap. by exists p.
Qed.

End PartnersStored.

(** C6 — on the ingestion path of the pipeline ([_clean_partners], then
    [import_partners]) a partner row whose [contract_value_rm] is not a
    number is not dropped and raises nothing: for the first row of the
    raw batch with its [partner_id] (company name and entity present,
    the entity being an Entity node) the import returns a graph with the
    Company node and a PARTNERS_WITH edge from it to the entity, and every
    such edge stores [contract_value_rm = 0]. *)
Theorem non_numeric_contract_value_stored_as_zero :
  ∀ (clk : nat → Z) (current_year : Z)
    (raw : list (PartnerRow.t (option string) raw_num)) (w : world)
    (i : nat) (r0 : PartnerRow.t (option string) raw_num)
    (pid eid nm s : string),
    raw !! i = Some r0 →
    PartnerRow.partner_id r0 = Some pid →
    PartnerRow.entity_id r0 = Some eid →
    PartnerRow.company_name r0 = Some nm →
    PartnerRow.contract_value_rm r0 = NonNumeric s →
    (∀ j r', j < i → raw !! j = Some r' → PartnerRow.partner_id r' ≠ Some pid) →
    Identity.node_exists "Entity" eid (w_graph w) →
    let g' := w_graph (KG.import_partners clk
                         (Pipeline._clean_partners current_year raw) w) in
    Identity.node_exists "Company" pid g'
    ∧ Identity.edge_exists "Company" pid "PARTNERS_WITH" "Entity" eid g'
    ∧ (∀ r, r ∈ rels g' → rtype r = "PARTNERS_WITH" →
            rsrc r ∈ Cypher.match_node "Company" "partner_id" pid g' →
            rdst r ∈ Cypher.match_node "Entity" "entity_id" eid g' →
            rprops r !! "contract_value_rm" = Some (VInt 0)).
Proof.
  intros clk cy raw w i r0 pid eid nm s Hi Hpid Heid Hnm Hval Hfirst He g'.
  destruct (clean_partners_keeps cy raw i r0 pid eid nm Hi Hpid Heid Hnm Hfirst)
    as (p&Hp&<-&<-&Hcv).
  split; [by apply import_partners_company|].
  split; [by apply import_partners_edge|].
  intros r Hr Hty Hsrc Hdst.
  destruct (import_partners_stored clk _ w p r (clean_partners_NoDup cy raw)
              Hp Hr Hty Hsrc Hdst) as (m0&->).
  unfold KG.partnership_props. rewrite Hcv, Hval.
  apply (set_props_lookup_last
           [("relationship_type", text_value (PartnerRow.relationship_type p))]).
  - by apply not_in_keys.
  - done.
Qed.

Lemma non_numeric_contract_value_stored_as_zero_witness :
  Identity.node_exists "Company" "COMP001" raw_partner_graph
  ∧ Identity.edge_exists "Company" "COMP001" "PARTNERS_WITH" "Entity" "MIN001"
      raw_partner_graph
  ∧ ∃ r, last (rels raw_partner_graph) = Some r
         ∧ rprops r !! "contract_value_rm" = Some (VInt 0).
Proof.
  assert (Identity.node_exists "Entity" "MIN001" (w_graph sample_world)) as He.
  { apply (import_entities_node _ [sample_row] _ sample_row). by left. }
  pose proof (non_numeric_contract_value_stored_as_zero (λ k, Z.of_nat k) 2026
                [raw_partner_row] sample_world 0 raw_partner_row
                "COMP001" "MIN001" "TechMalaysia Solutions" "not a number"
                eq_refl eq_refl eq_refl eq_refl eq_refl
                (λ j r' Hj, ltac:(lia)) He) as (Hc&Hedge&Hzero).
  split; [exact Hc|]. split; [exact Hedge|].
  destruct (last (rels raw_partner_graph)) as [r|] eqn:E; [|by vm_compute in E].
  exists r. split; [done|].
  assert (r ∈ rels raw_partner_graph) as Hr.
  { apply last_Some in E as (l'&->). apply elem_of_app. right. by left. }
  assert (rtype r = "PARTNERS_WITH" ∧ rsrc r = 3 ∧ rdst r = 0) as (Hty&Hs&Hd).
  { vm_compute in E. injection E as <-. done. }
  apply Hzero; [done|done|rewrite Hs|rewrite Hd].
  - apply elem_of_find_all_0. eexists. split; reflexivity.
  - apply elem_of_find_all_0. eexists. split; reflexivity.
Defined.

(** * Referential skip in [import_people] *)

Section ReferentialSkip.
Import Cypher Identity KG.

Lemma import_people_log clk rows w :
  ∃ c k : nat, w_log (import_people clk rows w)
         = w_log w
           ++ [(INFO, "Importing " +:+ pretty (length rows) +:+ " people...");
               (INFO, "Created/updated " +:+ pretty c +:+ " person nodes");
               (INFO, "Created " +:+ pretty k +:+ " WORKS_FOR relationships")].
Proof.
  unfold import_people. cbn [w_log log run w_graph].
  eexists _, _. rewrite <- !app_assoc. reflexivity.
Qed.

Lemma import_people_entity_nodes clk rows w v :
  node_exists "Entity" v (w_graph (import_people clk rows w))
  ↔ node_exists "Entity" v (w_graph w).
Proof.
  rewrite !node_exists_skeleton, import_people_skeleton.
  cbn [rel_phase fst]. rewrite node_phase_elem.
  split; [|auto]. intros [?|(k&_&?)]; [done|discriminate].
Qed.

Lemma validate_warns_invalid_person entities people partners r :
  r ∈ people → PersonRow.entity_id r ∉ map EntityRow.entity_id entities →
  ∃ n, 0 < n
       ∧ (WARNING, "Found " +:+ pretty n +:+ " people with invalid entity_id")
         ∈ Pipeline._validate_relationships entities people partners.
Proof.
  intros Hr Hnot. unfold Pipeline._validate_relationships.
  set (bad := filter _ people).
  assert (r ∈ bad) as Hbad.
  { apply list_elem_of_filter. split; [|done]. by rewrite elem_of_list_to_set. }
  assert (0 < length bad) as Hlen.
  { destruct bad; [by apply elem_of_nil in Hbad | simpl; lia]. }
  exists (length bad). split; [done|].
  rewrite !elem_of_app. left.
  rewrite bool_decide_eq_true_2 by done. by left.
Qed.

End ReferentialSkip.

(** C5 (as the code has it) — for a person row whose [entity_id] is not
    an Entity node, [import_people] still merges the Person node, creates
    no WORKS_FOR edge for the row and returns; it logs exactly three
    records, all at level INFO (the batch size, the number of Person
    bindings and the number of WORKS_FOR bindings), so it neither warns
    nor reports a number of skipped rows; the warning that counts the
    people whose entity is not in the entity batch comes from
    [_validate_relationships]. *)
Theorem import_people_skips_missing_entity :
  ∀ (clk : nat → Z) (people_df : list (PersonRow.t string)) (w : world)
    (r : PersonRow.t string),
    r ∈ people_df →
    ¬ Identity.node_exists "Entity" (PersonRow.entity_id r) (w_graph w) →
    let w' := KG.import_people clk people_df w in
    Identity.node_exists "Person" (PersonRow.person_id r) (w_graph w')
    ∧ ¬ Identity.edge_exists "Person" (PersonRow.person_id r) "WORKS_FOR"
          "Entity" (PersonRow.entity_id r) (w_graph w')
    ∧ (∃ c k : nat, w_log w'
              = w_log w
                ++ [(INFO, "Importing " +:+ pretty (length people_df)
                           +:+ " people...");
                    (INFO, "Created/updated " +:+ pretty c +:+ " person nodes");
                    (INFO, "Created " +:+ pretty k
                           +:+ " WORKS_FOR relationships")])
    ∧ (∀ e, e ∈ w_log w' → e ∈ w_log w ∨ e.1 = INFO)
    ∧ (∀ entities_df partners_df,
         PersonRow.entity_id r ∉ map EntityRow.entity_id entities_df →
         ∃ n, 0 < n
              ∧ (WARNING,
                 "Found " +:+ pretty n +:+ " people with invalid entity_id")
                ∈ Pipeline._validate_relationships entities_df people_df
                    partners_df).
Proof.
  intros clk rows w r Hr Hno w'. subst w'.
  split; [by apply import_people_person|].
  split.
  { rewrite edge_exists_skeleton. intros (i&j&_&Hj&_).
    apply Hno, (import_people_entity_nodes clk rows w).
    apply node_exists_skeleton, list_elem_of_lookup. eauto. }
  split; [apply import_people_log|].
  split.
  { destruct (import_people_log clk rows w) as (c&k&->).
    intros e [?|He]%elem_of_app; [by left|right].
    repeat (apply elem_of_cons in He as [->|He]; [done|]).
    by apply elem_of_nil in He. }
  intros entities partners Hnot.
  by apply validate_warns_invalid_person with r.
Qed.

Lemma import_people_skips_missing_entity_witness :
  Identity.node_exists "Person" "P001"
    (w_graph (KG.import_people (λ k, Z.of_nat k) [orphan_person] sample_world))
  ∧ ¬ Identity.edge_exists "Person" "P001" "WORKS_FOR" "Entity" "NOPE"
        (w_graph (KG.import_people (λ k, Z.of_nat k) [orphan_person] sample_world)).
Proof.
  assert (¬ Identity.node_exists "Entity" "NOPE" (w_graph sample_world)) as Hno.
  { rewrite node_exists_skeleton. vm_compute.
    intros H. repeat (apply elem_of_cons in H as [H|H]; [discriminate|]).
    by apply elem_of_nil in H. }
  pose proof (import_people_skips_missing_entity (λ k, Z.of_nat k)
                [orphan_person] sample_world orphan_person
                ltac:(by left) Hno) as (H1&H2&_).
  by split.
Defined.

(** C5 as stated fails: the row is skipped by [import_people] without
    any warning and without a count of skipped rows; the call logs three
    INFO records and no other. *)
Lemma import_people_warns_counterexample :
  ¬ (¬ Identity.edge_exists "Person" "P001" "WORKS_FOR" "Entity" "NOPE"
         (w_graph (KG.import_people (λ k, Z.of_nat k) [orphan_person]
                     (World empty_graph [])))
     ∧ ∃ msg, (WARNING, msg)
              ∈ w_log (KG.import_people (λ k, Z.of_nat k) [orphan_person]
                         (World empty_graph []))).
Proof.
  intros [_ (msg&Hmsg)]. vm_compute in Hmsg.
  repeat (apply elem_of_cons in Hmsg as [Hmsg|Hmsg]; [discriminate|]).
  by apply elem_of_nil in Hmsg.
Qed.

(** * Hierarchy expansion *)

Section HierarchyQuery.
Import Cypher Identity KG.

Lemma out_rels_lookup rs ty n x r :
  (x, r) ∈ out_rels rs ty n → rs !! x = Some r ∧ rsrc r = n.
Proof.
  unfold out_rels. intros [[Hs _] Hin]%list_elem_of_filter.
  apply elem_of_lookup_imap in Hin as (i&y&[= -> ->]&Hy). done.
Qed.

(** A chain of two steps that ends in a root. *)
Lemma expand_out_chain rs ty ic ib ia x1 r1 x2 r2 :
  out_rels rs ty ic = [(x1, r1)] → rdst r1 = ib →
  out_rels rs ty ib = [(x2, r2)] → rdst r2 = ia →
  out_rels rs ty ia = [] →
  expand_out (length rs) rs ty [] ic = [ic; ib; ia].
Proof.
  intros Hc Hb1 Hb Ha1 Ha.
  assert ((x1, r1) ∈ out_rels rs ty ic) as [H1 Hs1]%out_rels_lookup
    by (rewrite Hc; by left).
  assert ((x2, r2) ∈ out_rels rs ty ib) as [H2 Hs2]%out_rels_lookup
    by (rewrite Hb; by left).
  assert (x1 ≠ x2) as Hne.
  { intros ->. assert (r1 = r2) as -> by congruence.
    assert (ic = ib) as -> by congruence.
    assert (ib = ia) as -> by congruence.
    rewrite Ha in Hb. done. }
  assert (2 ≤ length rs) as Hlen.
  { apply lookup_lt_Some in H1, H2.
    destruct rs as [|? [|? ?]]; simpl in *; lia. }
  destruct (length rs) as [|[|fuel]]; [lia..|].
  cbn [expand_out]. rewrite Hc. simpl. rewrite app_nil_r.
  rewrite Hb1, Hb. cbn [filter list_filter]. rewrite decide_True.
  2:{ intros ?%list_elem_of_singleton. by apply Hne. }
  cbn [flat_map fst snd]. rewrite app_nil_r, Ha1.
  destruct fuel; cbn [expand_out]; [done|]. by rewrite Ha.
Qed.

End HierarchyQuery.

(** C3 (as the code has it) — for an entity C whose only outgoing
    REPORTS_TO edge leads to B, whose only one leads to A, which has
    none, the hierarchy query on C returns, as [parents], the entity
    itself followed by its ancestors nearest first, [C, B, A], and no
    other node: the pattern [*0..] includes the path of length zero. *)
Theorem hierarchy_parents_start_with_entity :
  ∀ (g : graph) (c : string) (ic ib ia x1 x2 : nat) (r1 r2 : rel),
    Cypher.match_node "Entity" "entity_id" c g = [ic] →
    Cypher.out_rels (rels g) "REPORTS_TO" ic = [(x1, r1)] → rdst r1 = ib →
    Cypher.out_rels (rels g) "REPORTS_TO" ib = [(x2, r2)] → rdst r2 = ia →
    Cypher.out_rels (rels g) "REPORTS_TO" ia = [] →
    ∃ h, KG.get_entity_hierarchy c g = Some h
         ∧ KG.parents h
           = [KG.summarize g ic; KG.summarize g ib; KG.summarize g ia].
Proof.
  intros g c ic ib ia x1 x2 r1 r2 Hc H1 Hb H2 Ha H3.
  unfold KG.get_entity_hierarchy, KG.hierarchy_rows. rewrite Hc. simpl.
  eexists. split; [reflexivity|]. simpl.
  by rewrite (expand_out_chain _ _ ic ib ia x1 r1 x2 r2).
Qed.

Lemma hierarchy_parents_start_with_entity_witness :
  ∃ h, KG.get_entity_hierarchy "C" chain_graph = Some h
       ∧ map KG.s_id (KG.parents h) = [VStr "C"; VStr "B"; VStr "A"].
Proof.
  destruct (hierarchy_parents_start_with_entity chain_graph "C" 2 1 0 1 0
              (Rel 2 "REPORTS_TO" 1 {[ "created_at" := VTime 1 ]})
              (Rel 1 "REPORTS_TO" 0 {[ "created_at" := VTime 1 ]}))
    as (h&Hh&Hp); try (vm_compute; reflexivity).
  exists h. split; [exact Hh|]. rewrite Hp. vm_compute. reflexivity.
Defined.

(** C3 as stated fails on the chain A <- B <- C: the [parents] returned
    for C are not [B, A]. *)
Lemma hierarchy_parents_counterexample :
  (map KG.s_id ∘ KG.parents) <$> KG.get_entity_hierarchy "C" chain_graph
  ≠ Some [VStr "B"; VStr "A"].
Proof. vm_compute. discriminate. Qed.

Section Fuel.
Import Cypher.

Lemma all_used (used : list nat) m i :
  NoDup used → (∀ x, x ∈ used → x < m) → m ≤ length used → i < m → i ∈ used.
Proof.
  intros Hnd Hlt Hlen Hi.
  assert (used ⊆+ seq 0 m) as Hsub.
  { apply NoDup_submseteq; [done|]. intros x Hx%Hlt.
    apply elem_of_seq. lia. }
  apply submseteq_length_Permutation in Hsub; [|by rewrite length_seq].
  rewrite Hsub. apply elem_of_seq. lia.
Qed.

Lemma filter_none {A} (P : A → Prop) `{∀ x, Decision (P x)} (l : list A) :
  (∀ x, x ∈ l → ¬ P x) → filter P l = [].
Proof.
  induction l as [|x l IH]; intros Hl; [done|].
  rewrite filter_cons_False by (apply Hl; by left).
  apply IH. intros; apply Hl; by right.
Qed.

Lemma flat_map_ext_elem {A B} (f g : A → list B) (l : list A) :
  (∀ x, x ∈ l → f x = g x) → flat_map f l = flat_map g l.
Proof.
  induction l as [|x l IH]; intros H; [done|]. simpl.
  rewrite (H x) by (by left). f_equal. apply IH. intros; apply H; by right.
Qed.

(** The fuel the queries pass is enough: with it, or with more, the
    expansion is the same, so no path is cut short. *)
Lemma expand_out_fuel rs ty fuel used n :
  NoDup used → (∀ x, x ∈ used → x < length rs) →
  length rs ≤ fuel + length used →
  expand_out (S fuel) rs ty used n = expand_out fuel rs ty used n.
Proof.
  revert used n. induction fuel as [|fuel IH]; intros used n Hnd Hlt Hlen.
  - cbn [expand_out]. f_equal. rewrite filter_none; [done|].
    intros [x r] Hx Hnot. apply Hnot.
    apply out_rels_lookup in Hx as [Hx%lookup_lt_Some _]. simpl.
    apply (all_used used (length rs)); [done..|lia|done].
  - cbn [expand_out]. f_equal. apply flat_map_ext_elem. intros [x r] Hx.
    apply list_elem_of_filter in Hx as [Hnot Hx]. simpl in *.
    apply out_rels_lookup in Hx as [Hx%lookup_lt_Some _].
    apply IH.
    + by apply NoDup_cons.
    + intros y [->|Hy]%elem_of_cons; [done|by apply Hlt].
    + simpl. lia.
Qed.

Lemma expand_out_enough rs ty n k :
  expand_out (length rs + k) rs ty [] n = expand_out (length rs) rs ty [] n.
Proof.
  induction k as [|k IH]; [by rewrite Nat.add_0_r|].
  rewrite Nat.add_succ_r, expand_out_fuel; [done|constructor| |simpl; lia].
  by intros x ?%elem_of_nil.
Qed.

End Fuel.

(** * Ordering *)

Section StableSort.
Context {A : Type} (before : A → A → bool).
Import Py.

Hypothesis before_total : ∀ a b, before a b = false → before b a = true.
Hypothesis before_trans :
  ∀ a b c, before a b = true → before b c = true → before a c = true.

Lemma insert_by_perm x l : insert_by before x l ≡ₚ x :: l.
Proof.
  induction l as [|y l IH]; simpl; [done|].
  destruct (before x y); [done|]. rewrite IH. apply perm_swap.
Qed.

Lemma stable_sort_perm l : stable_sort before l ≡ₚ l.
Proof.
  induction l as [|x l IH]; simpl; [done|].
  by rewrite insert_by_perm, IH.
Qed.

Lemma insert_by_sorted x l :
  StronglySorted (λ a b, before a b = true) l →
  StronglySorted (λ a b, before a b = true) (insert_by before x l).
Proof.
  induction 1 as [|y l Hl IH Hy]; simpl.
  { repeat constructor. }
  destruct (before x y) eqn:E.
  - constructor; [by constructor|]. constructor; [done|].
    eapply Forall_impl; [exact Hy|]. intros z Hz. by eapply before_trans.
  - constructor; [done|].
    rewrite insert_by_perm. constructor; [|done]. by apply before_total.
Qed.

Lemma stable_sort_sorted l :
  StronglySorted (λ a b, before a b = true) (stable_sort before l).
Proof.
  induction l as [|x l IH]; simpl; [constructor|]. by apply insert_by_sorted.
Qed.

End StableSort.

Lemma StronglySorted_weaken {A} (R R' : A → A → Prop) l :
  (∀ a b, R a b → R' a b) → StronglySorted R l → StronglySorted R' l.
Proof.
  intros HR. induction 1 as [|x l Hl IH Hx]; constructor; [done|].
  eapply Forall_impl; [exact Hx|]. intros; by apply HR.
Qed.

Lemma StronglySorted_take {A} (R : A → A → Prop) n l :
  StronglySorted R l → StronglySorted R (take n l).
Proof.
  intros H. rewrite <- (take_drop n l) in H.
  by apply StronglySorted_app_1_l in H.
Qed.

Section MostConnected.
Import Cypher Connector.

Lemma connections_order_sorted (l : list connected) :
  StronglySorted (λ a b, connections b ≤ connections a)
    (Py.stable_sort (λ a b, connections b <=? connections a) l).
Proof.
  eapply (StronglySorted_weaken
            (λ a b, (connections b <=? connections a) = true)).
  - intros a b H. by apply Nat.leb_le.
  - apply stable_sort_sorted.
    + intros a b H. apply Nat.leb_gt in H. apply Nat.leb_le. lia.
    + intros a b c H1%Nat.leb_le H2%Nat.leb_le. apply Nat.leb_le. lia.
Qed.

(** The statement has a result. *)
Lemma most_connected_is_result filter_labels g :
  most_connected_rows filter_labels g (most_connected filter_labels g).
Proof.
  unfold most_connected_rows, most_connected, ordered_desc.
  eexists. split; [|reflexivity]. split.
  - apply stable_sort_perm.
  - apply connections_order_sorted.
Qed.

Lemma elem_of_connected_nodes filter_labels g c :
  c ∈ connected_nodes filter_labels g ↔
  ∃ i n, nodes g !! i = Some n ∧ label_filter filter_labels n = true
         ∧ 0 < degree g i
         ∧ c = Connected (prop (nprops n) "name") (nlabel n) (degree g i).
Proof.
  unfold connected_nodes. rewrite list_elem_of_omap. split.
  - intros ([i0 n0]&(i&n&Heq&Hn)%elem_of_lookup_imap&Hc).
    injection Heq as -> ->. simpl in Hc.
    destruct (label_filter filter_labels n) eqn:E1; [|done].
    destruct (0 <? degree g i) eqn:E2; [|done]. simpl in Hc.
    injection Hc as <-. exists i, n. apply Nat.ltb_lt in E2. done.
  - intros (i&n&Hn&Hf&Hd&->). exists (i, n). split.
    + apply elem_of_lookup_imap. by exists i, n.
    + simpl. rewrite Hf. apply Nat.ltb_lt in Hd. by rewrite Hd.
Qed.

(** A relationship counts once for each node it touches: the degree is
    the number of outgoing plus the number of incoming relationships, a
    loop being counted once. *)
Lemma degree_both_directions g i :
  degree g i + length (filter (λ r, rsrc r = i ∧ rdst r = i) (rels g))
  = length (filter (λ r, rsrc r = i) (rels g))
    + length (filter (λ r, rdst r = i) (rels g)).
Proof.
  unfold degree. induction (rels g) as [|r rs IH]; [done|].
  rewrite !filter_cons.
  destruct (decide (rsrc r = i)), (decide (rdst r = i));
    repeat case_decide; simpl; try lia; naive_solver.
Qed.

End MostConnected.

(** C9 (as the code has it) — a result of the most-connected statement
    has at most 10 rows, in non-increasing order of [connections]; every
    row is a filtered node with at least one relationship, and its
    [connections] counts the relationships in both directions (outgoing
    plus incoming, a loop once).  The statement always has a result.  It
    orders by [connections] and by nothing else: the result is
    determined when the candidate rows have pairwise different
    [connections]. *)
Theorem most_connected_sorted_top10 :
  ∀ (filter_labels : list string) (g : graph) (out : list Connector.connected),
    Connector.most_connected_rows filter_labels g out →
    length out ≤ 10
    ∧ StronglySorted (λ a b, Connector.connections b ≤ Connector.connections a) out
    ∧ (∀ c, c ∈ out →
         ∃ i n, nodes g !! i = Some n
                ∧ Connector.label_filter filter_labels n = true
                ∧ 0 < Connector.degree g i
                ∧ Connector.degree g i
                  + length (filter (λ r, rsrc r = i ∧ rdst r = i) (rels g))
                  = length (filter (λ r, rsrc r = i) (rels g))
                    + length (filter (λ r, rdst r = i) (rels g))
                ∧ c = Connector.Connected (Cypher.prop (nprops n) "name")
                        (nlabel n) (Connector.degree g i))
    ∧ Connector.most_connected_rows filter_labels g
        (Connector.most_connected filter_labels g)
    ∧ (NoDup (map Connector.connections
                (Connector.connected_nodes filter_labels g)) →
       out = Connector.most_connected filter_labels g).
Proof.
  intros fl g out (l&[Hperm Hsorted]&->).
  split; [rewrite length_take; lia|].
  split; [by apply StronglySorted_take|].
  split.
  { intros c Hc%subseteq_take. rewrite Hperm in Hc.
    apply elem_of_connected_nodes in Hc as (i&n&?&?&?&?). exists i, n.
    split; [done|]. split; [done|]. split; [done|].
    split; [apply degree_both_directions|done]. }
  split; [apply most_connected_is_result|].
  intros Hnd. unfold Connector.most_connected. f_equal.
  apply (StronglySorted_unique_strong
           (λ a b, Connector.connections b ≤ Connector.connections a)).
  - intros x1 x2 Hx1 Hx2 H1 H2. rewrite Hperm in Hx1.
    rewrite stable_sort_perm in Hx2.
    assert (Connector.connections x1 = Connector.connections x2) as Heq by lia.
    clear -Hnd Hx1 Hx2 Heq.
    induction (Connector.connected_nodes fl g) as [|y l' IH]; [by apply elem_of_nil in Hx1|].
    simpl in Hnd. apply NoDup_cons in Hnd as [Hy Hnd].
    apply elem_of_cons in Hx1 as [->|Hx1], Hx2 as [->|Hx2]; [done| | |by apply IH].
    + destruct Hy. rewrite Heq. by apply list_elem_of_fmap_2.
    + destruct Hy. rewrite <- Heq. by apply list_elem_of_fmap_2.
  - done.
  - apply connections_order_sorted.
  - by rewrite Hperm, stable_sort_perm.
Qed.

Lemma most_connected_sorted_top10_witness :
  length (Connector.most_connected [] chain_graph) ≤ 10
  ∧ map Connector.connections (Connector.most_connected [] chain_graph)
    = [2; 1; 1].
Proof.
  split.
  - exact (proj1 (most_connected_sorted_top10 [] chain_graph
                    (Connector.most_connected [] chain_graph)
                    (most_connected_is_result [] chain_graph))).
  - vm_compute. reflexivity.
Defined.

(** C9 as stated fails on the chain A <- B <- C, where A and C both
    have one relationship: the statement allows two different ordered
    results, so it does not fix the order of ties. *)
Lemma most_connected_ties_counterexample :
  ¬ (∀ out1 out2,
       Connector.most_connected_rows [] chain_graph out1 →
       Connector.most_connected_rows [] chain_graph out2 → out1 = out2).
Proof.
  intros H.
  set (a := Connector.Connected (VStr "A") "Entity" 1).
  set (b := Connector.Connected (VStr "B") "Entity" 2).
  set (c := Connector.Connected (VStr "C") "Entity" 1).
  assert (Connector.connected_nodes [] chain_graph = [a; b; c]) as Hc
    by (vm_compute; reflexivity).
  assert ([b; a; c] = [b; c; a]) as Heq; [|discriminate].
  apply H; unfold Connector.most_connected_rows, Cypher.ordered_desc; rewrite Hc.
  - exists [b; a; c]. split; [|done]. split; [apply perm_swap|].
    repeat constructor; simpl; lia.
  - exists [b; c; a]. split; [|done]. split.
    + symmetry. apply (Permutation_cons_append [b; c] a).
    + repeat constructor; simpl; lia.
Qed.

(** * Hybrid search *)

Section Words.
Import Py.



Lemma is_space_lower a : is_space (lower_ascii a) = is_space a.
Proof. by destruct a as [[] [] [] [] [] [] [] []]. Qed.




End Words.

Section Scores.
Import VectorSearch.




End Scores.




(** * The semantic index *)

Section Collection.
Import Chroma.
Implicit Types (c : gmap string document)
               (rs : list (string * (string * gmap string value))).

Lemma add_one_present c r : is_Some (c !! r.1) → add_one c r = c.
Proof. intros [d Hd]. unfold add_one. by rewrite Hd. Qed.

Lemma add_one_lookup c r k d :
  c !! k = Some d → add_one c r !! k = Some d.
Proof.
  intros Hk. unfold add_one. destruct (c !! r.1) eqn:E; [done|].
  rewrite lookup_insert_ne; [done|]. congruence.
Qed.

Lemma add_one_own c r : is_Some (add_one c r !! r.1).
Proof.
  unfold add_one. destruct (c !! r.1) eqn:E; [by rewrite E|].
  rewrite lookup_insert_eq. by eexists.
Qed.

Lemma foldl_add_one_lookup c rs k d :
  c !! k = Some d → foldl add_one c rs !! k = Some d.
Proof.
  revert c. induction rs as [|r rs IH]; intros c Hk; [done|].
  simpl. by apply IH, add_one_lookup.
Qed.

(** Every id of the call is in the collection afterwards. *)
Lemma foldl_add_one_dom c rs r :
  r ∈ rs → is_Some (foldl add_one c rs !! r.1).
Proof.
  revert c. induction rs as [|r' rs IH]; intros c Hr.
  { by apply elem_of_nil in Hr. }
  simpl. apply elem_of_cons in Hr as [->|Hr]; [|by apply IH].
  destruct (add_one_own c r') as [d Hd]. exists d.
  by apply foldl_add_one_lookup.
Qed.

(** Adding records whose ids are all present changes nothing. *)
Lemma foldl_add_one_present c rs :
  (∀ r, r ∈ rs → is_Some (c !! r.1)) → foldl add_one c rs = c.
Proof.
  induction rs as [|r rs IH]; intros H; [done|]. simpl.
  rewrite add_one_present by (apply H; by left).
  apply IH. intros; apply H; by right.
Qed.

Lemma add_again documents metadatas documents' metadatas' ids c c1 :
  length documents = length ids → length metadatas = length ids →
  add documents metadatas ids c = Ok c1 →
  add documents' metadatas' ids c1 = Ok c1.
Proof.
  intros Hd Hm. unfold add. destruct ids as [|i ids]; [done|].
  case_bool_decide; [|done]. intros [= <-]. f_equal.
  apply foldl_add_one_present. intros [k [d' m']] Hr. simpl.
  apply elem_of_zip_l in Hr.
  assert (∃ d m, (k, (d, m)) ∈ zip (i :: ids) (zip documents metadatas))
    as (d&m&Hin).
  { apply list_elem_of_lookup in Hr as (j&Hj).
    destruct (lookup_lt_is_Some_2 documents j) as [d Hdj].
    { rewrite Hd. by eapply lookup_lt_Some. }
    destruct (lookup_lt_is_Some_2 metadatas j) as [m Hmj].
    { rewrite Hm. by eapply lookup_lt_Some. }
    exists d, m. apply list_elem_of_lookup. exists j.
    rewrite !lookup_zip_with. rewrite Hj. simpl. rewrite Hdj. simpl.
    by rewrite Hmj. }
  by apply (foldl_add_one_dom c _ (k, (d, m))).
Qed.

End Collection.

Section Reindex.
Import VectorSearch.

Lemma index_entities_again now1 now2 rows rows' c c1 :
  map EntityRow.entity_id rows' = map EntityRow.entity_id rows →
  index_entities now1 rows c = Ok c1 →
  index_entities now2 rows' c1 = Ok c1.
Proof.
  intros Hids. unfold index_entities.
  assert (map (λ row, "entity_" +:+ EntityRow.entity_id row) rows'
          = map (λ row, "entity_" +:+ EntityRow.entity_id row) rows) as ->.
  { rewrite <- !(map_map EntityRow.entity_id (λ s, "entity_" +:+ s)).
    by rewrite Hids. }
  apply add_again; by rewrite ?length_map, ?length_imap.
Qed.

Lemma index_people_again now1 now2 rows rows' c c1 :
  map PersonRow.person_id rows' = map PersonRow.person_id rows →
  index_people now1 rows c = Ok c1 →
  index_people now2 rows' c1 = Ok c1.
Proof.
  intros Hids. unfold index_people.
  assert (map (λ row, "person_" +:+ PersonRow.person_id row) rows'
          = map (λ row, "person_" +:+ PersonRow.person_id row) rows) as ->.
  { rewrite <- !(map_map PersonRow.person_id (λ s, "person_" +:+ s)).
    by rewrite Hids. }
  apply add_again; by rewrite ?length_map, ?length_imap.
Qed.

End Reindex.

(** C8 (as the code has it) — indexing a batch again, identical or with
    updated rows under the same ids, at any later time, leaves the
    collection exactly as the first indexing left it: [Collection.add]
    keeps the record that is stored under an id and adds none, so no
    duplicate appears and the document count stays the same, but the
    stored documents and metadata are those of the first indexing, not
    overwritten. *)
Theorem reindex_keeps_collection :
  ∀ (now1 now2 : nat → string),
    (∀ (entities_df entities_df' : list EntityRow.t) c c1,
       map EntityRow.entity_id entities_df'
       = map EntityRow.entity_id entities_df →
       VectorSearch.index_entities now1 entities_df c = Ok c1 →
       VectorSearch.index_entities now2 entities_df' c1 = Ok c1
       ∧ ∀ c2, VectorSearch.index_entities now2 entities_df' c1 = Ok c2 →
               Chroma.count c2 = Chroma.count c1)
    ∧ (∀ (people_df people_df' : list (PersonRow.t string)) c c1,
         map PersonRow.person_id people_df'
         = map PersonRow.person_id people_df →
         VectorSearch.index_people now1 people_df c = Ok c1 →
         VectorSearch.index_people now2 people_df' c1 = Ok c1
         ∧ ∀ c2, VectorSearch.index_people now2 people_df' c1 = Ok c2 →
                 Chroma.count c2 = Chroma.count c1).
Proof.
  intros now1 now2. split.
  - intros rows rows' c c1 Hids H1.
    pose proof (index_entities_again now1 now2 rows rows' c c1 Hids H1) as H2.
    split; [done|]. intros c2 Hc2. congruence.
  - intros rows rows' c c1 Hids H1.
    pose proof (index_people_again now1 now2 rows rows' c c1 Hids H1) as H2.
    split; [done|]. intros c2 Hc2. congruence.
Qed.

Lemma reindex_keeps_collection_witness :
  VectorSearch.index_entities (λ _, "2025-06-01T00:00:00") [renamed_row]
    first_index = Ok first_index
  ∧ Chroma.count first_index = 1.
Proof.
  split.
  - apply (proj1 (reindex_keeps_collection (λ _, "2025-01-01T00:00:00")
                    (λ _, "2025-06-01T00:00:00")) [sample_row] [renamed_row] ∅).
    + reflexivity.
    + vm_compute. reflexivity.
  - vm_compute. reflexivity.
Defined.

(** C8 as stated fails: after [sample_row] has been indexed, indexing
    the same row again later, or an updated row under the same id, does
    not overwrite the stored record: it keeps the first [indexed_at] and
    the first document text. *)
Lemma reindex_overwrites_counterexample :
  ¬ (∀ c2, VectorSearch.index_entities (λ _, "2025-06-01T00:00:00")
             [sample_row] first_index = Ok c2 →
           c2 !! "entity_MIN001"
           = Some (Chroma.Document
                     (VectorSearch._create_entity_document sample_row)
                     (VectorSearch.entity_metadata "2025-06-01T00:00:00"
                        sample_row)))
  ∧ ¬ (∀ c2, VectorSearch.index_entities (λ _, "2025-06-01T00:00:00")
               [renamed_row] first_index = Ok c2 →
             Chroma.doc_text <$> c2 !! "entity_MIN001"
             = Some (VectorSearch._create_entity_document renamed_row)).
Proof.
  split; intros H.
  - specialize (H first_index ltac:(vm_compute; reflexivity)).
    apply (f_equal (λ o, o ≫= λ d, Chroma.doc_meta d !! "indexed_at")) in H.
    vm_compute in H. discriminate.
  - specialize (H first_index ltac:(vm_compute; reflexivity)).
    vm_compute in H. discriminate.
Qed.

(** * Imports on a graph that already holds data *)

Section GrowthLemmas.
Import Cypher Identity KG Growth.
Implicit Types (s : list (string * option value) * list (nat * string * nat)).

Lemma node_phase_new l keys s :
  ∃ e, node_phase l keys s = (s.1 ++ e, s.2)
       ∧ ∀ x, x ∈ e → ∃ k, k ∈ keys ∧ x = ident l k.
Proof.
  unfold node_phase.
  destruct (adds_extends s.1 (map (ident l) keys)) as (e&He&Hin).
  exists e. split; [by rewrite He|].
  intros x Hx. apply Hin, list_elem_of_fmap in Hx as (k&->&Hk). eauto.
Qed.

Lemma rel_phase_new ty l1 l2 pairs s :
  ∃ e, rel_phase ty l1 l2 pairs s = (s.1, s.2 ++ e)
       ∧ ∀ t, t ∈ e → t ∈ triples ty l1 l2 s.1 pairs.
Proof.
  unfold rel_phase.
  destruct (adds_extends s.2 (triples ty l1 l2 s.1 pairs)) as (e&He&Hin).
  exists e. split; [by rewrite He|]. exact Hin.
Qed.

Lemma triples_type ty l1 l2 ids pairs t :
  t ∈ triples ty l1 l2 ids pairs → t.1.2 = ty.
Proof. by intros (a&b&i&j&_&_&_&->)%elem_of_triples. Qed.

Lemma extends_with_refl labels types g : extends_with labels types g g.
Proof.
  exists [], []. rewrite !app_nil_r.
  repeat split; intros ? []%elem_of_nil.
Qed.

Lemma extends_with_trans labels types g1 g2 g3 :
  extends_with labels types g1 g2 → extends_with labels types g2 g3 →
  extends_with labels types g1 g3.
Proof.
  intros (n1&e1&Hn1&He1&Hl1&Ht1) (n2&e2&Hn2&He2&Hl2&Ht2).
  exists (n1 ++ n2), (e1 ++ e2).
  rewrite Hn2, He2, Hn1, He1, !app_assoc.
  repeat split; intros ? [?|?]%elem_of_app; auto.
Qed.

Lemma extends_with_weaken labels types labels' types' g g' :
  labels ⊆ labels' → types ⊆ types' →
  extends_with labels types g g' → extends_with labels' types' g g'.
Proof.
  intros Hl Ht (ns&es&Hn&He&Hln&Hte).
  exists ns, es. repeat split; auto.
Qed.

Lemma phases_extend l keys ty l1 l2 pairs g g' :
  skeleton g' = rel_phase ty l1 l2 pairs (node_phase l keys (skeleton g)) →
  extends_with [l] [ty] g g'.
Proof.
  intros H. unfold extends_with. rewrite H.
  destruct (node_phase_new l keys (skeleton g)) as (ns&->&Hns).
  destruct (rel_phase_new ty l1 l2 pairs ((skeleton g).1 ++ ns, (skeleton g).2))
    as (es&->&Hes).
  exists ns, es. cbn [fst snd] in *. repeat split.
  - intros x (k&_&->)%Hns. apply list_elem_of_singleton. done.
  - intros t Ht%Hes%triples_type. apply list_elem_of_singleton. done.
Qed.

Lemma extends_node_exists labels types g g' l v :
  extends_with labels types g g' → node_exists l v g → node_exists l v g'.
Proof.
  intros (ns&es&Hn&_) H. rewrite node_exists_skeleton in *.
  rewrite Hn. apply elem_of_app. by left.
Qed.

Lemma extends_edge_exists labels types g g' l1 a ty l2 b :
  extends_with labels types g g' →
  edge_exists l1 a ty l2 b g → edge_exists l1 a ty l2 b g'.
Proof.
  intros (ns&es&Hn&He&_) H. rewrite edge_exists_skeleton in *.
  destruct H as (i&j&Hi&Hj&Hij). exists i, j.
  rewrite Hn, He. repeat split.
  - by apply lookup_app_l_Some.
  - by apply lookup_app_l_Some.
  - apply elem_of_app. by left.
Qed.

Lemma import_entities_extends clk rows w :
  extends_with ["Entity"; "Policy"] ["REPORTS_TO"; "ALIGNED_TO"]
    (w_graph w) (w_graph (import_entities clk rows w)).
Proof.
  set (g1 := merge_rels "Entity" "entity_id" "Entity" "entity_id" "REPORTS_TO"
               (hierarchy_relationships 0 rows)
               (merge_nodes "Entity" "entity_id" (entity_rows 0 rows) (w_graph w))).
  apply (extends_with_trans _ _ _ g1).
  - apply (extends_with_weaken ["Entity"] ["REPORTS_TO"]); [set_solver..|].
    apply (phases_extend _ (map EntityRow.entity_id rows) _ "Entity" "Entity"
             (hierarchy_relationships 0 rows).*1).
    subst g1. rewrite (merge_rels_skeleton "Entity" "Entity").
    rewrite (merge_nodes_skeleton "Entity").
    + unfold entity_rows. by rewrite fmap_fst_map.
    + intros row (p&->&_)%list_elem_of_fmap. by apply not_in_keys.
  - apply (extends_with_weaken ["Policy"] ["ALIGNED_TO"]); [set_solver..|].
    apply (phases_extend _ (elements (all_policies rows)) _ "Entity" "Policy"
             (alignments 0 rows).*1).
    rewrite import_entities_skeleton. do 2 f_equal.
    subst g1. rewrite (merge_rels_skeleton "Entity" "Entity").
    rewrite (merge_nodes_skeleton "Entity").
    + unfold entity_rows. by rewrite fmap_fst_map.
    + intros row (p&->&_)%list_elem_of_fmap. by apply not_in_keys.
Qed.

Lemma import_people_extends clk rows w :
  extends_with ["Person"] ["WORKS_FOR"]
    (w_graph w) (w_graph (import_people clk rows w)).
Proof. eapply phases_extend, import_people_skeleton. Qed.

Lemma import_partners_extends clk rows w :
  extends_with ["Company"] ["PARTNERS_WITH"]
    (w_graph w) (w_graph (import_partners clk rows w)).
Proof. eapply phases_extend, import_partners_skeleton. Qed.

Lemma import_people_NoDup clk rows w :
  unique_identities (w_graph w) →
  unique_identities (w_graph (import_people clk rows w)).
Proof.
  unfold unique_identities. intros [H1 H2]. rewrite import_people_skeleton.
  split; [by apply node_phase_NoDup | by apply rel_phase_NoDup].
Qed.

Lemma import_partners_NoDup clk rows w :
  unique_identities (w_graph w) →
  unique_identities (w_graph (import_partners clk rows w)).
Proof.
  unfold unique_identities. intros [H1 H2]. rewrite import_partners_skeleton.
  split; [by apply node_phase_NoDup | by apply rel_phase_NoDup].
Qed.

Lemma import_people_edge clk rows w p :
  p ∈ rows → node_exists "Entity" (PersonRow.entity_id p) (w_graph w) →
  edge_exists "Person" (PersonRow.person_id p) "WORKS_FOR"
    "Entity" (PersonRow.entity_id p) (w_graph (import_people clk rows w)).
Proof.
  intros Hp He.
  pose proof (import_people_person clk rows w p Hp) as Hc.
  rewrite edge_exists_skeleton, node_exists_skeleton in *.
  rewrite import_people_skeleton in *. cbn [rel_phase fst snd] in *.
  set (s1 := node_phase "Person" _ _) in *.
  assert (ident "Entity" (PersonRow.entity_id p) ∈ s1.1) as He1
    by by apply node_phase_mono.
  apply list_elem_of_lookup in Hc as (i&Hi).
  apply list_elem_of_lookup in He1 as (j&Hj).
  exists i, j. split; [done|]. split; [done|].
  apply elem_of_adds. right. apply elem_of_triples.
  exists (PersonRow.person_id p), (PersonRow.entity_id p), i, j.
  split; [|done]. apply list_elem_of_fmap. by exists p.
Qed.

End GrowthLemmas.

(** X1 — An import only adds to the graph.  Every node and edge that
    was there keeps its position, label, identity key, end points and
    type; [import_entities] adds only Entity and Policy nodes and
    REPORTS_TO and ALIGNED_TO edges, [import_people] only Person nodes
    and WORKS_FOR edges, [import_partners] only Company nodes and
    PARTNERS_WITH edges. *)
Theorem imports_only_extend :
  ∀ (clk : nat → Z) (entities_df : list EntityRow.t)
    (people_df : list (PersonRow.t string))
    (partners_df : list (PartnerRow.t string pyfloat)) (w : world),
    Growth.extends_with ["Entity"; "Policy"] ["REPORTS_TO"; "ALIGNED_TO"]
      (w_graph w) (w_graph (KG.import_entities clk entities_df w))
    ∧ Growth.extends_with ["Person"] ["WORKS_FOR"]
        (w_graph w) (w_graph (KG.import_people clk people_df w))
    ∧ Growth.extends_with ["Company"] ["PARTNERS_WITH"]
        (w_graph w) (w_graph (KG.import_partners clk partners_df w)).
Proof.
  intros. split; [apply import_entities_extends|].
  split; [apply import_people_extends | apply import_partners_extends].
Qed.

(** X2 — The imports keep identities unique without help from the
    uniqueness constraints: when no two nodes of the graph share label
    and identity key and no two edges share source, type and target,
    the same holds after [import_entities], [import_people] and
    [import_partners] run one after the other, whatever the batches
    repeat. *)
Theorem imports_keep_identities_unique :
  ∀ (clk1 clk2 clk3 : nat → Z) (entities_df : list EntityRow.t)
    (people_df : list (PersonRow.t string))
    (partners_df : list (PartnerRow.t string pyfloat)) (w : world),
    Growth.unique_identities (w_graph w) →
    Growth.unique_identities
      (w_graph (KG.import_partners clk3 partners_df
                  (KG.import_people clk2 people_df
                     (KG.import_entities clk1 entities_df w)))).
Proof.
  intros * [H1 H2]. apply import_partners_NoDup, import_people_NoDup.
  by apply import_entities_NoDup.
Qed.

Lemma imports_keep_identities_unique_witness :
  Growth.unique_identities
    (w_graph (KG.import_partners (λ k, Z.of_nat k) []
                (KG.import_people (λ k, Z.of_nat k) [orphan_person; orphan_person]
                   (KG.import_entities (λ k, Z.of_nat k)
                      [sample_row; sample_row] (World empty_graph []))))).
Proof.
  apply imports_keep_identities_unique.
  split; apply NoDup_nil_2.
Defined.

(** * Validation and what the imports do with a validated batch *)

Section Validation.
Import Cypher Identity KG Growth Pipeline.

Lemma filter_nil_iff {A} (P : A → Prop) `{∀ x, Decision (P x)} (l : list A) :
  filter P l = [] ↔ ∀ x, x ∈ l → ¬ P x.
Proof.
  split; [|apply filter_none].
  intros Hnil x Hx HP.
  assert (x ∈ filter P l) as Hin by by apply list_elem_of_filter.
  rewrite Hnil in Hin. by apply elem_of_nil in Hin.
Qed.

Lemma warning_if_nil {A} (l : list A) (msg : string) :
  (if bool_decide (0 < length l) then [(WARNING, msg)] else []) = []
  ↔ l = [].
Proof.
  destruct l as [|x l]; [done|]. cbn [length].
  rewrite bool_decide_eq_true_2 by lia. done.
Qed.

Lemma validate_nil_iff entities people partners :
  _validate_relationships entities people partners = [] ↔
  (∀ p, p ∈ people →
        PersonRow.entity_id p ∈ map EntityRow.entity_id entities)
  ∧ (∀ c, c ∈ partners →
          PartnerRow.entity_id c ∈ map EntityRow.entity_id entities)
  ∧ (∀ r par, r ∈ entities → EntityRow.parent_org r = Some par →
              par ∈ map EntityRow.entity_id entities).
Proof.
  unfold _validate_relationships.
  rewrite !app_nil, !warning_if_nil, !filter_nil_iff.
  set (ids := map EntityRow.entity_id entities).
  assert (∀ v : string, ¬ (v ∉ (list_to_set ids : gset string)) ↔ v ∈ ids) as Hin.
  { intros v. rewrite elem_of_list_to_set. split; [apply dec_stable | auto]. }
  assert ((∀ x, x ∈ entities →
              ¬ parent_org_invalid (list_to_set ids) x = true)
          ↔ ∀ r par, r ∈ entities → EntityRow.parent_org r = Some par →
                     par ∈ ids) as Hpar.
  { unfold parent_org_invalid. split.
    - intros H r par Hr Hpar. specialize (H r Hr). rewrite Hpar in H.
      apply Hin. intros Hn. apply H. by apply bool_decide_eq_true_2.
    - intros H r Hr. destruct (EntityRow.parent_org r) as [par|] eqn:E; [|done].
      intros Hb%bool_decide_eq_true_1. apply Hb.
      rewrite elem_of_list_to_set. by apply (H r). }
  rewrite Hpar. setoid_rewrite Hin. done.
Qed.

Lemma validate_levels entities people partners e :
  e ∈ _validate_relationships entities people partners → e.1 = WARNING.
Proof.
  unfold _validate_relationships. rewrite !elem_of_app.
  intros [H|[H|H]]; case_bool_decide; 
    solve [by apply elem_of_nil in H | by apply list_elem_of_singleton in H as ->].
Qed.

Lemma validate_length entities people partners :
  length (_validate_relationships entities people partners) ≤ 3.
Proof.
  unfold _validate_relationships. rewrite !length_app.
  repeat case_bool_decide; simpl; lia.
Qed.

End Validation.

(** X3 — [_validate_relationships] logs nothing exactly when every
    foreign key of the three batches is an [entity_id] of the entity
    batch: every person's and every partner's [entity_id] and every
    [parent_org] that is present.  What it logs is at most three
    records, all of level WARNING; it never raises and never removes a
    row. *)
Theorem validation_silent_iff_keys_valid :
  ∀ (entities_df : list EntityRow.t) (people_df : list (PersonRow.t string))
    (partners_df : list (PartnerRow.t string pyfloat)),
    (Pipeline._validate_relationships entities_df people_df partners_df = []
     ↔ (∀ p, p ∈ people_df →
             PersonRow.entity_id p ∈ map EntityRow.entity_id entities_df)
       ∧ (∀ c, c ∈ partners_df →
               PartnerRow.entity_id c ∈ map EntityRow.entity_id entities_df)
       ∧ (∀ r par, r ∈ entities_df → EntityRow.parent_org r = Some par →
                   par ∈ map EntityRow.entity_id entities_df))
    ∧ length (Pipeline._validate_relationships entities_df people_df
                partners_df) ≤ 3
    ∧ ∀ e, e ∈ Pipeline._validate_relationships entities_df people_df
                 partners_df → e.1 = WARNING.
Proof.
  intros. split; [apply validate_nil_iff|].
  split; [apply validate_length|]. apply validate_levels.
Qed.

(** X4 — A batch that [_validate_relationships] passes without a
    warning is imported completely: after [import_entities],
    [import_people] and [import_partners] have run in this order (the
    order of [load_to_neo4j]), on any graph, every person has its
    WORKS_FOR edge, every partner its PARTNERS_WITH edge and every
    entity with a [parent_org] its REPORTS_TO edge. *)
Theorem validated_batch_fully_linked :
  ∀ (clk1 clk2 clk3 : nat → Z) (entities_df : list EntityRow.t)
    (people_df : list (PersonRow.t string))
    (partners_df : list (PartnerRow.t string pyfloat)) (w : world),
    Pipeline._validate_relationships entities_df people_df partners_df = [] →
    let g := w_graph (KG.import_partners clk3 partners_df
                        (KG.import_people clk2 people_df
                           (KG.import_entities clk1 entities_df w))) in
    (∀ p, p ∈ people_df →
          Identity.edge_exists "Person" (PersonRow.person_id p) "WORKS_FOR"
            "Entity" (PersonRow.entity_id p) g)
    ∧ (∀ c, c ∈ partners_df →
            Identity.edge_exists "Company" (PartnerRow.partner_id c)
              "PARTNERS_WITH" "Entity" (PartnerRow.entity_id c) g)
    ∧ (∀ r par, r ∈ entities_df → EntityRow.parent_org r = Some par →
                Identity.edge_exists "Entity" (EntityRow.entity_id r)
                  "REPORTS_TO" "Entity" par g).
Proof.
  intros clk1 clk2 clk3 E P Pa w (HP&HPa&HE)%validate_nil_iff g. subst g.
  set (w1 := KG.import_entities clk1 E w).
  set (w2 := KG.import_people clk2 P w1).
  assert (∀ v, v ∈ map EntityRow.entity_id E →
               Identity.node_exists "Entity" v (w_graph w1)) as Hent.
  { intros v (r&->&Hr)%list_elem_of_fmap. by apply import_entities_node. }
  split; [|split].
  - intros p Hp.
    eapply extends_edge_exists; [apply import_partners_extends|].
    apply import_people_edge; [done|]. by apply Hent, HP.
  - intros c Hc. apply import_partners_edge; [done|].
    eapply extends_node_exists; [apply import_people_extends|].
    by apply Hent, HPa.
  - intros r par Hr Hpar.
    eapply extends_edge_exists; [apply import_partners_extends|].
    eapply extends_edge_exists; [apply import_people_extends|].
    apply import_entities_edge; [done|done|]. apply Hent. by eapply HE.
Qed.

Lemma validated_batch_fully_linked_witness :
  Identity.edge_exists "Entity" "B" "REPORTS_TO" "Entity" "A"
    (w_graph (KG.import_partners (λ k, Z.of_nat k) []
                (KG.import_people (λ k, Z.of_nat k) []
                   (KG.import_entities (λ k, Z.of_nat k)
                      [chain_row "A" None; chain_row "B" (Some "A")]
                      (World empty_graph []))))).
Proof.
  refine (proj2 (proj2 (validated_batch_fully_linked
            (λ k, Z.of_nat k) (λ k, Z.of_nat k) (λ k, Z.of_nat k)
            [chain_row "A" None; chain_row "B" (Some "A")] [] []
            (World empty_graph []) _)) (chain_row "B" (Some "A")) "A" _ _).
  - vm_compute. reflexivity.
  - apply list_elem_of_In. simpl. auto.
  - reflexivity.
Defined.

(** * The counts the imports log *)

Section Counts.
Import Cypher Identity KG Growth.

Lemma filter_unique_le {A B} `{EqDecision B} (f : A → B) (P : A → bool) x l :
  (∀ y, P y = bool_decide (f y = x)) → NoDup (map f l) →
  length (filter (λ y, P y = true) l) ≤ 1.
Proof.
  intros HP. induction l as [|y l IH]; [simpl; lia|].
  cbn [map]. intros [Hy Hnd]%NoDup_cons.
  destruct (P y) eqn:E.
  - rewrite filter_cons_True by done.
    rewrite (filter_none (λ y, P y = true) l); [simpl; lia|].
    intros z Hz Pz. rewrite HP in E, Pz.
    apply bool_decide_eq_true_1 in E, Pz.
    apply Hy. rewrite E, <- Pz. apply list_elem_of_fmap. by exists z.
  - rewrite filter_cons_False by (by rewrite E). by apply IH.
Qed.

Lemma filter_existsb_ge {A} (P : A → bool) l :
  existsb P l = true → 1 ≤ length (filter (λ y, P y = true) l).
Proof.
  intros (x&Hx&Px)%existsb_elem_of.
  assert (x ∈ filter (λ y, P y = true) l) as Hin
    by by apply list_elem_of_filter.
  destruct (filter _ l); [by apply elem_of_nil in Hin | simpl; lia].
Qed.

Lemma merge_count_unique {A B} `{EqDecision B} (f : A → B) (P : A → bool) x l :
  (∀ y, P y = bool_decide (f y = x)) → NoDup (map f l) →
  merge_count P l = 1.
Proof.
  intros HP Hnd. unfold merge_count. destruct (existsb P l) eqn:E; [|done].
  pose proof (filter_unique_le f P x l HP Hnd).
  pose proof (filter_existsb_ge P l E). lia.
Qed.

Lemma add_absent_NoDup {A} `{EqDecision A} (l : list A) x :
  NoDup l → NoDup (add_absent l x).
Proof. intros H. by apply (adds_NoDup l [x]). Qed.

Lemma merge_nodes_count_unique l rows ns :
  (∀ row, row ∈ rows → key_of l ∉ row.2.*1) →
  NoDup (map node_identity ns) →
  merge_nodes_count l (key_of l) rows ns = length rows.
Proof.
  revert ns. induction rows as [|row rows IH]; intros ns Hk Hnd; [done|].
  cbn [merge_nodes_count length].
  rewrite (merge_count_unique node_identity _ (ident l row.1)); [| |done].
  - rewrite IH; [done| |].
    + intros r Hr. apply Hk. by right.
    + rewrite merge_node_row_identity by (apply Hk; by left).
      by apply add_absent_NoDup.
  - intros y. apply node_has_identity.
Qed.

Lemma merge_pairs_count_unique ty kvs ps rs :
  NoDup (map rel_identity rs) →
  merge_pairs_count ty kvs ps rs = length ps.
Proof.
  revert rs. induction ps as [|ij ps IH]; intros rs Hnd; [done|].
  cbn [merge_pairs_count length].
  rewrite (merge_count_unique rel_identity _ (ij.1, ty, ij.2)); [| |done].
  - rewrite IH; [done|]. rewrite merge_rel_pair_identity.
    by apply add_absent_NoDup.
  - intros y. apply rel_is_identity.
Qed.

Lemma find_all_length {A} (P : A → bool) l i :
  length (find_all P l i) = length (filter (λ y, P y = true) l).
Proof.
  revert i. induction l as [|x l IH]; intros i; [done|]. cbn [find_all].
  rewrite length_app, IH. destruct (P x) eqn:E.
  - by rewrite filter_cons_True.
  - by rewrite filter_cons_False by (by rewrite E).
Qed.

Lemma find_all_unique l v ns :
  NoDup (map node_identity ns) →
  length (find_all (node_has l (key_of l) v) ns 0) ≤ 1.
Proof.
  intros Hnd. rewrite find_all_length.
  apply (filter_unique_le node_identity _ (ident l v)); [|done].
  intros y. apply node_has_identity.
Qed.

Lemma merge_rels_count_unique l1 l2 ty rows ns rs :
  NoDup (map node_identity ns) → NoDup (map rel_identity rs) →
  merge_rels_count l1 (key_of l1) l2 (key_of l2) ty rows ns rs
  = length (filter (λ row : string * string * list (string * value),
                      find_all (node_has l1 (key_of l1) row.1.1) ns 0 ≠ []
                      ∧ find_all (node_has l2 (key_of l2) row.1.2) ns 0 ≠ [])
                   rows).
Proof.
  intros Hns. revert rs. induction rows as [|row rows IH]; intros rs Hrs; [done|].
  cbn [merge_rels_count]. rewrite merge_pairs_count_unique by done.
  rewrite IH.
  2:{ rewrite merge_rel_row_identity. by apply adds_NoDup. }
  unfold bound_pairs. rewrite length_prod.
  pose proof (find_all_unique l1 row.1.1 ns Hns) as H1.
  pose proof (find_all_unique l2 row.1.2 ns Hns) as H2.
  destruct (find_all (node_has l1 _ _) ns 0) as [|i [|]] eqn:E1;
    [|destruct (find_all (node_has l2 _ _) ns 0) as [|j [|]] eqn:E2|];
    cbn [length] in *; try lia.
  - rewrite filter_cons_False; [simpl; lia|]. intros [? _]. done.
  - rewrite filter_cons_False; [simpl; lia|]. intros [_ ?]. done.
  - rewrite filter_cons_True; [simpl; lia|]. cbn beta. by rewrite E1, E2.
Qed.

Lemma match_node_ident l v g :
  match_node l (key_of l) v g
  = find_all (λ x, bool_decide (x = ident l v)) (skeleton g).1 0.
Proof.
  unfold match_node, skeleton. cbn [fst]. rewrite find_all_map.
  apply find_all_ext. intros n _. apply node_has_identity.
Qed.

Lemma extends_match_node labels types g g' l v :
  extends_with labels types g g' → l ∉ labels →
  match_node l (key_of l) v g' = match_node l (key_of l) v g.
Proof.
  intros (ns&es&Hn&_&Hl&_) Hnot. rewrite !match_node_ident, Hn.
  apply find_all_ident_app. intros Hin%Hl. by apply Hnot.
Qed.

Lemma match_node_nonempty l v g :
  match_node l (key_of l) v g ≠ [] ↔ node_exists l v g.
Proof.
  rewrite node_exists_skeleton, match_node_ident.
  rewrite find_all_nil_iff. split.
  - intros H. apply dec_stable. intros Hn. apply H. intros x Hx.
    apply bool_decide_eq_false_2. by intros ->.
  - intros Hin H. specialize (H _ Hin). by rewrite bool_decide_eq_true_2 in H.
Qed.

Lemma length_filter_fmap {A B} (f : A → B) (P : B → Prop)
    `{∀ x, Decision (P x)} (l : list A) :
  length (filter P (map f l)) = length (filter (λ x, P (f x)) l).
Proof.
  induction l as [|x l IH]; [done|]. cbn [map].
  destruct (decide (P (f x))).
  - rewrite !filter_cons_True by done. simpl. by rewrite IH.
  - by rewrite !filter_cons_False.
Qed.

Lemma length_filter_iff {A} (P Q : A → Prop) `{∀ x, Decision (P x)}
    `{∀ x, Decision (Q x)} (l : list A) :
  (∀ x, x ∈ l → P x ↔ Q x) → length (filter P l) = length (filter Q l).
Proof.
  induction l as [|x l IH]; intros H1; [done|].
  assert (P x ↔ Q x) as Hx by (apply H1; by left).
  destruct (decide (P x)).
  - rewrite !filter_cons_True by tauto. simpl. rewrite IH; [done|].
    intros; apply H1. by right.
  - rewrite !filter_cons_False by tauto. apply IH. intros; apply H1. by right.
Qed.

(** The count of the relationship statement of an import whose node
    statement has just merged the source of every row. *)
Lemma import_rel_count l1 l2 ty (rows : list (string * string * list (string * value)))
    node_rows g :
  l1 ≠ l2 → (∀ row, row ∈ node_rows → key_of l1 ∉ row.2.*1) →
  (∀ row, row ∈ rows → row.1.1 ∈ node_rows.*1) →
  unique_identities g →
  let g1 := merge_nodes l1 (key_of l1) node_rows g in
  merge_rels_count l1 (key_of l1) l2 (key_of l2) ty rows (nodes g1) (rels g1)
  = length (filter (λ row : string * string * list (string * value),
                      match_node l2 (key_of l2) row.1.2 g ≠ []) rows).
Proof.
  intros Hne Hk Hsrc [Hn Hr] g1.
  assert (skeleton g1 = node_phase l1 node_rows.*1 (skeleton g)) as Hs
    by by apply merge_nodes_skeleton.
  assert (extends_with [l1] [ty] g g1) as Hext.
  { eapply (phases_extend l1 node_rows.*1 ty l1 l2 []). rewrite Hs.
    unfold rel_phase. by destruct (node_phase _ _ _). }
  rewrite merge_rels_count_unique.
  - apply length_filter_iff. intros row Hrow.
    change (find_all (node_has ?l ?k ?v) (nodes g1) 0) with (match_node l k v g1).
    rewrite (extends_match_node [l1] [ty] g g1 l2) by (done || set_solver).
    split; [by intros [_ ?]|]. intros H. split; [|done].
    apply match_node_nonempty, node_exists_skeleton. rewrite Hs.
    apply node_phase_keys. by apply Hsrc.
  - change (NoDup (skeleton g1).1). rewrite Hs. by apply node_phase_NoDup.
  - subst g1. exact Hr.
Qed.

End Counts.

Section ImportLogs.
Import Cypher Identity KG Growth.

Lemma import_people_log_exact clk rows w :
  unique_identities (w_graph w) →
  w_log (import_people clk rows w)
  = w_log w
    ++ [(INFO, "Importing " +:+ pretty (length rows) +:+ " people...");
        (INFO, "Created/updated " +:+ pretty (length rows) +:+ " person nodes");
        (INFO, "Created "
               +:+ pretty (length (filter
                     (λ p, match_node "Entity" "entity_id"
                             (PersonRow.entity_id p) (w_graph w) ≠ []) rows))
               +:+ " WORKS_FOR relationships")].
Proof.
  intros Hu. unfold import_people. cbn [w_log log run w_graph].
  rewrite <- !app_assoc. cbn [app]. do 3 f_equal; [|f_equal].
  - do 3 f_equal.
    rewrite (merge_nodes_count_unique "Person"); [| |apply Hu].
    + unfold person_rows. by rewrite length_map.
    + apply person_rows_no_key.
  - do 3 f_equal.
    rewrite (import_rel_count "Person" "Entity" "WORKS_FOR"); [|done| | |done].
    + unfold works_for_relationships. by rewrite length_filter_fmap.
    + apply person_rows_no_key.
    + intros row (p&->&Hp)%list_elem_of_fmap. rewrite person_rows_keys.
      apply list_elem_of_fmap. by exists p.
Qed.

Lemma company_rows_no_key t rows row :
  row ∈ company_rows t rows → "partner_id" ∉ row.2.*1.
Proof. intros (p&->&_)%list_elem_of_fmap. by apply not_in_keys. Qed.

Lemma import_partners_log_exact clk rows w :
  unique_identities (w_graph w) →
  w_log (import_partners clk rows w)
  = w_log w
    ++ [(INFO, "Importing " +:+ pretty (length rows) +:+ " partners...");
        (INFO, "Created/updated " +:+ pretty (length rows) +:+ " company nodes");
        (INFO, "Created "
               +:+ pretty (length (filter
                     (λ p, match_node "Entity" "entity_id"
                             (PartnerRow.entity_id p) (w_graph w) ≠ []) rows))
               +:+ " PARTNERS_WITH relationships")].
Proof.
  intros Hu. unfold import_partners. cbn [w_log log run w_graph].
  rewrite <- !app_assoc. cbn [app]. do 3 f_equal; [|f_equal].
  - do 3 f_equal.
    rewrite (merge_nodes_count_unique "Company"); [| |apply Hu].
    + unfold company_rows. by rewrite length_map.
    + apply company_rows_no_key.
  - do 3 f_equal.
    rewrite (import_rel_count "Company" "Entity" "PARTNERS_WITH"); [|done| | |done].
    + unfold partnership_relationships. by rewrite length_filter_fmap.
    + apply company_rows_no_key.
    + intros row (p&->&Hp)%list_elem_of_fmap.
      unfold company_rows. rewrite fmap_fst_map.
      apply list_elem_of_fmap. by exists p.
Qed.

End ImportLogs.

Section EntityLog.
Import Cypher Identity KG Growth.

Lemma length_filter_all {A} (P : A → Prop) `{∀ x, Decision (P x)} (l : list A) :
  (∀ x, x ∈ l → P x) → length (filter P l) = length l.
Proof.
  induction l as [|x l IH]; intros H1; [done|].
  rewrite filter_cons_True by (apply H1; by left).
  simpl. rewrite IH; [done|]. intros; apply H1. by right.
Qed.

Lemma entity_rows_no_key t rows row :
  row ∈ entity_rows t rows → "entity_id" ∉ row.2.*1.
Proof. intros (p&->&_)%list_elem_of_fmap. by apply not_in_keys. Qed.

Lemma policy_rows_no_key t rows row :
  row ∈ policy_rows t rows → "name" ∉ row.2.*1.
Proof. intros (p&->&_)%list_elem_of_fmap. by apply not_in_keys. Qed.

Lemma create_entity_hierarchy_graph t rows w :
  w_graph (_create_entity_hierarchy t rows w)
  = merge_rels "Entity" "entity_id" "Entity" "entity_id" "REPORTS_TO"
      (hierarchy_relationships t rows) (w_graph w).
Proof.
  unfold _create_entity_hierarchy.
  destruct (hierarchy_relationships t rows); [|done].
  cbn [w_graph log run]. unfold merge_rels. cbn [foldl].
  by destruct (w_graph w).
Qed.

Lemma create_entity_hierarchy_log t rows w :
  w_log (_create_entity_hierarchy t rows w)
  = w_log w
    ++ [(INFO, "Creating organizational hierarchy...")]
    ++ match hierarchy_relationships t rows with
       | [] => []
       | _ =>
           [(INFO, "Created "
                   +:+ pretty (merge_rels_count "Entity" "entity_id" "Entity"
                                 "entity_id" "REPORTS_TO"
                                 (hierarchy_relationships t rows)
                                 (nodes (w_graph w)) (rels (w_graph w)))
                   +:+ " hierarchical relationships")]
       end.
Proof.
  unfold _create_entity_hierarchy.
  destruct (hierarchy_relationships t rows); cbn [w_log log run w_graph].
  - by rewrite app_nil_r.
  - by rewrite <- app_assoc.
Qed.

Lemma import_entities_log_exact clk rows w :
  unique_identities (w_graph w) →
  w_log (import_entities clk rows w)
  = w_log w
    ++ [(INFO, "Importing " +:+ pretty (length rows) +:+ " entities...");
        (INFO, "Created/updated " +:+ pretty (length rows) +:+ " entity nodes");
        (INFO, "Creating organizational hierarchy...")]
    ++ match hierarchy_relationships (clk 1) rows with
       | [] => []
       | _ =>
           [(INFO, "Created "
                   +:+ pretty (length (filter
                         (λ row : string * string * list (string * value),
                            match_node "Entity" "entity_id" row.1.2
                              (w_graph (import_entities clk rows w)) ≠ [])
                         (hierarchy_relationships (clk 1) rows)))
                   +:+ " hierarchical relationships")]
       end
    ++ [(INFO, "Creating policy alignments...");
        (INFO, "Created " +:+ pretty (size (all_policies rows))
               +:+ " policy nodes");
        (INFO, "Created " +:+ pretty (length (alignments (clk 3) rows))
               +:+ " policy alignment relationships")].
Proof.
  intros [Hn Hr].
  set (g' := w_graph (import_entities clk rows w)).
  set (g1 := merge_nodes "Entity" "entity_id" (entity_rows (clk 0) rows) (w_graph w)).
  assert (skeleton g1 = node_phase "Entity" (map EntityRow.entity_id rows)
                          (skeleton (w_graph w))) as Hs1.
  { subst g1. rewrite (merge_nodes_skeleton "Entity").
    - unfold entity_rows. by rewrite fmap_fst_map.
    - apply entity_rows_no_key. }
  assert (NoDup (map node_identity (nodes g1))) as Hn1.
  { change (NoDup (skeleton g1).1). rewrite Hs1. by apply node_phase_NoDup. }
  set (g2 := merge_rels "Entity" "entity_id" "Entity" "entity_id" "REPORTS_TO"
               (hierarchy_relationships (clk 1) rows) g1).
  assert (skeleton g2 = rel_phase "REPORTS_TO" "Entity" "Entity"
                          (hierarchy_relationships (clk 1) rows).*1 (skeleton g1))
    as Hs2 by apply (merge_rels_skeleton "Entity" "Entity").
  assert (NoDup (map node_identity (nodes g2))) as Hn2.
  { change (NoDup (skeleton g2).1). by rewrite Hs2. }
  assert (NoDup (map rel_identity (rels g2))) as Hr2.
  { change (NoDup (skeleton g2).2). rewrite Hs2. apply rel_phase_NoDup.
    rewrite Hs1. exact Hr. }
  set (g3 := merge_nodes "Policy" "name" (policy_rows (clk 2) rows) g2).
  assert (skeleton g3 = node_phase "Policy" (elements (all_policies rows))
                          (skeleton g2)) as Hs3.
  { subst g3. rewrite (merge_nodes_skeleton "Policy").
    - unfold policy_rows. rewrite fmap_fst_map. f_equal. apply map_id.
    - apply policy_rows_no_key. }
  assert (g' = merge_rels "Entity" "entity_id" "Policy" "name" "ALIGNED_TO"
                 (alignments (clk 3) rows) g3) as Hg'.
  { subst g'. unfold import_entities, _create_policy_alignments.
    cbn [w_graph log run]. rewrite create_entity_hierarchy_graph. done. }
  assert (∀ v, match_node "Entity" "entity_id" v g'
               = match_node "Entity" "entity_id" v g1) as Hsame.
  { intros v. rewrite !(match_node_ident "Entity").
    rewrite Hg', (merge_rels_skeleton "Entity" "Policy"). cbn [rel_phase fst].
    rewrite Hs3. destruct (node_phase_new "Policy" (elements (all_policies rows))
                             (skeleton g2)) as (e&->&He).
    cbn [fst]. rewrite Hs2. cbn [rel_phase fst].
    apply find_all_ident_app. by intros (k&_&[=])%He. }
  unfold import_entities.
  unfold _create_policy_alignments. cbn [w_log log run w_graph].
  rewrite !create_entity_hierarchy_graph. cbn [w_log log run w_graph].
  rewrite create_entity_hierarchy_log. cbn [w_log log run w_graph].
  fold g1. fold g2. fold g3.
  assert (merge_nodes_count "Entity" "entity_id" (entity_rows (clk 0) rows)
            (nodes (w_graph w)) = length rows) as ->.
  { rewrite (merge_nodes_count_unique "Entity"); [| |done].
    - unfold entity_rows. by rewrite length_map.
    - apply entity_rows_no_key. }
  assert (merge_nodes_count "Policy" "name" (policy_rows (clk 2) rows) (nodes g2)
          = size (all_policies rows)) as ->.
  { rewrite (merge_nodes_count_unique "Policy"); [| |done].
    - unfold policy_rows. by rewrite length_map.
    - apply policy_rows_no_key. }
  assert (merge_rels_count "Entity" "entity_id" "Policy" "name" "ALIGNED_TO"
            (alignments (clk 3) rows) (nodes g3) (rels g3)
          = length (alignments (clk 3) rows)) as ->.
  { rewrite (merge_rels_count_unique "Entity" "Policy").
    - apply length_filter_all. intros [[a b] kvs] Hrow. cbn [fst snd].
      assert ((a, b) ∈ (alignments (clk 3) rows).*1) as Hab.
      { apply list_elem_of_fmap. by exists (a, b, kvs). }
      apply elem_of_alignment_pairs in Hab as (r&s&Hr'&->&Hs&Htok).
      change (find_all (node_has ?l ?k ?v) (nodes g3) 0) with (match_node l k v g3).
      rewrite !match_node_nonempty, !node_exists_skeleton, Hs3. split.
      + apply node_phase_mono. rewrite Hs2. cbn [rel_phase fst]. rewrite Hs1.
        apply node_phase_keys, list_elem_of_fmap. by exists r.
      + apply node_phase_keys, elem_of_elements, elem_of_all_policies. eauto.
    - change (NoDup (skeleton g3).1). rewrite Hs3. by apply node_phase_NoDup.
    - subst g3. exact Hr2. }
  assert (merge_rels_count "Entity" "entity_id" "Entity" "entity_id" "REPORTS_TO"
            (hierarchy_relationships (clk 1) rows) (nodes g1) (rels g1)
          = length (filter
                      (λ row : string * string * list (string * value),
                         match_node "Entity" "entity_id" row.1.2 g' ≠ [])
                      (hierarchy_relationships (clk 1) rows))) as ->.
  { rewrite (merge_rels_count_unique "Entity" "Entity"); [|done|].
    + apply length_filter_iff. intros [[a b] kvs] Hrow. cbn [fst snd].
      rewrite Hsame.
      change (find_all (node_has ?l ?k ?v) (nodes g1) 0) with (match_node l k v g1).
      split; [by intros [_ ?]|]. intros H. split; [|done].
      assert ((a, b) ∈ (hierarchy_relationships (clk 1) rows).*1) as Hab.
      { apply list_elem_of_fmap. by exists (a, b, kvs). }
      apply elem_of_hierarchy_pairs in Hab as (r&Hr'&->&_).
      apply match_node_nonempty, node_exists_skeleton. rewrite Hs1.
      apply node_phase_keys, list_elem_of_fmap. by exists r.
    + subst g1. exact Hr. }
  rewrite <- !app_assoc. cbn [app]. reflexivity.
Qed.

End EntityLog.

(** X5 — On a graph with unique identities [import_people] and
    [import_partners] each log exactly three INFO records.  The node
    count is always the number of rows of the batch, new or not; the
    relationship count is the number of rows whose [entity_id] is an
    Entity node of the graph, so the rows left without an edge are the
    difference of the two counts. *)
Theorem import_people_partners_log :
  ∀ (clk : nat → Z) (people_df : list (PersonRow.t string))
    (partners_df : list (PartnerRow.t string pyfloat)) (w : world),
    Growth.unique_identities (w_graph w) →
    w_log (KG.import_people clk people_df w)
    = w_log w
      ++ [(INFO, "Importing " +:+ pretty (length people_df) +:+ " people...");
          (INFO, "Created/updated " +:+ pretty (length people_df)
                 +:+ " person nodes");
          (INFO, "Created "
                 +:+ pretty (length (filter
                       (λ p, Cypher.match_node "Entity" "entity_id"
                               (PersonRow.entity_id p) (w_graph w) ≠ [])
                       people_df))
                 +:+ " WORKS_FOR relationships")]
    ∧ w_log (KG.import_partners clk partners_df w)
      = w_log w
        ++ [(INFO, "Importing " +:+ pretty (length partners_df)
                   +:+ " partners...");
            (INFO, "Created/updated " +:+ pretty (length partners_df)
                   +:+ " company nodes");
            (INFO, "Created "
                   +:+ pretty (length (filter
                         (λ p, Cypher.match_node "Entity" "entity_id"
                                 (PartnerRow.entity_id p) (w_graph w) ≠ [])
                         partners_df))
                   +:+ " PARTNERS_WITH relationships")].
Proof.
  intros. split; [by apply import_people_log_exact|].
  by apply import_partners_log_exact.
Qed.

Lemma import_people_partners_log_witness :
  w_log (KG.import_people (λ k, Z.of_nat k) [orphan_person]
           (World empty_graph []))
  = [(INFO, "Importing 1 people...");
     (INFO, "Created/updated 1 person nodes");
     (INFO, "Created 0 WORKS_FOR relationships")].
Proof.
  rewrite (proj1 (import_people_partners_log (λ k, Z.of_nat k) [orphan_person]
                    [] (World empty_graph [])
                    (conj (NoDup_nil_2 : NoDup []) (NoDup_nil_2 : NoDup [])))).
  reflexivity.
Defined.

(** X6 — On a graph with unique identities [import_entities] logs: the
    batch size; an entity-node count that is again the batch size; for a
    batch with at least one [parent_org], the number of rows with a
    [parent_org] that is an Entity node after the import (no record at
    all for a batch without [parent_org]); the number of distinct policy
    tokens; and an alignment count that is the number of tokens of all
    rows, repeated tokens counted each time. *)
Theorem import_entities_log :
  ∀ (clk : nat → Z) (entities_df : list EntityRow.t) (w : world),
    Growth.unique_identities (w_graph w) →
    w_log (KG.import_entities clk entities_df w)
    = w_log w
      ++ [(INFO, "Importing " +:+ pretty (length entities_df)
                 +:+ " entities...");
          (INFO, "Created/updated " +:+ pretty (length entities_df)
                 +:+ " entity nodes");
          (INFO, "Creating organizational hierarchy...")]
      ++ match KG.hierarchy_relationships (clk 1) entities_df with
         | [] => []
         | _ =>
             [(INFO, "Created "
                     +:+ pretty (length (filter
                           (λ row : string * string * list (string * value),
                              Cypher.match_node "Entity" "entity_id" row.1.2
                                (w_graph (KG.import_entities clk entities_df w))
                              ≠ [])
                           (KG.hierarchy_relationships (clk 1) entities_df)))
                     +:+ " hierarchical relationships")]
         end
      ++ [(INFO, "Creating policy alignments...");
          (INFO, "Created " +:+ pretty (size (KG.all_policies entities_df))
                 +:+ " policy nodes");
          (INFO, "Created "
                 +:+ pretty (length (KG.alignments (clk 3) entities_df))
                 +:+ " policy alignment relationships")].
Proof. intros. by apply import_entities_log_exact. Qed.

Lemma import_entities_log_witness :
  w_log sample_world
  = [(INFO, "Importing 1 entities...");
     (INFO, "Created/updated 1 entity nodes");
     (INFO, "Creating organizational hierarchy...");
     (INFO, "Creating policy alignments...");
     (INFO, "Created 2 policy nodes");
     (INFO, "Created 2 policy alignment relationships")].
Proof.
  unfold sample_world.
  rewrite (import_entities_log (λ k, Z.of_nat k) [sample_row]
             (World empty_graph [])
             (conj (NoDup_nil_2 : NoDup []) (NoDup_nil_2 : NoDup []))).
  vm_compute. reflexivity.
Defined.

(** * The hierarchy query on any graph *)

Section HierarchyAny.
Import Cypher Identity KG Growth.

Lemma get_entity_hierarchy_none entity_id g :
  get_entity_hierarchy entity_id g = None
  ↔ ¬ node_exists "Entity" entity_id g.
Proof.
  rewrite <- (match_node_nonempty "Entity"). unfold get_entity_hierarchy,
    hierarchy_rows. change (key_of "Entity") with "entity_id".
  destruct (match_node "Entity" "entity_id" entity_id g) as [|i l]; cbn [map].
  - split; [|done]. intros _ H. by apply H.
  - split; [done|]. intros H. exfalso. by apply H.
Qed.

Lemma unique_match l v g :
  unique_identities g → node_exists l v g →
  ∃ i, match_node l (key_of l) v g = [i].
Proof.
  intros [Hn _] Hex%match_node_nonempty.
  pose proof (find_all_unique l v (nodes g) Hn) as Hle.
  fold (match_node l (key_of l) v g) in Hle.
  destruct (match_node l (key_of l) v g) as [|i [|]]; [done|eauto|].
  cbn [length] in Hle. lia.
Qed.

Lemma filter_nil_nil {A} (P : A → Prop) `{∀ x, Decision (P x)} :
  filter P [] = [].
Proof. done. Qed.

Lemma expand_out_head fuel rs ty used n :
  ∃ t, expand_out fuel rs ty used n = n :: t
       ∧ (out_rels rs ty n = [] → t = []).
Proof.
  destruct fuel; cbn [expand_out]; eexists; (split; [reflexivity|]); [done|].
  by intros ->.
Qed.

Lemma expand_in_head fuel rs ty used n :
  ∃ t, expand_in fuel rs ty used n = n :: t
       ∧ (in_rels rs ty n = [] → t = []).
Proof.
  destruct fuel; cbn [expand_in]; eexists; (split; [reflexivity|]); [done|].
  by intros ->.
Qed.

Lemma get_entity_hierarchy_single entity_id g i :
  match_node "Entity" "entity_id" entity_id g = [i] →
  ∃ n ps cs,
    nodes g !! i = Some n
    ∧ nprops n !! "entity_id" = Some (VStr entity_id)
    ∧ get_entity_hierarchy entity_id g
      = Some (Hierarchy (prop (nprops n) "name")
                (summarize g i :: ps) (summarize g i :: cs))
    ∧ s_id (summarize g i) = VStr entity_id
    ∧ (out_rels (rels g) "REPORTS_TO" i = [] → ps = [])
    ∧ (in_rels (rels g) "REPORTS_TO" i = [] → cs = []).
Proof.
  intros Hm.
  assert (i ∈ match_node "Entity" "entity_id" entity_id g) as Hi
    by (rewrite Hm; by left).
  apply elem_of_find_all_0 in Hi as (n&Hn&Hhas).
  apply node_has_prop in Hhas as Hid.
  unfold get_entity_hierarchy, hierarchy_rows. rewrite Hm. cbn [map].
  rewrite filter_nil_nil. cbn [flat_map entity_name parents children].
  rewrite app_nil_r.
  destruct (expand_out_head (length (rels g)) (rels g) "REPORTS_TO" [] i)
    as (ps&->&Hps).
  destruct (expand_in_head (length (rels g)) (rels g) "REPORTS_TO" [] i)
    as (cs&->&Hcs).
  exists n, (map (summarize g) ps), (map (summarize g) cs).
  rewrite Hn. cbn [fmap option_fmap option_map default map].
  split; [done|]. split; [done|]. split; [done|]. split; [|split].
  - unfold summarize. rewrite Hn. cbn. unfold prop. by rewrite Hid.
  - by intros ->%Hps.
  - by intros ->%Hcs.
Qed.

End HierarchyAny.

(** X7 — [get_entity_hierarchy] has no record to return, so that
    [dict(result.single())] raises, exactly when no Entity node carries
    the given [entity_id]; in particular it returns for every entity of
    a batch that [import_entities] has imported, whatever the graph held
    before. *)
Theorem hierarchy_raises_iff_entity_absent :
  ∀ (entity_id : string) (g : graph),
    (KG.get_entity_hierarchy entity_id g = None
     ↔ ¬ Identity.node_exists "Entity" entity_id g)
    ∧ ∀ (clk : nat → Z) (entities_df : list EntityRow.t) (w : world) r,
        r ∈ entities_df →
        is_Some (KG.get_entity_hierarchy (EntityRow.entity_id r)
                   (w_graph (KG.import_entities clk entities_df w))).
Proof.
  intros. split; [apply get_entity_hierarchy_none|].
  intros clk E w r Hr. apply not_eq_None_Some.
  rewrite get_entity_hierarchy_none. intros H. apply H.
  by apply import_entities_node.
Qed.

(** X8 — In a graph with unique identities the hierarchy of an existing
    entity lists the entity itself first among its parents and first
    among its children (the zero-length paths of both patterns), under
    its own [entity_id]; an entity that no REPORTS_TO edge leaves has no
    other parent, one that no REPORTS_TO edge enters no other child. *)
Theorem hierarchy_lists_entity_first :
  ∀ (entity_id : string) (g : graph),
    Growth.unique_identities g →
    Identity.node_exists "Entity" entity_id g →
    ∃ i n ps cs,
      Cypher.match_node "Entity" "entity_id" entity_id g = [i]
      ∧ nodes g !! i = Some n
      ∧ nprops n !! "entity_id" = Some (VStr entity_id)
      ∧ KG.get_entity_hierarchy entity_id g
        = Some (KG.Hierarchy (Cypher.prop (nprops n) "name")
                  (KG.summarize g i :: ps) (KG.summarize g i :: cs))
      ∧ KG.s_id (KG.summarize g i) = VStr entity_id
      ∧ (Cypher.out_rels (rels g) "REPORTS_TO" i = [] → ps = [])
      ∧ (Cypher.in_rels (rels g) "REPORTS_TO" i = [] → cs = []).
Proof.
  intros c g Hu Hex.
  destruct (unique_match "Entity" c g Hu Hex) as (i&Hi).
  destruct (get_entity_hierarchy_single c g i Hi) as (n&ps&cs&H).
  exists i, n, ps, cs. split; [exact Hi|exact H].
Qed.

Lemma hierarchy_lists_entity_first_witness :
  ∃ i n ps cs,
    Cypher.match_node "Entity" "entity_id" "A" chain_graph = [i]
    ∧ nodes chain_graph !! i = Some n
    ∧ nprops n !! "entity_id" = Some (VStr "A")
    ∧ KG.get_entity_hierarchy "A" chain_graph
      = Some (KG.Hierarchy (Cypher.prop (nprops n) "name")
                (KG.summarize chain_graph i :: ps)
                (KG.summarize chain_graph i :: cs))
    ∧ KG.s_id (KG.summarize chain_graph i) = VStr "A"
    ∧ (Cypher.out_rels (rels chain_graph) "REPORTS_TO" i = [] → ps = [])
    ∧ (Cypher.in_rels (rels chain_graph) "REPORTS_TO" i = [] → cs = []).
Proof.
  apply hierarchy_lists_entity_first.
  - split; apply (bool_decide_unpack _); vm_compute; exact I.
  - exists 0. eexists. vm_compute. repeat split.
Defined.

(** * The statistics query *)

Section Statistics.
Import Cypher Identity KG Growth KGQuery.

Lemma remove_dups_const {A} `{EqDecision A} (l : list A) k :
  l ≠ [] → (∀ y, y ∈ l → y = k) → remove_dups l = [k].
Proof.
  induction l as [|y l IH]; [done|]. intros _ Hall.
  assert (y = k) as -> by (apply Hall; by left).
  cbn [remove_dups]. destruct l as [|z l].
  - destruct (decide_rel _ k []) as [Hin|_]; [|done].
    by apply elem_of_nil in Hin.
  - destruct (decide_rel _ k (z :: l)) as [_|Hn].
    + apply IH; [done|]. intros; apply Hall. by right.
    + exfalso. apply Hn.
      assert (z = k) as -> by (apply Hall; right; by left). by left.
Qed.

Lemma with_count_single {K A} `{EqDecision K} (k : K) (found : list A) :
  with_count [k] found
  = match found with [] => [] | _ => [(k, length found)] end.
Proof.
  unfold with_count. cbn [list_prod flat_map]. rewrite app_nil_r.
  destruct found as [|x found]; [done|].
  set (m := map (λ y : A, (k, y)) (x :: found)).
  assert (∀ ka, ka ∈ m → ka.1 = k) as Hm.
  { by intros ka (?&->&_)%list_elem_of_fmap. }
  assert (length m = length (x :: found)) as Hlen by apply length_map.
  rewrite (remove_dups_const _ k).
  - cbn [map]. by rewrite length_filter_all, Hlen.
  - done.
  - intros y (ka&->&Hka)%list_elem_of_fmap. by apply Hm.
Qed.

Lemma get_graph_statistics_eq g :
  get_graph_statistics g
  = if bool_decide (match_label "Person" g ≠ [] ∧ match_label "Company" g ≠ []
                    ∧ match_label "Policy" g ≠ [] ∧ rels g ≠ [])
    then Some (Statistics (length (match_label "Entity" g))
                 (length (match_label "Person" g))
                 (length (match_label "Company" g))
                 (length (match_label "Policy" g))
                 (length (rels g)))
    else None.
Proof.
  unfold get_graph_statistics. rewrite with_count_single.
  destruct (match_label "Person" g) as [|p ps] eqn:Ep.
  { rewrite bool_decide_eq_false_2; [done|]. by intros [? _]. }
  rewrite with_count_single.
  destruct (match_label "Company" g) as [|c cs] eqn:Ec.
  { rewrite bool_decide_eq_false_2; [done|]. by intros (_&?&_). }
  rewrite with_count_single.
  destruct (match_label "Policy" g) as [|q qs] eqn:Eq.
  { rewrite bool_decide_eq_false_2; [done|]. by intros (_&_&?&_). }
  rewrite with_count_single.
  destruct (rels g) as [|r rs] eqn:Er.
  { rewrite bool_decide_eq_false_2; [done|]. by intros (_&_&_&?). }
  by rewrite bool_decide_eq_true_2.
Qed.

Lemma match_label_length l g :
  length (match_label l g)
  = length (filter (λ x : string * option value, x.1 = l) (skeleton g).1).
Proof.
  unfold match_label, skeleton. cbn [fst]. rewrite find_all_length.
  rewrite length_filter_fmap. apply length_filter_iff.
  intros n _. cbn. by rewrite bool_decide_eq_true.
Qed.

Lemma match_label_nil l g :
  match_label l g = [] ↔ ∀ x, x ∈ (skeleton g).1 → x.1 ≠ l.
Proof.
  unfold match_label, skeleton. cbn [fst]. rewrite find_all_nil_iff. split.
  - intros H x (n&->&Hn)%list_elem_of_fmap. cbn.
    specialize (H n Hn). by apply bool_decide_eq_false_1 in H.
  - intros H n Hn. apply bool_decide_eq_false_2.
    apply (H (node_identity n)). apply list_elem_of_fmap. by exists n.
Qed.

Lemma filter_add_absent {A} `{EqDecision A} (P : A → Prop)
    `{∀ x, Decision (P x)} (l : list A) x :
  filter P (add_absent l x)
  = if decide (P x) then add_absent (filter P l) x else filter P l.
Proof.
  unfold add_absent. destruct (decide (P x)) as [HP|HP].
  - destruct (decide (x ∈ l)) as [Hin|Hin].
    + rewrite decide_True; [done|]. by apply list_elem_of_filter.
    + rewrite decide_False.
      * rewrite filter_app. f_equal. by rewrite filter_cons_True.
      * by intros [_ ?]%list_elem_of_filter.
  - destruct (decide (x ∈ l)); [done|].
    rewrite filter_app, filter_cons_False by done. apply app_nil_r.
Qed.

Lemma filter_adds {A} `{EqDecision A} (P : A → Prop)
    `{∀ x, Decision (P x)} (l xs : list A) :
  filter P (adds l xs) = adds (filter P l) (filter P xs).
Proof.
  revert l. induction xs as [|x xs IH]; intros l; [done|].
  unfold adds in *. cbn [foldl]. rewrite IH, filter_add_absent.
  destruct (decide (P x)).
  - by rewrite filter_cons_True.
  - by rewrite filter_cons_False.
Qed.

Lemma filter_label_ident l l' keys :
  filter (λ x : string * option value, x.1 = l) (map (ident l') keys)
  = if decide (l' = l) then map (ident l') keys else [].
Proof.
  destruct (decide (l' = l)) as [->|Hne].
  - induction keys as [|k keys IH]; [done|]. cbn [map].
    rewrite filter_cons_True by done. by rewrite IH.
  - apply filter_none. intros x (k&->&_)%list_elem_of_fmap. done.
Qed.

Lemma adds_nil_length l (keys : list string) :
  length (adds [] (map (ident l) keys))
  = size (list_to_set keys : gset string).
Proof.
  assert ((list_to_set keys : gset string) = list_to_set (remove_dups keys))
    as ->.
  { apply set_eq. intros x. by rewrite !elem_of_list_to_set, elem_of_remove_dups. }
  rewrite size_list_to_set by apply NoDup_remove_dups.
  transitivity (length (map (ident l) (remove_dups keys))); [|apply length_map].
  apply Permutation_length, NoDup_Permutation.
  - apply adds_NoDup, NoDup_nil_2.
  - apply NoDup_fmap_2; [|apply NoDup_remove_dups].
    intros a b [=]. done.
  - intros x. rewrite elem_of_adds.
    change (map (ident l) ?k) with (ident l <$> k).
    rewrite !list_elem_of_fmap. setoid_rewrite elem_of_remove_dups.
    split; [intros [[]%elem_of_nil|?]; done | auto].
Qed.

Lemma phase_label_filter l l' keys
    (s : list (string * option value) * list (nat * string * nat)) :
  filter (λ x : string * option value, x.1 = l) (node_phase l' keys s).1
  = if decide (l' = l)
    then adds (filter (λ x : string * option value, x.1 = l) s.1)
           (map (ident l') keys)
    else filter (λ x : string * option value, x.1 = l) s.1.
Proof.
  unfold node_phase. cbn [fst]. rewrite filter_adds, filter_label_ident.
  by destruct (decide (l' = l)).
Qed.

Lemma policy_tokens_nonempty s : policy_tokens s ≠ [].
Proof.
  unfold policy_tokens.
  assert (Py.split "|" s ≠ []) as H.
  { induction s as [|a s IH]; [done|]. cbn [Py.split].
    destruct (Py.split "|" s); [done|]. by case_bool_decide. }
  by destruct (Py.split "|" s).
Qed.

Lemma all_policies_empty rows :
  all_policies rows = ∅
  ↔ ∀ r, r ∈ rows → EntityRow.policy_alignment r = None.
Proof.
  split.
  - intros He r Hr. destruct (EntityRow.policy_alignment r) as [s|] eqn:E; [|done].
    destruct (policy_tokens s) as [|tok toks] eqn:Et.
    { by apply policy_tokens_nonempty in Et. }
    assert (tok ∈ all_policies rows) as Hin.
    { apply elem_of_all_policies. exists r, s. rewrite Et.
      split; [done|]. split; [done|]. by left. }
    rewrite He in Hin. by apply not_elem_of_empty in Hin.
  - intros H. apply set_eq. intros tok. split; [|by intros ?%not_elem_of_empty].
    intros (r&s&Hr&Hs&_)%elem_of_all_policies. rewrite (H r Hr) in Hs. done.
Qed.

(** The node identities after a full load into an empty graph. *)
Lemma load_skeleton_nodes clk1 clk2 clk3 E P Pa w :
  (skeleton (w_graph (import_partners clk3 Pa
                        (import_people clk2 P (import_entities clk1 E w))))).1
  = (node_phase "Company" (map PartnerRow.partner_id Pa)
       (node_phase "Person" (map PersonRow.person_id P)
          (node_phase "Policy" (elements (all_policies E))
             (node_phase "Entity" (map EntityRow.entity_id E)
                (skeleton (w_graph w)))))).1.
Proof.
  rewrite import_partners_skeleton. cbn [rel_phase fst].
  unfold node_phase at 1 3. cbn [fst]. f_equal.
  rewrite import_people_skeleton. cbn [rel_phase fst].
  unfold node_phase at 1 3. cbn [fst]. f_equal.
  rewrite import_entities_skeleton. reflexivity.
Qed.

Lemma load_label_count clk1 clk2 clk3 E P Pa l :
  let g := w_graph (import_partners clk3 Pa
                      (import_people clk2 P
                         (import_entities clk1 E (World empty_graph [])))) in
  length (match_label l g)
  = if decide (l = "Company")
    then size (list_to_set (map PartnerRow.partner_id Pa) : gset string)
    else if decide (l = "Person")
    then size (list_to_set (map PersonRow.person_id P) : gset string)
    else if decide (l = "Policy") then size (all_policies E)
    else if decide (l = "Entity")
    then size (list_to_set (map EntityRow.entity_id E) : gset string)
    else 0.
Proof.
  intros g. subst g. rewrite match_label_length, load_skeleton_nodes.
  rewrite !phase_label_filter.
  cbn [skeleton w_graph empty_graph nodes map fst]. rewrite filter_nil_nil.
  repeat case_decide; simplify_eq; try done; try apply adds_nil_length.
  rewrite adds_nil_length. f_equal. apply set_eq. intros x.
  by rewrite elem_of_list_to_set, elem_of_elements.
Qed.

End Statistics.

Section StatisticsTheorems.
Import Cypher Identity KG Growth KGQuery.

Lemma match_label_count l g :
  length (match_label l g)
  = length (filter (λ n, nlabel n = l) (nodes g)).
Proof.
  unfold match_label. rewrite find_all_length. apply length_filter_iff.
  intros n _. by rewrite bool_decide_eq_true.
Qed.

Lemma match_label_nil_nodes l g :
  match_label l g = [] ↔ ∀ n, n ∈ nodes g → nlabel n ≠ l.
Proof.
  unfold match_label. rewrite find_all_nil_iff.
  split; intros H n Hn; specialize (H n Hn).
  - by apply bool_decide_eq_false_1 in H.
  - by apply bool_decide_eq_false_2.
Qed.

Lemma size_list_to_set_zero (l : list string) :
  size (list_to_set l : gset string) = 0 ↔ l = [].
Proof.
  rewrite size_empty_iff. split; [|by intros ->].
  destruct l as [|x l]; [done|]. intros H. exfalso.
  assert (x ∈ (list_to_set (x :: l) : gset string)) as Hin
    by (apply elem_of_list_to_set; by left).
  rewrite H in Hin. by apply not_elem_of_empty in Hin.
Qed.

Lemma map_nil_iff {A B} (f : A → B) (l : list A) : map f l = [] ↔ l = [].
Proof. by destruct l. Qed.

Lemma load_rels_nonempty clk1 clk2 clk3 E P Pa w :
  all_policies E ≠ ∅ →
  rels (w_graph (import_partners clk3 Pa
                   (import_people clk2 P (import_entities clk1 E w)))) ≠ [].
Proof.
  intros Hne.
  apply set_choose_L in Hne as (tok&Htok).
  apply elem_of_all_policies in Htok as (r&s&Hr&Hs&Ht).
  destruct (import_entities_policy clk1 E w r s tok) as [_ He]; [done..|].
  eapply extends_edge_exists in He; [|apply (import_people_extends clk2 P)].
  eapply extends_edge_exists in He; [|apply (import_partners_extends clk3 Pa)].
  destruct He as (i&j&x&_&_&Hx&_). intros Hnil. rewrite Hnil in Hx.
  by apply elem_of_nil in Hx.
Qed.

End StatisticsTheorems.

(** X9 — [get_graph_statistics] has a record to return only for a graph
    that holds at least one Person, one Company and one Policy node and
    one relationship: each clause after the first carries the counts so
    far, so a kind without a match leaves no row and [dict] raises
    instead of reporting a zero.  Entity nodes are not needed.  When
    there is a record, its five numbers are the numbers of nodes of the
    four labels and of all relationships. *)
Theorem statistics_need_every_kind :
  ∀ g : graph,
    (KGQuery.get_graph_statistics g = None
     ↔ (∀ n, n ∈ nodes g → nlabel n ≠ "Person")
       ∨ (∀ n, n ∈ nodes g → nlabel n ≠ "Company")
       ∨ (∀ n, n ∈ nodes g → nlabel n ≠ "Policy")
       ∨ rels g = [])
    ∧ ∀ st, KGQuery.get_graph_statistics g = Some st →
        st = KGQuery.Statistics
               (length (filter (λ n, nlabel n = "Entity") (nodes g)))
               (length (filter (λ n, nlabel n = "Person") (nodes g)))
               (length (filter (λ n, nlabel n = "Company") (nodes g)))
               (length (filter (λ n, nlabel n = "Policy") (nodes g)))
               (length (rels g)).
Proof.
  intros g. rewrite get_graph_statistics_eq, <- !match_label_count.
  rewrite <- !match_label_nil_nodes. case_bool_decide as H.
  - split; [|by intros st [= <-]]. split; [done|].
    intros [?|[?|[?|?]]]; tauto.
  - split; [|done]. split; [|done]. intros _.
    destruct (decide (KGQuery.match_label "Person" g = [])); [tauto|].
    destruct (decide (KGQuery.match_label "Company" g = [])); [tauto|].
    destruct (decide (KGQuery.match_label "Policy" g = [])); [tauto|].
    destruct (decide (rels g = [])); tauto.
Qed.

(** X10 — The sequence of [load_to_neo4j] on an empty database:
    [import_entities], [import_people], [import_partners], then
    [get_graph_statistics].  The statistics call has no record, and
    the load ends in the exception of [dict(None)], exactly when the
    people batch is empty, the partner batch is empty or no entity has
    a [policy_alignment].  Otherwise the record holds the numbers of
    distinct entity, person and partner ids and of distinct policy
    tokens. *)
Theorem load_then_statistics :
  ∀ (clk1 clk2 clk3 : nat → Z) (entities_df : list EntityRow.t)
    (people_df : list (PersonRow.t string))
    (partners_df : list (PartnerRow.t string pyfloat)),
    let g := w_graph (KG.import_partners clk3 partners_df
                        (KG.import_people clk2 people_df
                           (KG.import_entities clk1 entities_df
                              (World empty_graph [])))) in
    (KGQuery.get_graph_statistics g = None
     ↔ people_df = [] ∨ partners_df = []
       ∨ ∀ r, r ∈ entities_df → EntityRow.policy_alignment r = None)
    ∧ ∀ st, KGQuery.get_graph_statistics g = Some st →
        KGQuery.entities st
        = size (list_to_set (map EntityRow.entity_id entities_df) : gset string)
        ∧ KGQuery.people st
          = size (list_to_set (map PersonRow.person_id people_df) : gset string)
        ∧ KGQuery.companies st
          = size (list_to_set (map PartnerRow.partner_id partners_df)
                  : gset string)
        ∧ KGQuery.policies st = size (KG.all_policies entities_df)
        ∧ KGQuery.relationships st = length (rels g).
Proof.
  intros clk1 clk2 clk3 E P Pa g.
  pose proof (load_label_count clk1 clk2 clk3 E P Pa) as Hc. cbn zeta in Hc.
  fold g in Hc.
  pose proof (Hc "Entity") as He. pose proof (Hc "Person") as Hp.
  pose proof (Hc "Company") as Hco. pose proof (Hc "Policy") as Hpol.
  rewrite !decide_False in He by done. rewrite decide_True in He by done.
  rewrite decide_False, decide_True in Hp by done.
  rewrite decide_True in Hco by done.
  rewrite !decide_False in Hpol by done. rewrite decide_True in Hpol by done.
  clear Hc. rewrite get_graph_statistics_eq.
  assert (KGQuery.match_label "Person" g = [] ↔ P = []) as HP.
  { rewrite <- length_zero_iff_nil, Hp, size_list_to_set_zero. apply map_nil_iff. }
  assert (KGQuery.match_label "Company" g = [] ↔ Pa = []) as HPa.
  { rewrite <- length_zero_iff_nil, Hco, size_list_to_set_zero. apply map_nil_iff. }
  assert (KGQuery.match_label "Policy" g = []
          ↔ ∀ r, r ∈ E → EntityRow.policy_alignment r = None) as HPol.
  { rewrite <- length_zero_iff_nil, Hpol, size_empty_iff.
    rewrite <- all_policies_empty. apply leibniz_equiv_iff. }
  case_bool_decide as H.
  - split.
    + split; [done|]. intros [?|[?|?]]; tauto.
    + intros st [= <-].
      cbn [KGQuery.entities KGQuery.people KGQuery.companies KGQuery.policies
           KGQuery.relationships].
      by rewrite He, Hp, Hco, Hpol.
  - split; [|done]. split; [|done]. intros _.
    destruct (decide (KGQuery.match_label "Person" g = [])); [tauto|].
    destruct (decide (KGQuery.match_label "Company" g = [])); [tauto|].
    destruct (decide (KGQuery.match_label "Policy" g = [])) as [|Hn]; [tauto|].
    exfalso. apply H. repeat split; try done.
    apply load_rels_nonempty. intros Hemp. apply Hn, HPol.
    by apply all_policies_empty.
Qed.

(** * The MyDIGITAL ecosystem query *)

Section Ecosystem.
Import Cypher Identity KG Growth KGQuery.

Lemma filter_all {A} (P : A → Prop) `{∀ x, Decision (P x)} (l : list A) :
  (∀ x, x ∈ l → P x) → filter P l = l.
Proof.
  induction l as [|x l IH]; intros H1; [done|].
  rewrite filter_cons_True by (apply H1; by left).
  f_equal. apply IH. intros; apply H1. by right.
Qed.

Lemma filter_flat_map {A B} (f : A → list B) (P : B → Prop) (Q : A → Prop)
    `{∀ y, Decision (P y)} `{∀ x, Decision (Q x)} (l : list A) :
  (∀ x y, y ∈ f x → P y ↔ Q x) →
  filter P (flat_map f l) = flat_map f (filter Q l).
Proof.
  intros Hf. induction l as [|x l IH]; [done|]. cbn [flat_map].
  rewrite filter_app, IH. destruct (decide (Q x)) as [HQ|HQ].
  - rewrite (filter_cons_True Q) by done. cbn [flat_map]. f_equal.
    apply filter_all. intros y Hy. by apply (Hf x).
  - rewrite (filter_cons_False Q) by done.
    rewrite (filter_none P (f x)); [done|].
    intros y Hy HP. by apply HQ, (Hf x y).
Qed.

Lemma optional_nonempty {A} (l : list A) : optional l ≠ [].
Proof. by destruct l. Qed.

Lemma elem_of_optional {A} (l : list A) x : Some x ∈ optional l ↔ x ∈ l.
Proof.
  destruct l as [|y l]; cbn [optional].
  - split; [|by intros ?%elem_of_nil].
    intros [=]%list_elem_of_singleton.
  - change (map Some ?k) with (Some <$> k). rewrite list_elem_of_fmap. split.
    + by intros (z&[= ->]&?).
    + intros. by exists x.
Qed.

Lemma length_optional {A} (l : list A) :
  length (optional l) = max 1 (length l).
Proof.
  destruct l as [|y l]; [done|]. cbn [optional]. rewrite length_map.
  simpl. lia.
Qed.

(** The rows of one aligned entity. *)
Lemma group_total {A B} (e : nat) (ps : list (option A)) (cs : list B) :
  length (filter (λ row : nat * option A * option B, is_Some row.2)
            (flat_map (λ person,
                 map (λ company, (e, person, company)) (optional cs)) ps))
  = length ps * length cs.
Proof.
  induction ps as [|p ps IH]; [done|]. cbn [flat_map length].
  rewrite filter_app, length_app, IH. f_equal.
  destruct cs as [|c cs]; [done|]. cbn [optional].
  rewrite filter_all.
  - by rewrite !length_map.
  - intros row (co&->&(x&->&_)%list_elem_of_fmap)%list_elem_of_fmap.
    cbn. by eexists.
Qed.

Lemma elem_of_group_people {A B} (e : nat) (ps : list (option A))
    (cs : list (option B)) x :
  cs ≠ [] →
  x ∈ omap (λ row : nat * option A * option B, row.1.2)
        (flat_map (λ person, map (λ company, (e, person, company)) cs) ps)
  ↔ Some x ∈ ps.
Proof.
  intros Hcs. rewrite list_elem_of_omap. split.
  - intros (row&Hrow&Hx). apply list_elem_of_In, in_flat_map in Hrow
      as (p&Hp&Hrow). apply in_map_iff in Hrow as (c&<-&_).
    cbn in Hx. subst p. by apply list_elem_of_In.
  - intros Hp. destruct cs as [|c cs]; [done|].
    exists (e, Some x, c). split; [|done].
    apply list_elem_of_In, in_flat_map. exists (Some x).
    split; [by apply list_elem_of_In|]. by left.
Qed.

Lemma elem_of_group_companies {A B} (e : nat) (ps : list (option A))
    (cs : list (option B)) x :
  ps ≠ [] →
  x ∈ omap (λ row : nat * option A * option B, row.2)
        (flat_map (λ person, map (λ company, (e, person, company)) cs) ps)
  ↔ Some x ∈ cs.
Proof.
  intros Hps. rewrite list_elem_of_omap. split.
  - intros (row&Hrow&Hx). apply list_elem_of_In, in_flat_map in Hrow
      as (p&Hp&Hrow). apply in_map_iff in Hrow as (c&<-&Hc).
    cbn in Hx. subst c. by apply list_elem_of_In.
  - intros Hc. destruct ps as [|p ps]; [done|].
    exists (e, p, Some x). split; [|done].
    apply list_elem_of_In, in_flat_map. exists p. split; [by left|].
    apply in_map_iff. exists (Some x). split; [done|]. by apply list_elem_of_In.
Qed.

Lemma length_remove_dups_same (l k : list nat) :
  NoDup k → (∀ x, x ∈ l ↔ x ∈ k) → length (remove_dups l) = length k.
Proof.
  intros Hk Hlk. apply Permutation_length, NoDup_Permutation;
    [apply NoDup_remove_dups|done|].
  intros x. by rewrite elem_of_remove_dups.
Qed.

Lemma sources_NoDup g l ty b :
  NoDup (map rel_identity (rels g)) → NoDup (sources g l ty b).
Proof.
  intros Hnd. apply (NoDup_fmap_1 (λ y, (y, ty, b))).
  unfold sources.
  apply (omap_NoDup_keys (λ r, Some (rel_identity r)) (λ y : nat, (y, ty, b))).
  - intros r y Hy. destruct (has_label g l (rsrc r)); [|done].
    case_bool_decide as Ht; [|done]. case_bool_decide as Hd; [|done].
    cbn in Hy. injection Hy as <-. unfold rel_identity. by rewrite Ht, Hd.
  - rewrite <- (map_map rel_identity Some).
    by apply (NoDup_fmap_2 Some).
Qed.

Lemma elem_of_ecosystem_groups g row :
  row ∈ ecosystem_groups g →
  let k := (eco_entity row, eco_type row) in
  let grp := filter (λ r : nat * option nat * option nat,
                       eco_key g r.1.1 = k) (ecosystem_matches g) in
  key_people row
  = length (remove_dups (omap (λ r : nat * option nat * option nat, r.1.2) grp))
  ∧ partners row
    = length (remove_dups (omap (λ r : nat * option nat * option nat, r.2) grp))
  ∧ total_partnerships row
    = length (filter (λ r : nat * option nat * option nat, is_Some r.2) grp).
Proof.
  unfold ecosystem_groups. intros (k&->&_)%list_elem_of_fmap.
  cbn [eco_entity eco_type key_people partners total_partnerships].
  by destruct k.
Qed.

Lemma ecosystem_group_single g k e :
  filter (λ e', eco_key g e' = k) (aligned_to g "MyDIGITAL") = [e] →
  filter (λ r : nat * option nat * option nat, eco_key g r.1.1 = k)
    (ecosystem_matches g)
  = flat_map (λ person,
       map (λ company, (e, person, company))
           (optional (sources g "Company" "PARTNERS_WITH" e)))
      (optional (sources g "Person" "WORKS_FOR" e)).
Proof.
  intros He. unfold ecosystem_matches.
  rewrite (filter_flat_map _ _ (λ e', eco_key g e' = k)).
  - rewrite He. cbn [flat_map]. apply app_nil_r.
  - intros x y (p&_&(c&<-&_)%in_map_iff)%list_elem_of_In%in_flat_map. done.
Qed.

Lemma ecosystem_single_entity g row e :
  NoDup (map rel_identity (rels g)) → row ∈ ecosystem_groups g →
  filter (λ e', eco_key g e' = (eco_entity row, eco_type row))
    (aligned_to g "MyDIGITAL") = [e] →
  key_people row = length (sources g "Person" "WORKS_FOR" e)
  ∧ partners row = length (sources g "Company" "PARTNERS_WITH" e)
  ∧ total_partnerships row = max 1 (key_people row) * partners row.
Proof.
  intros Hnd (Hk&Hp&Ht)%elem_of_ecosystem_groups He. cbn zeta in *.
  rewrite (ecosystem_group_single g _ e He) in Hk, Hp, Ht.
  assert (key_people row = length (sources g "Person" "WORKS_FOR" e)) as Hk'.
  { rewrite Hk. apply length_remove_dups_same; [by apply sources_NoDup|].
    intros x. rewrite elem_of_group_people by apply optional_nonempty.
    apply elem_of_optional. }
  assert (partners row = length (sources g "Company" "PARTNERS_WITH" e)) as Hp'.
  { rewrite Hp. apply length_remove_dups_same; [by apply sources_NoDup|].
    intros x. rewrite elem_of_group_companies by apply optional_nonempty.
    apply elem_of_optional. }
  split; [done|]. split; [done|].
  rewrite Ht, group_total, length_optional, Hk', Hp'. done.
Qed.

Lemma eco_before_sorted (l : list ecosystem) :
  StronglySorted (λ a b, eco_before a b = true) (Py.stable_sort eco_before l).
Proof.
  apply stable_sort_sorted; unfold eco_before.
  - intros a b H.
    apply orb_false_iff in H as [H1%Nat.ltb_ge H2].
    apply andb_false_iff in H2 as [H2%Nat.eqb_neq|H2%Nat.leb_gt].
    + apply orb_true_iff. left. apply Nat.ltb_lt. lia.
    + destruct (decide (key_people a = key_people b)) as [E|E].
      * apply orb_true_iff. right. apply andb_true_iff.
        split; [apply Nat.eqb_eq | apply Nat.leb_le]; lia.
      * apply orb_true_iff. left. apply Nat.ltb_lt. lia.
  - intros a b c H1 H2.
    apply orb_true_iff in H1 as [H1%Nat.ltb_lt|[H1%Nat.eqb_eq H1'%Nat.leb_le]%andb_true_iff];
    apply orb_true_iff in H2 as [H2%Nat.ltb_lt|[H2%Nat.eqb_eq H2'%Nat.leb_le]%andb_true_iff];
    apply orb_true_iff.
    + left. apply Nat.ltb_lt. lia.
    + left. apply Nat.ltb_lt. lia.
    + left. apply Nat.ltb_lt. lia.
    + right. apply andb_true_iff.
      split; [apply Nat.eqb_eq | apply Nat.leb_le]; lia.
Qed.

Lemma get_mydigital_ecosystem_is_result g :
  mydigital_ecosystem_rows g (get_mydigital_ecosystem g).
Proof.
  split; [apply stable_sort_perm | apply eco_before_sorted].
Qed.

End Ecosystem.

(** X11 — [get_mydigital_ecosystem] multiplies its partnership total by
    the number of key people.  The two OPTIONAL MATCH clauses pair every
    person of an entity with every partner, so for an entity that is
    alone in its group (no other aligned entity shares its name and
    type, one ALIGNED_TO edge), in a graph with unique edges,
    [key_people] and [partners] are the numbers of its WORKS_FOR and
    PARTNERS_WITH edges, while [total_partnerships] is [partners] times
    [key_people] (times one when nobody works for it). *)
Theorem ecosystem_total_partnerships_multiplied :
  ∀ (g : graph) (out : list KGQuery.ecosystem) (row : KGQuery.ecosystem)
    (e : nat),
    Growth.unique_identities g →
    KGQuery.mydigital_ecosystem_rows g out →
    row ∈ out →
    filter (λ e', KGQuery.eco_key g e'
                  = (KGQuery.eco_entity row, KGQuery.eco_type row))
      (KGQuery.aligned_to g "MyDIGITAL") = [e] →
    KGQuery.key_people row
    = length (KGQuery.sources g "Person" "WORKS_FOR" e)
    ∧ KGQuery.partners row
      = length (KGQuery.sources g "Company" "PARTNERS_WITH" e)
    ∧ KGQuery.total_partnerships row
      = max 1 (KGQuery.key_people row) * KGQuery.partners row.
Proof.
  intros g out row e [_ Hnd] [Hperm _] Hrow He.
  apply ecosystem_single_entity; [exact Hnd| |exact He].
  by rewrite <- Hperm.
Qed.

Lemma ecosystem_total_partnerships_multiplied_witness :
  ∃ row, KGQuery.get_mydigital_ecosystem ecosystem_graph = [row]
         ∧ KGQuery.key_people row = 2
         ∧ KGQuery.partners row = 1
         ∧ KGQuery.total_partnerships row = 2.
Proof.
  set (row := KGQuery.Ecosystem (VStr "Ministry of Digital") (VStr "Ministry")
                2 1 2).
  assert (KGQuery.get_mydigital_ecosystem ecosystem_graph = [row]) as Hout
    by (vm_compute; reflexivity).
  exists row. split; [exact Hout|].
  destruct (ecosystem_total_partnerships_multiplied ecosystem_graph
              (KGQuery.get_mydigital_ecosystem ecosystem_graph) row 0)
    as (Hk&Hp&Htot).
  - split; apply (bool_decide_unpack _); vm_compute; exact I.
  - apply get_mydigital_ecosystem_is_result.
  - rewrite Hout. by left.
  - vm_compute. reflexivity.
  - rewrite Htot, Hk, Hp. clear. vm_compute. repeat split.
Defined.

(** * What the cleaning phase keeps *)

Section FirstRow.
Context {A K : Type} `{EqDecision K} (key : A → K).
Import Pandas.

(** A row that [drop_duplicates] keeps is the first row with its key. *)
Lemma drop_duplicates_from_origin seen df x :
  x ∈ drop_duplicates_from key seen df →
  ∃ i, df !! i = Some x ∧ (key x ∉ seen)
       ∧ ∀ j y, j < i → df !! j = Some y → key y ≠ key x.
Proof.
  revert seen. induction df as [|y df IH]; intros seen; simpl.
  { by intros ?%elem_of_nil. }
  case_decide as Hy.
  - intros (i&Hi&Hs&Hf)%IH. exists (S i). split; [done|]. split; [done|].
    intros [|j] z Hj Hz.
    + injection Hz as <-. intros E. apply Hs. by rewrite <- E.
    + apply (Hf j); [lia|done].
  - intros [->|(i&Hi&Hs&Hf)%IH]%elem_of_cons.
    + exists 0. split; [done|]. split; [done|]. intros j z Hj. lia.
    + exists (S i). split; [done|]. split.
      { intros ?. apply Hs. by right. }
      intros [|j] z Hj Hz.
      * injection Hz as <-. intros E. apply Hs. rewrite <- E. by left.
      * apply (Hf j); [lia|done].
Qed.

Lemma drop_duplicates_origin df x :
  x ∈ drop_duplicates key df →
  ∃ i, df !! i = Some x ∧ ∀ j y, j < i → df !! j = Some y → key y ≠ key x.
Proof. intros (i&?&_&?)%drop_duplicates_from_origin. eauto. Qed.


Lemma drop_duplicates_iff df x :
  x ∈ drop_duplicates key df ↔
  ∃ i, df !! i = Some x ∧ ∀ j y, j < i → df !! j = Some y → key y ≠ key x.
Proof.
  split; [apply drop_duplicates_origin|].
  intros (i&Hi&Hf). by eapply drop_duplicates_first.
Qed.

End FirstRow.

Section CleanPeopleOrigin.
Import Pipeline.

Lemma clean_people_origin raw r :
  r ∈ _clean_people raw →
  ∃ i r0 nm,
    raw !! i = Some r0
    ∧ (∀ j r', j < i → raw !! j = Some r' →
               PersonRow.person_id r' ≠ PersonRow.person_id r0)
    ∧ PersonRow.person_id r0 = Some (PersonRow.person_id r)
    ∧ PersonRow.entity_id r0 = Some (PersonRow.entity_id r)
    ∧ PersonRow.name r0 = Some nm
    ∧ r = PersonRow.Make (PersonRow.person_id r) (Some (Py.strip nm))
            (Py.strip <$> PersonRow.title r0) (PersonRow.entity_id r)
            (PersonRow.role_type r0) (PersonRow.focus_area r0)
            (Pandas.clip 0 1 (PersonRow.confidence_score r0))
            (PersonRow.source r0)
            ((λ s, Py.strip (Py.lower s)) <$> PersonRow.email r0).
Proof.
  unfold _clean_people.
  intros (x&(r0&->&Hr0)%list_elem_of_fmap&Hx)%list_elem_of_omap.
  apply drop_duplicates_origin in Hr0 as (i&Hi&Hf).
  cbn in Hx.
  destruct (PersonRow.name r0) as [nm|] eqn:En; [|done].
  destruct (PersonRow.person_id r0) as [pid|] eqn:Ep; [|done].
  destruct (PersonRow.entity_id r0) as [eid|] eqn:Ee; [|done].
  cbn in Hx. injection Hx as <-. exists i, r0, nm. cbn.
  rewrite Ep. repeat split; try done.
Qed.


End CleanPeopleOrigin.

Section CleanPartnersOrigin.
Import Pipeline.

Lemma clean_partners_origin cy raw r :
  r ∈ _clean_partners cy raw →
  ∃ i r0 nm,
    raw !! i = Some r0
    ∧ (∀ j r', j < i → raw !! j = Some r' →
               PartnerRow.partner_id r' ≠ PartnerRow.partner_id r0)
    ∧ PartnerRow.partner_id r0 = Some (PartnerRow.partner_id r)
    ∧ PartnerRow.entity_id r0 = Some (PartnerRow.entity_id r)
    ∧ PartnerRow.company_name r0 = Some nm
    ∧ r = PartnerRow.Make (PartnerRow.partner_id r) (Some (Py.strip nm))
            (PartnerRow.entity_id r) (PartnerRow.relationship_type r0)
            (Pandas.fillna 0
               (Pandas.to_numeric (PartnerRow.contract_value_rm r0)))
            (Pandas.clip 2000 (inject_Z (cy + 5))
               (Pandas.to_numeric (PartnerRow.contract_year r0)))
            (PartnerRow.focus_area r0) (PartnerRow.procurement_stage r0).
Proof.
  unfold _clean_partners.
  intros (x&(r0&->&Hr0)%list_elem_of_fmap&Hx)%list_elem_of_omap.
  apply drop_duplicates_origin in Hr0 as (i&Hi&Hf).
  cbn in Hx.
  destruct (PartnerRow.company_name r0) as [nm|] eqn:En; [|done].
  destruct (PartnerRow.partner_id r0) as [pid|] eqn:Ep; [|done].
  destruct (PartnerRow.entity_id r0) as [eid|] eqn:Ee; [|done].
  cbn in Hx. injection Hx as <-. exists i, r0, nm. cbn.
  rewrite Ep. repeat split; try done.
Qed.


End CleanPartnersOrigin.

Section CleanEntities.
Import PipelineEntities.

Lemma clean_entities_NoDup raw :
  NoDup (map EntityRow.entity_id (_clean_entities raw)).
Proof.
  unfold _clean_entities.
  apply (omap_NoDup_keys RawEntityRow.entity_id).
  - intros x y Hxy.
    destruct (RawEntityRow.name x), (RawEntityRow.entity_id x); try done.
    by injection Hxy as <-.
  - rewrite map_map. simpl. apply drop_duplicates_NoDup.
Qed.

Lemma clean_entities_origin raw r :
  r ∈ _clean_entities raw →
  ∃ i r0 nm,
    raw !! i = Some r0
    ∧ (∀ j r', j < i → raw !! j = Some r' →
               RawEntityRow.entity_id r' ≠ RawEntityRow.entity_id r0)
    ∧ RawEntityRow.entity_id r0 = Some (EntityRow.entity_id r)
    ∧ RawEntityRow.name r0 = Some nm
    ∧ r = EntityRow.Make (EntityRow.entity_id r) (Some (Py.strip nm))
            (Py.strip <$> RawEntityRow.entity_type r0)
            (RawEntityRow.parent_org r0)
            (Some (default "No mandate specified" (RawEntityRow.mandate r0)))
            ((λ s, PyStr.replace "  " " " (PyStr.replace "," "|" s))
               <$> RawEntityRow.policy_alignment r0)
            (RawEntityRow.state r0) (RawEntityRow.latitude r0)
            (RawEntityRow.longitude r0).
Proof.
  unfold _clean_entities.
  intros (x&(r0&->&Hr0)%list_elem_of_fmap&Hx)%list_elem_of_omap.
  apply drop_duplicates_origin in Hr0 as (i&Hi&Hf).
  cbn in Hx.
  destruct (RawEntityRow.name r0) as [nm|] eqn:En; [|done].
  destruct (RawEntityRow.entity_id r0) as [eid|] eqn:Ep; [|done].
  cbn in Hx. injection Hx as <-. exists i, r0, nm. cbn.
  rewrite Ep. repeat split; try done.
Qed.



(** Characters of the result of a replacement. *)
Lemma in_append a (s t : string) :
  In a (list_ascii_of_string (String.append s t))
  ↔ In a (list_ascii_of_string s) ∨ In a (list_ascii_of_string t).
Proof.
  induction s as [|b s IH]; simpl.
  - tauto.
  - rewrite IH. tauto.
Qed.

Lemma replace_from_chars old new skip s a :
  In a (list_ascii_of_string (PyStr.replace_from old new skip s)) →
  In a (list_ascii_of_string s) ∨ In a (list_ascii_of_string new).
Proof.
  revert skip. induction s as [|b s IH]; intros skip; cbn [PyStr.replace_from].
  { intros []. }
  destruct skip as [|k].
  - destruct (String.prefix old (String b s)).
    + intros [H|H%IH]%in_append; simpl; tauto.
    + simpl. intros [H|H%IH]; tauto.
  - intros H%IH. simpl. tauto.
Qed.

(** Replacing a single character leaves none of it, unless the
    replacement brings it back. *)
Lemma replace_char_gone c new s a :
  In a (list_ascii_of_string (PyStr.replace (String c "") new s)) →
  a ≠ c ∨ In a (list_ascii_of_string new).
Proof.
  unfold PyStr.replace.
  induction s as [|b s IH]; cbn [PyStr.replace_from String.prefix];
    [intros []|].
  destruct (ascii_dec c b) as [->|Hne].
  - assert (String.prefix "" s = true) as -> by by destruct s.
    cbn [String.length Nat.sub]. intros [H|H%IH]%in_append; tauto.
  - simpl. intros [<-|H%IH]; [left; congruence|tauto].
Qed.

Lemma cleaned_alignment_no_comma s :
  ¬ In ","%char
      (list_ascii_of_string (PyStr.replace "  " " " (PyStr.replace "," "|" s))).
Proof.
  intros [H|H]%replace_from_chars.
  - apply replace_char_gone in H as [H|H]; [done|].
    simpl in H. destruct H as [H|[]]. discriminate.
  - simpl in H. destruct H as [H|[]]. discriminate.
Qed.

End CleanEntities.






(** * Indexing: what is stored, and when the call fails *)

Section AddRecords.
Import Chroma.
Implicit Types (c : gmap string document)
               (rs : list (string * (string * gmap string value))).

Lemma foldl_add_one_other c rs k :
  k ∉ rs.*1 → foldl add_one c rs !! k = c !! k.
Proof.
  revert c. induction rs as [|r rs IH]; intros c Hk; [done|].
  cbn [foldl]. rewrite IH.
  - unfold add_one. destruct (c !! r.1) eqn:E; [done|].
    apply lookup_insert_ne. intros E'. apply Hk. rewrite <- E'. by left.
  - intros ?. apply Hk. by right.
Qed.

Lemma foldl_add_one_stored c rs k d m :
  NoDup rs.*1 → (k, (d, m)) ∈ rs →
  foldl add_one c rs !! k = Some (default (Document d m) (c !! k)).
Proof.
  revert c. induction rs as [|r rs IH]; intros c Hnd Hin.
  { by apply elem_of_nil in Hin. }
  cbn [fmap list_fmap] in Hnd. apply NoDup_cons in Hnd as [Hr Hnd].
  cbn [foldl]. apply elem_of_cons in Hin as [<-|Hin].
  - rewrite foldl_add_one_other by done. unfold add_one. cbn [fst snd].
    destruct (c !! k) eqn:E; [by rewrite E|]. by rewrite lookup_insert_eq.
  - rewrite IH by done. f_equal. f_equal.
    unfold add_one. destruct (c !! r.1) eqn:E; [done|].
    apply lookup_insert_ne. intros E'. apply Hr. rewrite E'.
    apply list_elem_of_fmap. by exists (k, (d, m)).
Qed.

Lemma foldl_add_one_size c rs :
  NoDup rs.*1 → (∀ r, r ∈ rs → c !! r.1 = None) →
  size (foldl add_one c rs) = size c + length rs.
Proof.
  revert c. induction rs as [|r rs IH]; intros c Hnd Hnew.
  { simpl. lia. }
  cbn [fmap list_fmap] in Hnd. apply NoDup_cons in Hnd as [Hr Hnd].
  cbn [foldl length]. rewrite IH; [|done|].
  - unfold add_one. rewrite (Hnew r) by by left.
    rewrite map_size_insert_None by (apply Hnew; by left). lia.
  - intros r' Hr'. unfold add_one. rewrite (Hnew r) by by left.
    rewrite lookup_insert_ne; [apply Hnew; by right|].
    intros E. apply Hr. rewrite E. apply list_elem_of_fmap. by exists r'.
Qed.

(** The records built from the rows of a frame. *)
Lemma zip_rows {A} (h f : A → string) (g : nat → A → gmap string value)
    (rows : list A) :
  zip (map h rows) (zip (map f rows) (imap g rows))
  = imap (λ i r, (h r, (f r, g i r))) rows.
Proof.
  revert g. induction rows as [|r rows IH]; intros g; [done|].
  cbn [map imap zip zip_with]. f_equal. apply IH.
Qed.

Lemma imap_fst {A} (h f : A → string) (g : nat → A → gmap string value)
    (rows : list A) :
  (imap (λ i r, (h r, (f r, g i r))) rows).*1 = map h rows.
Proof.
  revert g. induction rows as [|r rows IH]; intros g; [done|].
  cbn [imap fmap list_fmap map]. f_equal. apply (IH (g ∘ S)).
Qed.

Lemma add_rows {A} (h f : A → string) (g : nat → A → gmap string value)
    (rows : list A) c :
  rows ≠ [] → NoDup (map h rows) →
  ∃ c', add (map f rows) (imap g rows) (map h rows) c = Ok c'
        ∧ (∀ i r, rows !! i = Some r →
                  c' !! h r = Some (default (Document (f r) (g i r)) (c !! h r)))
        ∧ (∀ k, k ∉ map h rows → c' !! k = c !! k)
        ∧ ((∀ r, r ∈ rows → c !! h r = None) →
           count c' = count c + length rows).
Proof.
  intros Hne Hnd. unfold add.
  destruct (map h rows) as [|k0 ks] eqn:Eids.
  { by destruct rows. }
  rewrite <- Eids in *. rewrite bool_decide_eq_true_2 by done.
  rewrite zip_rows. eexists. split; [done|].
  pose proof (imap_fst h f g rows) as Hfst. split; [|split].
  - intros i r Hi. apply foldl_add_one_stored; [by rewrite Hfst|].
    apply elem_of_lookup_imap. eauto.
  - intros k Hk. apply foldl_add_one_other. by rewrite Hfst.
  - intros Hnew. unfold count. rewrite foldl_add_one_size.
    + by rewrite length_imap.
    + by rewrite Hfst.
    + intros r' (i&r&->&Hr)%elem_of_lookup_imap. cbn.
      apply Hnew. by eapply list_elem_of_lookup_2.
Qed.

Lemma add_raises {A} (h f : A → string) (g : nat → A → gmap string value)
    (rows : list A) c :
  (add (map f rows) (imap g rows) (map h rows) c = Raise ValueError
   ↔ rows = [])
  ∧ (add (map f rows) (imap g rows) (map h rows) c = Raise DuplicateIDError
     ↔ rows ≠ [] ∧ ¬ NoDup (map h rows)).
Proof.
  unfold add. destruct rows as [|r rows]; [split; split; [done|done| done|]|].
  { by intros [? _]. }
  cbn [map]. case_bool_decide as Hnd.
  - split; split; try done. by intros [_ ?].
  - split; split; try done.
Qed.

End AddRecords.

Lemma prefixed_NoDup {A} (prefix : string) (key : A → string) (rows : list A) :
  NoDup (map (λ r, prefix +:+ key r) rows) ↔ NoDup (map key rows).
Proof.
  rewrite <- (map_map key (λ s, prefix +:+ s)).
  apply (NoDup_fmap (String.app prefix)).
Qed.

Section IndexRows.
Import Chroma VectorSearch VectorIndex.

Lemma index_entities_rows now rows c :
  rows ≠ [] → NoDup (map EntityRow.entity_id rows) →
  ∃ c', index_entities now rows c = Ok c'
        ∧ (∀ i r, rows !! i = Some r →
             c' !! ("entity_" +:+ EntityRow.entity_id r)
             = Some (default (Document (_create_entity_document r)
                                (entity_metadata (now i) r))
                       (c !! ("entity_" +:+ EntityRow.entity_id r))))
        ∧ (∀ k, k ∉ map (λ r, "entity_" +:+ EntityRow.entity_id r) rows →
                c' !! k = c !! k)
        ∧ ((∀ r, r ∈ rows → c !! ("entity_" +:+ EntityRow.entity_id r) = None) →
           count c' = count c + length rows).
Proof.
  intros Hne Hnd. unfold index_entities.
  apply (add_rows (λ r, "entity_" +:+ EntityRow.entity_id r)
           _create_entity_document (λ i r, entity_metadata (now i) r));
    [done|]. by apply prefixed_NoDup.
Qed.

Lemma index_people_rows now rows c :
  rows ≠ [] → NoDup (map PersonRow.person_id rows) →
  ∃ c', index_people now rows c = Ok c'
        ∧ (∀ i r, rows !! i = Some r →
             c' !! ("person_" +:+ PersonRow.person_id r)
             = Some (default (Document (_create_person_document r)
                                (person_metadata (now i) r))
                       (c !! ("person_" +:+ PersonRow.person_id r))))
        ∧ (∀ k, k ∉ map (λ r, "person_" +:+ PersonRow.person_id r) rows →
                c' !! k = c !! k)
        ∧ ((∀ r, r ∈ rows → c !! ("person_" +:+ PersonRow.person_id r) = None) →
           count c' = count c + length rows).
Proof.
  intros Hne Hnd. unfold index_people.
  apply (add_rows (λ r, "person_" +:+ PersonRow.person_id r)
           _create_person_document (λ i r, person_metadata (now i) r));
    [done|]. by apply prefixed_NoDup.
Qed.

Lemma index_entities_errors now rows c :
  (index_entities now rows c = Raise ValueError ↔ rows = [])
  ∧ (index_entities now rows c = Raise DuplicateIDError
     ↔ rows ≠ [] ∧ ¬ NoDup (map EntityRow.entity_id rows)).
Proof.
  unfold index_entities.
  rewrite <- (prefixed_NoDup "entity_" EntityRow.entity_id).
  apply (add_raises (λ r, "entity_" +:+ EntityRow.entity_id r)
           _create_entity_document (λ i r, entity_metadata (now i) r)).
Qed.

Lemma index_people_errors now rows c :
  (index_people now rows c = Raise ValueError ↔ rows = [])
  ∧ (index_people now rows c = Raise DuplicateIDError
     ↔ rows ≠ [] ∧ ¬ NoDup (map PersonRow.person_id rows)).
Proof.
  unfold index_people.
  rewrite <- (prefixed_NoDup "person_" PersonRow.person_id).
  apply (add_raises (λ r, "person_" +:+ PersonRow.person_id r)
           _create_person_document (λ i r, person_metadata (now i) r)).
Qed.







End IndexRows.



(** X17 — When [index_entities] and [index_people] fail.  The call
    raises [ValueError] exactly for an empty batch and
    [DuplicateIDError] exactly for a batch that repeats an id; what the
    collection already holds never makes it fail.  A batch that comes
    out of the cleaning phase has distinct ids, so indexing it succeeds
    unless cleaning left no row. *)
Theorem index_fails_on_empty_or_repeated_ids :
  ∀ (now : nat → string) (c : Chroma.collection),
    (∀ rows : list EntityRow.t,
       (VectorSearch.index_entities now rows c = Raise ValueError ↔ rows = [])
       ∧ (VectorSearch.index_entities now rows c = Raise DuplicateIDError
          ↔ rows ≠ [] ∧ ¬ NoDup (map EntityRow.entity_id rows)))
    ∧ (∀ rows : list (PersonRow.t string),
         (VectorSearch.index_people now rows c = Raise ValueError ↔ rows = [])
         ∧ (VectorSearch.index_people now rows c = Raise DuplicateIDError
            ↔ rows ≠ [] ∧ ¬ NoDup (map PersonRow.person_id rows)))
    ∧ (∀ raw : list RawEntityRow.t,
         PipelineEntities._clean_entities raw ≠ [] →
         ∃ c', VectorSearch.index_entities now
                 (PipelineEntities._clean_entities raw) c = Ok c')
    ∧ (∀ raw : list (PersonRow.t (option string)),
         Pipeline._clean_people raw ≠ [] →
         ∃ c', VectorSearch.index_people now (Pipeline._clean_people raw) c
               = Ok c').
Proof.
  intros now c. split; [intros; apply index_entities_errors|].
  split; [intros; apply index_people_errors|]. split.
  - intros raw Hne.
    destruct (index_entities_rows now _ c Hne (clean_entities_NoDup raw))
      as (c'&Hc&_). eauto.
  - intros raw Hne.
    destruct (index_people_rows now _ c Hne (clean_people_NoDup raw))
      as (c'&Hc&_). eauto.
Qed.




(** * Hybrid search: range of the score, ties, completeness *)

Section StableOrder.
Context {A : Type} (before : A → A → bool) (P : A → Prop)
        `{∀ x, Decision (P x)}.
Import Py.




End StableOrder.

Section HybridRange.
Import VectorSearch.




End HybridRange.





(** * Similar entities *)

Section Similar.
Import Chroma VectorSearch VectorIndex.

Lemma length_filter_drop {A} (P : A → Prop) `{∀ x, Decision (P x)}
    (l : list A) x :
  x ∈ l → ¬ P x → S (length (filter P l)) ≤ length l.
Proof. intros Hx HP. by apply (length_filter_lt P l x). Qed.

Lemma find_similar_entities_indexed query now rows c c' i r n :
  rows ≠ [] → NoDup (map EntityRow.entity_id rows) →
  rows !! i = Some r →
  c !! ("entity_" +:+ EntityRow.entity_id r) = None →
  index_entities now rows c = Ok c' →
  find_similar_entities query c' (EntityRow.entity_id r) n
  = filter (λ h, hit_id h ≠ "entity_" +:+ EntityRow.entity_id r)
      (query (_create_entity_document r) (n + 1)).
Proof.
  intros Hne Hnd Hi Hnew Hc'.
  destruct (index_entities_rows now rows c Hne Hnd) as (c''&Hc''&Hrow&_).
  rewrite Hc' in Hc''. injection Hc'' as <-.
  unfold find_similar_entities. rewrite (Hrow i r Hi), Hnew. done.
Qed.

End Similar.

(** X22 — [find_similar_entities].  For an id that is not in the
    collection it returns the empty list (and asks the store nothing).
    For an entity that [index_entities] has just added it asks for the
    [n_results + 1] nearest records of the entity's own document and
    removes the entity from them: no returned hit is the entity itself,
    and the number of hits is at most [n_results + 1], and at most
    [n_results] when the entity is among the records the store
    returned. *)
Theorem find_similar_entities_excludes_itself :
  ∀ (query : string → nat → list VectorSearch.hit) (now : nat → string)
    (rows : list EntityRow.t) (c c' : Chroma.collection) (i : nat)
    (r : EntityRow.t) (n_results : nat),
    rows ≠ [] → NoDup (map EntityRow.entity_id rows) →
    rows !! i = Some r →
    c !! ("entity_" +:+ EntityRow.entity_id r) = None →
    VectorSearch.index_entities now rows c = Ok c' →
    (∀ text m, length (query text m) ≤ m) →
    let similar := VectorIndex.find_similar_entities query c'
                     (EntityRow.entity_id r) n_results in
    let nearest := query (VectorSearch._create_entity_document r)
                     (n_results + 1) in
    similar = filter (λ h, VectorSearch.hit_id h
                           ≠ "entity_" +:+ EntityRow.entity_id r) nearest
    ∧ (∀ h, h ∈ similar →
            VectorSearch.hit_id h ≠ "entity_" +:+ EntityRow.entity_id r)
    ∧ length similar ≤ n_results + 1
    ∧ ("entity_" +:+ EntityRow.entity_id r
         ∈ map VectorSearch.hit_id nearest →
       length similar ≤ n_results)
    ∧ ∀ unknown, c' !! ("entity_" +:+ unknown) = None →
        VectorIndex.find_similar_entities query c' unknown n_results = [].
Proof.
  intros query now rows c c' i r n Hne Hnd Hi Hnew Hc' Hq similar nearest.
  assert (similar = filter (λ h, VectorSearch.hit_id h
                                 ≠ "entity_" +:+ EntityRow.entity_id r) nearest)
    as -> by by eapply find_similar_entities_indexed.
  split; [done|]. split; [|split; [|split]].
  - by intros h [? _]%list_elem_of_filter.
  - etrans; [apply length_filter|]. apply Hq.
  - intros (h&Hh&Hin)%list_elem_of_fmap.
    pose proof (Hq (VectorSearch._create_entity_document r) (n + 1)) as Hlen.
    fold nearest in Hlen.
    pose proof (length_filter_drop
                  (λ h, VectorSearch.hit_id h
                        ≠ "entity_" +:+ EntityRow.entity_id r) nearest h Hin)
      as Hdrop.
    assert (S (length (filter (λ h, VectorSearch.hit_id h
                                    ≠ "entity_" +:+ EntityRow.entity_id r)
                         nearest)) ≤ length nearest) by (apply Hdrop; auto).
    lia.
  - intros unknown Hu. unfold VectorIndex.find_similar_entities.
    by rewrite Hu.
Qed.

Lemma find_similar_entities_excludes_itself_witness :
  VectorIndex.find_similar_entities
    (λ _ m, take m [hit_ministry; hit_mdec]) first_index "MIN001" 5
  = [hit_mdec].
Proof.
  destruct (find_similar_entities_excludes_itself
              (λ _ m, take m [hit_ministry; hit_mdec])
              (λ _, "2025-01-01T00:00:00") [sample_row] ∅ first_index 0
              sample_row 5) as (Heq&_).
  - discriminate.
  - simpl. apply NoDup_singleton.
  - reflexivity.
  - apply lookup_empty.
  - vm_compute. reflexivity.
  - intros text m. rewrite length_take. lia.
  - etrans; [exact Heq|]. vm_compute. reflexivity.
Defined.

(** * The counts of the connector's statistics *)

Section GroupCounts.
Import Cypher Connector ConnectorStats.

Lemma total_list_to_map (rows : list (string * nat)) :
  NoDup rows.*1 → total (list_to_map rows) = sum_list_with snd rows.
Proof.
  intros Hnd. unfold total. rewrite map_fold_foldr.
  rewrite <- (sum_list_with_Permutation_proper snd _ _
                (map_to_list_to_map rows Hnd)).
  induction (map_to_list (list_to_map rows : gmap string nat))
    as [|[k v] l IH]; [done|].
  cbn. by rewrite IH.
Qed.

Lemma sum_indicator (ds : list string) v :
  NoDup ds →
  sum_list_with (λ k, if decide (v = k) then 1 else 0) ds
  = if decide (v ∈ ds) then 1 else 0.
Proof.
  induction ds as [|d ds IH]; intros Hnd.
  { by rewrite decide_False by apply not_elem_of_nil. }
  apply NoDup_cons in Hnd as [Hd Hnd]. cbn [sum_list_with].
  rewrite IH by done. destruct (decide (v = d)) as [->|Hne].
  - rewrite (decide_False (P:=d ∈ ds)) by done.
    rewrite decide_True by by left. done.
  - destruct (decide (v ∈ ds)).
    + rewrite decide_True by by right. done.
    + rewrite decide_False; [done|].
      intros [?|?]%elem_of_cons; done.
Qed.

Lemma sum_counts {A} (key : A → string) (l : list A) (ds : list string) :
  NoDup ds →
  sum_list_with (λ k, length (filter (λ x, key x = k) l)) ds
  = length (filter (λ x, key x ∈ ds) l).
Proof.
  intros Hnd. induction l as [|y l IH].
  { induction ds as [|d ds IHd]; [done|]. cbn [sum_list_with].
    apply NoDup_cons in Hnd as [_ Hnd]. by rewrite IHd. }
  rewrite (filter_cons (λ x, key x ∈ ds)).
  transitivity (sum_list_with (λ k, if decide (key y = k) then 1 else 0) ds
                + sum_list_with (λ k, length (filter (λ x, key x = k) l)) ds).
  - clear IH Hnd. induction ds as [|d ds IHd]; [done|].
    cbn [sum_list_with]. rewrite IHd. rewrite filter_cons.
    destruct (decide (key y = d)); cbn [length]; lia.
  - rewrite sum_indicator by done. rewrite IH.
    destruct (decide (key y ∈ ds)); cbn [length]; lia.
Qed.

Lemma count_by_keys {A} (key : A → string) (l : list A) :
  (count_by key l).*1 = remove_dups (map key l).
Proof.
  unfold count_by. rewrite <- list_fmap_compose. apply list_fmap_id.
Qed.

Lemma sum_list_with_graph (f : string → nat) (ds : list string) :
  sum_list_with snd (map (λ k, (k, f k)) ds) = sum_list_with f ds.
Proof. induction ds as [|d ds IH]; [done|]. cbn. by rewrite IH. Qed.

Lemma count_by_total {A} (key : A → string) (l : list A) :
  total (list_to_map (count_by key l)) = length l.
Proof.
  rewrite total_list_to_map
    by (rewrite count_by_keys; apply NoDup_remove_dups).
  unfold count_by.
  rewrite (sum_list_with_graph (λ k, length (filter (λ x, key x = k) l))).
  rewrite sum_counts by apply NoDup_remove_dups.
  apply length_filter_all. intros x Hx.
  apply elem_of_remove_dups, list_elem_of_fmap. by exists x.
Qed.

Lemma count_by_lookup {A} (key : A → string) (l : list A) k n :
  (list_to_map (count_by key l) : gmap string nat) !! k = Some n
  ↔ n = length (filter (λ x, key x = k) l) ∧ 0 < n.
Proof.
  rewrite <- elem_of_list_to_map
    by (rewrite count_by_keys; apply NoDup_remove_dups).
  unfold count_by. rewrite list_elem_of_fmap. split.
  - intros (k'&[= -> ->]&Hk). split; [done|].
    apply elem_of_remove_dups, list_elem_of_fmap in Hk as (x&Hx&Hin).
    assert (x ∈ filter (λ x0, key x0 = key x) l) as Hf
      by by apply list_elem_of_filter.
    rewrite <- Hx in Hf.
    destruct (filter _ l); [by apply elem_of_nil in Hf | simpl; lia].
  - intros [-> Hpos]. exists k. split; [done|].
    apply elem_of_remove_dups.
    destruct (filter (λ x, key x = k) l) as [|x f] eqn:E; [simpl in Hpos; lia|].
    assert (x ∈ filter (λ x, key x = k) l) as Hin by (rewrite E; by left).
    apply list_elem_of_filter in Hin as [<- Hin].
    apply list_elem_of_fmap. by exists x.
Qed.

Lemma filter_nonempty_keys {A} (key : A → string) (l : list A) :
  (∀ x, x ∈ l → key x ≠ "") →
  filter (λ record : string * nat, record.1 ≠ "") (count_by key l)
  = count_by key l.
Proof.
  intros Hne. apply filter_all. intros [k n] Hk. cbn.
  assert (k ∈ (count_by key l).*1) as Hin
    by (apply list_elem_of_fmap; by exists (k, n)).
  rewrite count_by_keys in Hin.
  apply elem_of_remove_dups, list_elem_of_fmap in Hin as (x&->&Hx).
  by apply Hne.
Qed.

End GroupCounts.

(** X23 — The counts of the connector's [get_graph_statistics].  The
    [limit] argument changes nothing: it limits a result that has one
    row (and 0 and [None] give no LIMIT at all), so the totals are
    always those of all the nodes that pass the label filter and of all
    the relationships that start at such a node.  When every node has a
    label, the values of [node_types] add up to [total_nodes] and an
    entry of [node_types] is the positive number of matched nodes of
    that label; the values of [relationship_types] always add up to
    [total_relationships]. *)
Theorem connector_statistics_consistent :
  ∀ (filter_labels : list string) (limit : option nat) (g : graph),
    (∀ n, n ∈ nodes g → nlabel n ≠ "") →
    ∃ st,
      ConnectorStats.get_graph_statistics filter_labels limit g = Some st
      ∧ ConnectorStats.get_graph_statistics filter_labels None g = Some st
      ∧ ConnectorStats.total_nodes st
        = length (ConnectorStats.matched_nodes filter_labels g)
      ∧ ConnectorStats.total_relationships st
        = length (ConnectorStats.matched_rels filter_labels g)
      ∧ ConnectorStats.total (ConnectorStats.node_types st)
        = ConnectorStats.total_nodes st
      ∧ ConnectorStats.total (ConnectorStats.relationship_types st)
        = ConnectorStats.total_relationships st
      ∧ (∀ l k, ConnectorStats.node_types st !! l = Some k
                ↔ k = length (filter (λ n, nlabel n = l)
                                (ConnectorStats.matched_nodes filter_labels g))
                  ∧ 0 < k)
      ∧ (∀ ty k, ConnectorStats.relationship_types st !! ty = Some k
                 ↔ k = length (filter (λ r, rtype r = ty)
                                 (ConnectorStats.matched_rels filter_labels g))
                   ∧ 0 < k).
Proof.
  intros fl limit g Hlab.
  assert (∀ x, x ∈ ConnectorStats.matched_nodes fl g → nlabel x ≠ "") as Hm.
  { intros x [_ Hx]%list_elem_of_filter. by apply Hlab. }
  unfold ConnectorStats.get_graph_statistics.
  assert (∀ x : nat, ConnectorStats.limit_clause limit [x] = [x]) as Hlim.
  { intros x. destruct limit as [[|k]|]; [done| |done].
    cbn [ConnectorStats.limit_clause take]. by rewrite take_nil. }
  rewrite !Hlim. cbn [head ConnectorStats.limit_clause].
  eexists. split; [reflexivity|]. split; [reflexivity|].
  cbn [ConnectorStats.total_nodes ConnectorStats.total_relationships
       ConnectorStats.node_types ConnectorStats.relationship_types].
  rewrite filter_nonempty_keys by done.
  split; [done|]. split; [done|].
  split; [apply count_by_total|]. split; [apply count_by_total|].
  split; intros; apply count_by_lookup.
Qed.

Lemma connector_statistics_consistent_witness :
  ∃ st, ConnectorStats.get_graph_statistics [] (Some 1) chain_graph = Some st
        ∧ ConnectorStats.total_nodes st = 3
        ∧ ConnectorStats.total_relationships st = 2
        ∧ ConnectorStats.total (ConnectorStats.node_types st) = 3.
Proof.
  destruct (connector_statistics_consistent [] (Some 1) chain_graph)
    as (st&Hst&_&Hn&Hr&Hsum&_).
  - intros n Hn. vm_compute in Hn.
    repeat (apply elem_of_cons in Hn as [->|Hn]; [discriminate|]).
    by apply elem_of_nil in Hn.
  - exists st. split; [exact Hst|]. rewrite Hsum, Hn, Hr.
    vm_compute. repeat split.
Defined.

(** * Stripping, splitting and lower-casing *)

Section Strip.
Import Py.

Lemma lstrip_head l :
  lstrip l = [] ∨ ∃ a t, lstrip l = a :: t ∧ is_space a = false.
Proof.
  induction l as [|a l IH]; [by left|]. cbn [lstrip].
  destruct (is_space a) eqn:E; [done|]. right. eauto.
Qed.

Lemma lstrip_fixed a t : is_space a = false → lstrip (a :: t) = a :: t.
Proof. intros E. cbn [lstrip]. by rewrite E. Qed.

Lemma lstrip_idemp l : lstrip (lstrip l) = lstrip l.
Proof.
  destruct (lstrip_head l) as [->|(a&t&->&E)]; [done|]. by apply lstrip_fixed.
Qed.

Lemma lstrip_snoc l a :
  is_space a = false → lstrip (l ++ [a]) = lstrip l ++ [a].
Proof.
  intros E. induction l as [|b l IH]; cbn [lstrip app].
  - by rewrite E.
  - destruct (is_space b); [exact IH|done].
Qed.

(** [rev (lstrip (rev l))] drops the white space at the end. *)
Lemma rstrip_cons a t :
  is_space a = false →
  rev (lstrip (rev (a :: t))) = a :: rev (lstrip (rev t)).
Proof.
  intros E. cbn [rev]. rewrite lstrip_snoc by done.
  by rewrite rev_app_distr.
Qed.

Lemma rstrip_idemp l :
  rev (lstrip (rev (rev (lstrip (rev l))))) = rev (lstrip (rev l)).
Proof. by rewrite rev_involutive, lstrip_idemp. Qed.

Lemma strip_list_head l :
  let s := rev (lstrip (rev (lstrip l))) in
  s = [] ∨ ∃ a t, s = a :: t ∧ is_space a = false.
Proof.
  cbn zeta. destruct (lstrip_head l) as [->|(a&t&->&E)]; [by left|].
  right. rewrite rstrip_cons by done. eauto.
Qed.

Lemma strip_list_last l :
  let s := rev (lstrip (rev (lstrip l))) in
  rev s = [] ∨ ∃ a t, rev s = a :: t ∧ is_space a = false.
Proof.
  cbn zeta. rewrite rev_involutive. apply lstrip_head.
Qed.

Lemma strip_list_idemp l :
  rev (lstrip (rev (lstrip (rev (lstrip (rev (lstrip l)))))))
  = rev (lstrip (rev (lstrip l))).
Proof.
  destruct (strip_list_head l) as [E|(a&t&E&Ha)]; cbn zeta in E.
  - by rewrite E.
  - rewrite E at 1. rewrite lstrip_fixed by done. rewrite <- E.
    apply rstrip_idemp.
Qed.

Lemma strip_idemp s : strip (strip s) = strip s.
Proof.
  unfold strip. rewrite list_ascii_of_string_of_list_ascii.
  by rewrite strip_list_idemp.
Qed.

Lemma strip_chars s a :
  In a (list_ascii_of_string (strip s)) → In a (list_ascii_of_string s).
Proof.
  unfold strip. rewrite list_ascii_of_string_of_list_ascii.
  assert (∀ l, In a (lstrip l) → In a l) as Hl.
  { intros l. induction l as [|b l IH]; [done|]. cbn [lstrip].
    destruct (is_space b); [|done]. intros ?%IH. by right. }
  intros H%in_rev%Hl%in_rev%Hl. done.
Qed.

(** A stripped string neither starts nor ends with white space. *)
Lemma strip_ends s :
  let l := list_ascii_of_string (strip s) in
  (∀ a t, l = a :: t → is_space a = false)
  ∧ (∀ a t, rev l = a :: t → is_space a = false).
Proof.
  cbn zeta. unfold strip. rewrite list_ascii_of_string_of_list_ascii. split.
  - intros a t E.
    destruct (strip_list_head (list_ascii_of_string s)) as [E'|(a'&t'&E'&Ha)];
      cbn zeta in E'; rewrite E' in E; [done|]. by injection E as <- _.
  - intros a t E.
    destruct (strip_list_last (list_ascii_of_string s)) as [E'|(a'&t'&E'&Ha)];
      cbn zeta in E'; rewrite E' in E; [done|]. by injection E as <- _.
Qed.

Lemma lower_ascii_idemp a : lower_ascii (lower_ascii a) = lower_ascii a.
Proof.
  unfold lower_ascii.
  destruct ((65 <=? nat_of_ascii a) && (nat_of_ascii a <=? 90)) eqn:E; [|by rewrite E].
  apply andb_true_iff in E as [E1%Nat.leb_le E2%Nat.leb_le].
  rewrite nat_ascii_embedding by lia.
  destruct ((65 <=? nat_of_ascii a + 32) && (nat_of_ascii a + 32 <=? 90)) eqn:E';
    [|done].
  apply andb_true_iff in E' as [_ E'%Nat.leb_le]. lia.
Qed.

Lemma lower_idemp s : lower (lower s) = lower s.
Proof.
  induction s as [|a s IH]; [done|]. cbn [lower].
  by rewrite lower_ascii_idemp, IH.
Qed.

Lemma lower_list s :
  list_ascii_of_string (lower s) = map lower_ascii (list_ascii_of_string s).
Proof. induction s as [|a s IH]; [done|]. cbn. by rewrite IH. Qed.

Lemma lower_of_list l :
  lower (string_of_list_ascii l) = string_of_list_ascii (map lower_ascii l).
Proof. induction l as [|a l IH]; [done|]. cbn. by rewrite IH. Qed.

Lemma lstrip_map_lower l :
  lstrip (map lower_ascii l) = map lower_ascii (lstrip l).
Proof.
  induction l as [|a l IH]; [done|]. cbn [map lstrip].
  rewrite is_space_lower. by destruct (is_space a).
Qed.

Lemma strip_lower s : strip (lower s) = lower (strip s).
Proof.
  unfold strip. rewrite lower_of_list, lower_list.
  by rewrite lstrip_map_lower, <- map_rev, lstrip_map_lower, <- map_rev.
Qed.

Lemma strip_lower_idemp s :
  strip (lower (strip (lower s))) = strip (lower s).
Proof. by rewrite (strip_lower (strip _)), strip_idemp, strip_lower, lower_idemp. Qed.

(** A piece of [split] holds no separator. *)
Lemma split_pieces sep s w a :
  w ∈ split sep s → In a (list_ascii_of_string w) →
  a ≠ sep ∧ In a (list_ascii_of_string s).
Proof.
  revert w. induction s as [|b s IH]; intros w; cbn [split].
  { intros ->%list_elem_of_singleton. done. }
  destruct (split sep s) as [|w0 ws] eqn:E.
  { intros ->%list_elem_of_singleton. cbn. intros [<-|[]].
    exfalso. clear -E. revert E. clear. intros E.
    destruct s; cbn in E; [done|]. destruct (split sep s); [done|].
    by case_bool_decide. }
  case_bool_decide as Hb.
  - intros [->|Hw]%elem_of_cons; [done|]. intros Ha.
    destruct (IH w Hw Ha) as [? ?]. split; [done|]. by right.
  - intros [->|Hw]%elem_of_cons.
    + cbn. intros [<-|Ha]; [split; [done|by left]|].
      destruct (IH w0) as [? ?]; [by left|done|]. split; [done|by right].
    + intros Ha. destruct (IH w) as [? ?]; [by right|done|].
      split; [done|by right].
Qed.

End Strip.

(** * Cleaning twice; policy names after cleaning *)

Section CleanTwice.
Import Pandas Pipeline PipelineEntities.

Lemma drop_duplicates_from_distinct {A K} `{EqDecision K} (key : A → K)
    seen (df : list A) :
  NoDup (map key df) → (∀ x, x ∈ df → key x ∉ seen) →
  drop_duplicates_from key seen df = df.
Proof.
  revert seen. induction df as [|x df IH]; intros seen Hnd Hs; [done|].
  cbn [map] in Hnd. apply NoDup_cons in Hnd as [Hx Hnd].
  cbn [drop_duplicates_from].
  rewrite decide_False by (apply Hs; by left). f_equal. apply IH; [done|].
  intros y Hy [E|?]%elem_of_cons; [|by apply (Hs y); [right|]].
  apply Hx. rewrite <- E. apply list_elem_of_fmap. by exists y.
Qed.

Lemma drop_duplicates_distinct {A K} `{EqDecision K} (key : A → K)
    (df : list A) :
  NoDup (map key df) → drop_duplicates key df = df.
Proof.
  intros. apply drop_duplicates_from_distinct; [done|].
  intros x _. apply not_elem_of_nil.
Qed.

Lemma omap_fixed {A B C} (h : C → option B) (f : A → C) (l : list B)
    (back : B → A) :
  (∀ r, r ∈ l → h (f (back r)) = Some r) →
  omap h (map f (map back l)) = l.
Proof.
  induction l as [|r l IH]; intros H; [done|].
  change (omap h (map f (map back (r :: l))))
    with (match h (f (back r)) with
          | Some y => y :: omap h (map f (map back l))
          | None => omap h (map f (map back l))
          end).
  rewrite (H r) by by left. f_equal. apply IH.
  intros; apply H. by right.
Qed.

Lemma clip_idemp lo hi f :
  (lo <= hi)%Q → clip lo hi (clip lo hi f) = clip lo hi f.
Proof.
  intros Hle. destruct f as [|q]; [done|].
  destruct (clip_range lo hi q Hle) as (q'&->&Hr&_).
  destruct (clip_range lo hi q' Hle) as (q''&->&_&Hin&_).
  by rewrite Hin.
Qed.

Lemma clean_people_twice raw :
  _clean_people (map Reread.person (_clean_people raw)) = _clean_people raw.
Proof.
  set (out := _clean_people raw).
  unfold _clean_people at 1.
  rewrite drop_duplicates_distinct.
  2:{ rewrite map_map. cbn. rewrite <- (map_map PersonRow.person_id Some).
      apply (NoDup_fmap_2 Some), clean_people_NoDup. }
  apply omap_fixed. intros r Hr.
  apply clean_people_origin in Hr as (i&r0&nm&_&_&_&_&_&->). cbn.
  rewrite strip_idemp, clip_idemp by done. do 2 f_equal.
  - destruct (PersonRow.title r0); [|done]. cbn. by rewrite strip_idemp.
  - destruct (PersonRow.email r0); [|done]. cbn. f_equal.
    apply strip_lower_idemp.
Qed.

Lemma clean_partners_twice cy raw :
  (1995 ≤ cy)%Z →
  _clean_partners cy (map Reread.partner (_clean_partners cy raw))
  = _clean_partners cy raw.
Proof.
  intros Hcy. set (out := _clean_partners cy raw).
  unfold _clean_partners at 1.
  rewrite drop_duplicates_distinct.
  2:{ rewrite map_map. cbn. rewrite <- (map_map PartnerRow.partner_id Some).
      apply (NoDup_fmap_2 Some), clean_partners_NoDup. }
  apply omap_fixed. intros r Hr.
  apply clean_partners_origin in Hr as (i&r0&nm&_&_&_&_&_&->). cbn.
  assert (∀ f, to_numeric (Reread.num f) = f) as Hnum by by intros [|?].
  rewrite strip_idemp, !Hnum. rewrite clip_idemp.
  - by destruct (to_numeric (PartnerRow.contract_value_rm r0)).
  - change 2000%Q with (inject_Z 2000). rewrite <- Zle_Qle. lia.
Qed.

End CleanTwice.

Section PolicyNames.
Import Cypher Identity KG PipelineEntities.

Lemma cleaned_token raw tok :
  tok ∈ all_policies (_clean_entities raw) →
  ¬ In ","%char (list_ascii_of_string tok)
  ∧ ¬ In "|"%char (list_ascii_of_string tok)
  ∧ Py.strip tok = tok.
Proof.
  intros (r&s&Hr&Hs&Htok)%elem_of_all_policies.
  unfold policy_tokens in Htok.
  apply list_elem_of_fmap in Htok as (w&->&Hw).
  apply clean_entities_origin in Hr as (i&r0&nm&_&_&_&_&Hrow).
  rewrite Hrow in Hs. cbn in Hs.
  destruct (RawEntityRow.policy_alignment r0) as [s0|]; [|done].
  cbn in Hs. injection Hs as <-.
  split; [|split].
  - intros Hin%strip_chars.
    destruct (split_pieces _ _ _ _ Hw Hin) as [_ Hs].
    by apply cleaned_alignment_no_comma in Hs.
  - intros Hin%strip_chars.
    by destruct (split_pieces _ _ _ _ Hw Hin) as [? _].
  - apply strip_idemp.
Qed.

End PolicyNames.

(** X24 — Policy names after cleaning.  When [import_entities] runs on
    the output of [_clean_entities], every Policy node it adds is named
    by a token that holds no comma and no [|] and has no white space at
    either end: commas of the raw [policy_alignment] have become
    separators, so a comma-separated alignment gives one Policy node
    for each of its parts. *)
Theorem cleaned_policy_names :
  ∀ (clk : nat → Z) (raw : list RawEntityRow.t) (w : world)
    (x : string * option value),
    x ∈ (Identity.skeleton
           (w_graph (KG.import_entities clk
                       (PipelineEntities._clean_entities raw) w))).1 →
    x.1 = "Policy" →
    x ∈ (Identity.skeleton (w_graph w)).1
    ∨ ∃ tok, x = Identity.ident "Policy" tok
             ∧ tok ∈ KG.all_policies (PipelineEntities._clean_entities raw)
             ∧ ¬ In ","%char (list_ascii_of_string tok)
             ∧ ¬ In "|"%char (list_ascii_of_string tok)
             ∧ Py.strip tok = tok.
Proof.
  intros clk raw w x Hx Hl.
  destruct (import_entities_policy_nodes clk _ w x Hx Hl)
    as [?|(r&s&tok&Hr&Hs&Htok&->)]; [by left|].
  right. exists tok. split; [done|].
  assert (tok ∈ KG.all_policies (PipelineEntities._clean_entities raw)) as Hin.
  { apply elem_of_all_policies. eauto. }
  split; [done|]. by apply (cleaned_token raw).
Qed.

Lemma cleaned_policy_names_witness :
  "AI Roadmap"
    ∈ KG.all_policies (PipelineEntities._clean_entities [comma_entity_row])
  ∧ ¬ In ","%char (list_ascii_of_string "AI Roadmap").
Proof.
  destruct (cleaned_policy_names (λ k, Z.of_nat k) [comma_entity_row]
              (World empty_graph []) (Identity.ident "Policy" "AI Roadmap"))
    as [H|(tok&Heq&Hin&Hc&_)].
  - vm_compute. right. right. left.
  - reflexivity.
  - by apply elem_of_nil in H.
  - injection Heq as <-. split; [exact Hin|exact Hc].
Defined.

(** X25 — Cleaning what has been cleaned.  [_clean_people] and (in a
    year from 1995 on) [_clean_partners] return their own output
    unchanged when it is given to them again.  [_clean_entities] does
    not: it replaces two spaces by one in a single pass, so a run of
    four spaces in a policy alignment is halved by each pass. *)
Theorem cleaning_twice :
  (∀ raw : list (PersonRow.t (option string)),
     Pipeline._clean_people (map Reread.person (Pipeline._clean_people raw))
     = Pipeline._clean_people raw)
  ∧ (∀ (current_year : Z) (raw : list (PartnerRow.t (option string) raw_num)),
       (1995 ≤ current_year)%Z →
       Pipeline._clean_partners current_year
         (map Reread.partner (Pipeline._clean_partners current_year raw))
       = Pipeline._clean_partners current_year raw)
  ∧ ¬ (∀ raw : list RawEntityRow.t,
         PipelineEntities._clean_entities
           (map Reread.entity (PipelineEntities._clean_entities raw))
         = PipelineEntities._clean_entities raw).
Proof.
  split; [apply clean_people_twice|]. split; [apply clean_partners_twice|].
  intros H. specialize (H [spaced_entity_row]). vm_compute in H.
  discriminate.
Qed.

Lemma cleaning_twice_witness :
  Pipeline._clean_partners 2026
    (map Reread.partner (Pipeline._clean_partners 2026 [raw_partner_row]))
  = Pipeline._clean_partners 2026 [raw_partner_row].
Proof.
  apply (proj1 (proj2 cleaning_twice) 2026%Z [raw_partner_row]). lia.
Defined.

(** * Reading back what was imported *)

Section ReadBack.
Import Cypher Identity KG KGQuery.

Lemma text_value_not_null c : text_value c ≠ VNull.
Proof. by destruct c. Qed.

Lemma prop_set_props pre k v post (m : gmap string value) :
  k ∉ post.*1 → v ≠ VNull →
  prop (set_props (pre ++ (k, v) :: post) m) k = v.
Proof.
  intros Hk Hv. unfold prop. by rewrite set_props_lookup_last.
Qed.

Lemma import_people_props clk rows w r n :
  NoDup (map PersonRow.person_id rows) → r ∈ rows →
  n ∈ nodes (w_graph (import_people clk rows w)) →
  node_has "Person" "person_id" (PersonRow.person_id r) n = true →
  ∃ m0, nprops n = set_props (person_props (clk 0) r) m0.
Proof.
  intros Hnd Hr Hn Hhas. rewrite import_people_nodes in Hn.
  apply (merge_nodes_target "Person" "person_id"
           (person_rows (clk 0) rows) (nodes (w_graph w))
           (PersonRow.person_id r) (person_props (clk 0) r)); try done.
  - by rewrite person_rows_keys.
  - apply list_elem_of_fmap. by exists r.
  - apply person_rows_no_key.
Qed.

Lemma person_props_read t r m0 :
  let m := set_props (person_props t r) m0 in
  KeyPerson (prop m "name") (prop m "title") (prop m "role_type")
    (prop m "focus_area") (prop m "email") (prop m "confidence_score")
  = KeyPerson (text_value (PersonRow.name r)) (text_value (PersonRow.title r))
      (text_value (PersonRow.role_type r))
      (text_value (PersonRow.focus_area r))
      (text_value (PersonRow.email r))
      (VFloat (PersonRow.confidence_score r)).
Proof.
  cbn zeta. unfold person_props. f_equal.
  - apply (prop_set_props []); [by apply not_in_keys|apply text_value_not_null].
  - apply (prop_set_props [_]); [by apply not_in_keys|apply text_value_not_null].
  - apply (prop_set_props [_; _]);
      [by apply not_in_keys|apply text_value_not_null].
  - apply (prop_set_props [_; _; _]);
      [by apply not_in_keys|apply text_value_not_null].
  - apply (prop_set_props [_; _; _; _; _]);
      [by apply not_in_keys|apply text_value_not_null].
  - apply (prop_set_props [_; _; _; _]); [by apply not_in_keys|done].
Qed.

Lemma imported_person_is_key_person clk rows w p :
  NoDup (map PersonRow.person_id rows) → p ∈ rows →
  node_exists "Entity" (PersonRow.entity_id p) (w_graph w) →
  KeyPerson (text_value (PersonRow.name p)) (text_value (PersonRow.title p))
    (text_value (PersonRow.role_type p))
    (text_value (PersonRow.focus_area p))
    (text_value (PersonRow.email p))
    (VFloat (PersonRow.confidence_score p))
  ∈ key_people_matches (PersonRow.entity_id p)
      (w_graph (import_people clk rows w)).
Proof.
  intros Hnd Hp He.
  destruct (import_people_edge clk rows w p Hp He)
    as (i&j&r&Hi&Hj&Hr&Hsrc&Hty&Hdst).
  apply elem_of_find_all_0 in Hi as (n&Hn&Hhas).
  destruct (import_people_props clk rows w p n Hnd Hp) as (m0&Hm0); [|done|].
  { by eapply list_elem_of_lookup_2. }
  unfold key_people_matches. apply list_elem_of_omap. exists r.
  split; [done|]. rewrite Hsrc, Hn.
  rewrite (node_has_label _ _ _ _ Hhas), Hty, Hdst.
  rewrite !bool_decide_eq_true_2 by done. cbn [andb]. f_equal.
  rewrite Hm0. apply person_props_read.
Qed.

End ReadBack.

(** X26 — A person that has been imported is found again.  After
    [import_people] on a batch with distinct ids, every person of the
    batch whose [entity_id] is an Entity node of the graph is among the
    records of [get_key_people_for_entity] for that entity, with the
    name, title, role, focus area, email and confidence score of its
    row (a missing text cell reads NaN). *)
Theorem imported_person_is_found :
  ∀ (clk : nat → Z) (people_df : list (PersonRow.t string)) (w : world)
    (p : PersonRow.t string) (out : list KGQuery.key_person),
    NoDup (map PersonRow.person_id people_df) →
    p ∈ people_df →
    Identity.node_exists "Entity" (PersonRow.entity_id p) (w_graph w) →
    KGQuery.get_key_people_for_entity (PersonRow.entity_id p)
      (w_graph (KG.import_people clk people_df w)) out →
    KGQuery.KeyPerson (text_value (PersonRow.name p))
      (text_value (PersonRow.title p))
      (text_value (PersonRow.role_type p))
      (text_value (PersonRow.focus_area p))
      (text_value (PersonRow.email p))
      (VFloat (PersonRow.confidence_score p))
    ∈ out.
Proof.
  intros clk rows w p out Hnd Hp He [Hperm _]. rewrite Hperm.
  by apply imported_person_is_key_person.
Qed.

Lemma imported_person_is_found_witness :
  KGQuery.KeyPerson (VStr "Gobind Singh Deo") (VStr "Minister")
    (VStr "Political") (VStr "Digital Policy")
    (VStr "minister@digital.gov.my") (VFloat (FNum 0))
  ∈ KGQuery.key_people_matches "MIN001" people_graph.
Proof.
  assert (∃ p, Pipeline._clean_people raw_people !! 1 = Some p
               ∧ PersonRow.entity_id p = "MIN001"
               ∧ KGQuery.KeyPerson (text_value (PersonRow.name p))
                   (text_value (PersonRow.title p))
                   (text_value (PersonRow.role_type p))
                   (text_value (PersonRow.focus_area p))
                   (text_value (PersonRow.email p))
                   (VFloat (PersonRow.confidence_score p))
                 = KGQuery.KeyPerson (VStr "Gobind Singh Deo") (VStr "Minister")
                     (VStr "Political") (VStr "Digital Policy")
                     (VStr "minister@digital.gov.my") (VFloat (FNum 0)))
    as (p&Hp&He&Hrec).
  { eexists. split; [vm_compute; reflexivity|]. split; reflexivity. }
  rewrite <- Hrec.
  refine (imported_person_is_found (λ k, Z.of_nat k)
            (Pipeline._clean_people raw_people) sample_world p
            (KGQuery.key_people_matches "MIN001" people_graph) _ _ _ _).
  - apply clean_people_NoDup.
  - by eapply list_elem_of_lookup_2.
  - rewrite He. exists 0. eexists. vm_compute. repeat split.
  - rewrite He. split; [reflexivity|].
    intros i j a b qa qb Hij Hi Hj Ha Hb.
    vm_compute in Hi, Hj.
    destruct i as [|[|i]], j as [|[|j]]; try lia; try discriminate.
    injection Hi as <-. injection Hj as <-.
    injection Ha as <-. injection Hb as <-. discriminate.
Defined.

Section ReadBackPartners.
Import Cypher Identity KG KGQuery.

Lemma import_partners_props clk rows w p n :
  NoDup (map PartnerRow.partner_id rows) → p ∈ rows →
  n ∈ nodes (w_graph (import_partners clk rows w)) →
  node_has "Company" "partner_id" (PartnerRow.partner_id p) n = true →
  ∃ m0, nprops n = set_props (company_props (clk 0) p) m0.
Proof.
  intros Hnd Hp Hn Hhas. rewrite import_partners_graph in Hn.
  unfold merge_rels, merge_nodes in Hn. cbn [nodes] in Hn.
  apply (merge_nodes_target "Company" "partner_id"
           (company_rows (clk 0) rows) (nodes (w_graph w))
           (PartnerRow.partner_id p) (company_props (clk 0) p)); try done.
  - unfold company_rows. by rewrite fmap_fst_map.
  - apply list_elem_of_fmap. by exists p.
  - intros row (q&->&_)%list_elem_of_fmap. by apply not_in_keys.
Qed.

Lemma toInteger_float_not_null f : toInteger (VFloat f) ≠ VNull.
Proof. by destruct f. Qed.

Lemma imported_partner_is_partnership clk rows w p :
  NoDup (map PartnerRow.partner_id rows) → p ∈ rows →
  node_exists "Entity" (PartnerRow.entity_id p) (w_graph w) →
  Partnership (text_value (PartnerRow.company_name p))
    (text_value (PartnerRow.relationship_type p))
    (toInteger (VFloat (PartnerRow.contract_value_rm p)))
    (toInteger (VFloat (PartnerRow.contract_year p)))
    (text_value (PartnerRow.procurement_stage p))
  ∈ partnership_matches (PartnerRow.entity_id p)
      (w_graph (import_partners clk rows w)).
Proof.
  intros Hnd Hp He.
  destruct (import_partners_edge clk rows w p Hp He)
    as (i&j&r&Hi&Hj&Hr&Hsrc&Hty&Hdst).
  change (key_of "Company") with "partner_id" in Hi.
  change (key_of "Entity") with "entity_id" in Hj.
  pose proof (import_partners_stored clk rows w p r Hnd Hp) as Hw.
  cbn zeta in Hw. destruct Hw as (r0&Hr0); [done|done|by rewrite Hsrc|
                                             by rewrite Hdst|].
  apply elem_of_find_all_0 in Hi as (n&Hn&Hhas).
  destruct (import_partners_props clk rows w p n Hnd Hp) as (m0&Hm0); [|done|].
  { by eapply list_elem_of_lookup_2. }
  unfold partnership_matches. apply list_elem_of_omap. exists r.
  split; [done|]. rewrite Hsrc, Hn.
  rewrite (node_has_label _ _ _ _ Hhas), Hty, Hdst.
  rewrite !bool_decide_eq_true_2 by done. cbn [andb]. f_equal.
  rewrite Hm0, Hr0. unfold company_props, partnership_props. f_equal.
  - apply (prop_set_props []); [by apply not_in_keys|apply text_value_not_null].
  - apply (prop_set_props []); [by apply not_in_keys|apply text_value_not_null].
  - apply (prop_set_props [_]);
      [by apply not_in_keys|apply toInteger_float_not_null].
  - apply (prop_set_props [_; _]);
      [by apply not_in_keys|apply toInteger_float_not_null].
  - apply (prop_set_props [_; _; _]);
      [by apply not_in_keys|apply text_value_not_null].
Qed.

End ReadBackPartners.

(** X27 — A partnership that has been imported is found again.  After
    [import_partners] on a batch with distinct ids, every partner of the
    batch whose [entity_id] is an Entity node of the graph is among the
    records of [get_partners_for_entity] for that entity, with its
    company name, relationship type and procurement stage and with
    contract value and contract year as integers, truncated towards
    zero: a year that cleaning left as NaN is returned as 0. *)
Theorem imported_partnership_is_found :
  ∀ (clk : nat → Z) (partners_df : list (PartnerRow.t string pyfloat))
    (w : world) (p : PartnerRow.t string pyfloat)
    (out : list KGQuery.partnership),
    NoDup (map PartnerRow.partner_id partners_df) →
    p ∈ partners_df →
    Identity.node_exists "Entity" (PartnerRow.entity_id p) (w_graph w) →
    KGQuery.get_partners_for_entity (PartnerRow.entity_id p)
      (w_graph (KG.import_partners clk partners_df w)) out →
    KGQuery.Partnership (text_value (PartnerRow.company_name p))
      (text_value (PartnerRow.relationship_type p))
      (toInteger (VFloat (PartnerRow.contract_value_rm p)))
      (toInteger (VFloat (PartnerRow.contract_year p)))
      (text_value (PartnerRow.procurement_stage p))
    ∈ out
    ∧ (PartnerRow.contract_year p = FNaN →
       toInteger (VFloat (PartnerRow.contract_year p)) = VInt 0).
Proof.
  intros clk rows w p out Hnd Hp He [Hperm _]. split.
  - rewrite Hperm. by apply imported_partner_is_partnership.
  - by intros ->.
Qed.

Lemma imported_partnership_is_found_witness :
  KGQuery.Partnership (VStr "TechMalaysia Solutions") (VStr "Service Provider")
    (VInt 0) (VInt 2024) (VStr "Active")
  ∈ KGQuery.partnership_matches "MIN001" raw_partner_graph.
Proof.
  assert (∃ p, Pipeline._clean_partners 2026 [raw_partner_row] !! 0 = Some p
               ∧ PartnerRow.entity_id p = "MIN001"
               ∧ KGQuery.Partnership (text_value (PartnerRow.company_name p))
                   (text_value (PartnerRow.relationship_type p))
                   (toInteger (VFloat (PartnerRow.contract_value_rm p)))
                   (toInteger (VFloat (PartnerRow.contract_year p)))
                   (text_value (PartnerRow.procurement_stage p))
                 = KGQuery.Partnership (VStr "TechMalaysia Solutions")
                     (VStr "Service Provider") (VInt 0) (VInt 2024)
                     (VStr "Active"))
    as (p&Hp&He&Hrec).
  { eexists. split; [vm_compute; reflexivity|]. split; reflexivity. }
  rewrite <- Hrec.
  refine (proj1 (imported_partnership_is_found (λ k, Z.of_nat k)
            (Pipeline._clean_partners 2026 [raw_partner_row]) sample_world p
            (KGQuery.partnership_matches "MIN001" raw_partner_graph) _ _ _ _)).
  - apply clean_partners_NoDup.
  - by eapply list_elem_of_lookup_2.
  - rewrite He. exists 0. eexists. vm_compute. repeat split.
  - rewrite He. split; [reflexivity|].
    intros i j a b za zb Hij Hi Hj Ha Hb.
    vm_compute in Hi, Hj.
    destruct i as [|i], j as [|j]; try lia; discriminate.
Defined.
